(** * AIMeetingFlow: CLI agent orchestration, session lease, issue writer, auto-watch

    A shallow embedding of the Python services
    ([services/claude_cli_service.py], [services/codex_cli_service.py])
    and of the watch/issue part of [web/routers/ai.py], together with the
    properties the design document states about them.

    Conventions of the embedding:
    - a Python [str] is a [string] whose characters are the code points
      below 256 (so [str.isspace], [str.lower] and the regex class [\d]
      are the restrictions of Python's to that range);
    - constant texts in Korean (an input header, two error messages) are
      kept as the bytes of their UTF-8 encoding;
    - a module-level dict with a fixed set of keys is a record;
    - a Python exception is a constructor of an error type, and a function
      that can raise returns a sum;
    - clock readings, the random uuid, the file system and the child
      process are inputs of the functions that consult them; a reading
      of [time.monotonic()] is a binary64 floating-point number;
    - what a child writes is a text, the bytes on its pipes being the
      UTF-8 encoding of it; whether it takes the input written to its
      stdin, and whether the event loop still holds the process when a
      time budget runs out, are inputs of the streaming runners
      ([Stream.io]). *)

From Stdlib Require Import Floats.
From Stdlib Require Import Ascii DecimalString.
From stdpp Require Import gmap strings list sorting.

Set Default Proof Using "Type".
Local Open Scope Z_scope.

(* ===================================================================== *)
(** * Python string primitives *)
(* ===================================================================== *)

Module PyStr.

Definition code (c : ascii) : N := Ascii.N_of_ascii c.

(** [str.isspace] on one character (code points below 256): TAB..CR,
    FS..US, SPACE, NEL and NBSP. *)
Definition isspace (c : ascii) : bool :=
  let n := code c in
  ((9 <=? n) && (n <=? 13) || (28 <=? n) && (n <=? 32)
   || (n =? 133) || (n =? 160))%N.

(** [\d] of [re] on a [str] pattern, below 256: the ten ASCII digits. *)
Definition isdigit (c : ascii) : bool :=
  let n := code c in ((48 <=? n) && (n <=? 57))%N.

(** [s.lstrip(chars)], [s.rstrip(chars)] and [s.strip(chars)], the set
    of characters given as a predicate. *)
Fixpoint lstrip_by (p : ascii → bool) (s : string) : string :=
  match s with
  | EmptyString => EmptyString
  | String c t => if p c then lstrip_by p t else s
  end.

Fixpoint rstrip_by (p : ascii → bool) (s : string) : string :=
  match s with
  | EmptyString => EmptyString
  | String c t =>
      match rstrip_by p t with
      | EmptyString => if p c then EmptyString else String c EmptyString
      | r => String c r
      end
  end.

Definition strip_by (p : ascii → bool) (s : string) : string :=
  rstrip_by p (lstrip_by p s).

(** [s.strip()] *)
Definition strip (s : string) : string := strip_by isspace s.

(** [c.lower()] below 256: A..Z and the Latin-1 capitals (all of
    0xC0..0xDE but the multiplication sign 0xD7) move up by 32. *)
Definition lower_char (c : ascii) : ascii :=
  let n := code c in
  if ((65 <=? n) && (n <=? 90)
      || (192 <=? n) && (n <=? 222) && negb (n =? 215))%N
  then Ascii.ascii_of_N (n + 32) else c.

Fixpoint lower (s : string) : string :=
  match s with
  | EmptyString => EmptyString
  | String c t => String (lower_char c) (lower t)
  end.

(** [needle in hay] *)
Fixpoint contains (needle hay : string) : bool :=
  String.prefix needle hay
  || match hay with
     | EmptyString => false
     | String _ t => contains needle t
     end.

(** [s.startswith(p)] *)
Definition startswith (s p : string) : bool := String.prefix p s.

(** [x in {...}] for a set literal of strings. *)
Definition mem (x : string) (l : list string) : bool :=
  existsb (String.eqb x) l.

(** [sep.join(l)] for the empty separator. *)
Fixpoint join (l : list string) : string :=
  match l with
  | [] => EmptyString
  | x :: r => x +:+ join r
  end.

(** [s.split(sep)] for a one-character separator. *)
Fixpoint split_on (sep : ascii) (s : string) : list string :=
  match s with
  | EmptyString => [EmptyString]
  | String c t =>
      if Ascii.eqb c sep then EmptyString :: split_on sep t
      else match split_on sep t with
           | [] => [String c EmptyString]
           | w :: ws => String c w :: ws
           end
  end.

(** [re.sub(p+, r, s)] for a character class [p] and a one-character
    replacement: every maximal run of [p] becomes one [r]. *)
Fixpoint collapse_runs (p : ascii → bool) (r : ascii) (in_run : bool) (s : string) : string :=
  match s with
  | EmptyString => EmptyString
  | String c t =>
      if p c then
        if in_run then collapse_runs p r true t
        else String r (collapse_runs p r true t)
      else String c (collapse_runs p r false t)
  end.

(** [re.sub] of the class [p+] by the empty text: the characters of class
    [p] are dropped. *)
Fixpoint remove (p : ascii → bool) (s : string) : string :=
  match s with
  | EmptyString => EmptyString
  | String c t => if p c then remove p t else String c (remove p t)
  end.

(** [s.replace(a, b)] for single characters. *)
Fixpoint replace_char (a b : ascii) (s : string) : string :=
  match s with
  | EmptyString => EmptyString
  | String c t => String (if Ascii.eqb c a then b else c) (replace_char a b t)
  end.

(** [s[:n]] *)
Fixpoint take (n : nat) (s : string) : string :=
  match n, s with
  | S n', String c t => String c (take n' t)
  | _, _ => EmptyString
  end.

(** The longest prefix whose characters satisfy [p], and what follows. *)
Fixpoint span (p : ascii → bool) (s : string) : string * string :=
  match s with
  | EmptyString => (EmptyString, EmptyString)
  | String c t =>
      if p c then let '(a, b) := span p t in (String c a, b)
      else (EmptyString, s)
  end.

(** [s.rpartition(sep)] for a one-character separator, when it occurs. *)
Fixpoint rsplit1 (sep : ascii) (s : string) : option (string * string) :=
  match s with
  | EmptyString => None
  | String c t =>
      match rsplit1 sep t with
      | Some (a, b) => Some (String c a, b)
      | None => if Ascii.eqb c sep then Some (EmptyString, t) else None
      end
  end.

(** [s.endswith(suffix)] *)
Fixpoint endswith (s suffix : string) : bool :=
  String.eqb s suffix
  || match s with
     | EmptyString => false
     | String _ t => endswith t suffix
     end.

(** [int(digits)] for a run of ASCII digits. *)
Definition int_of_digits (digits : string) : N :=
  let fix go (acc : N) (s : string) : N :=
    match s with
    | EmptyString => acc
    | String c t => go (10 * acc + (code c - 48))%N t
    end
  in go 0%N digits.

(** [format(n, "03d")] *)
Definition format_03d (n : N) : string :=
  let digits := NilEmpty.string_of_uint (N.to_uint n) in
  match String.length digits with
  | 0%nat => "000"
  | 1%nat => "00" +:+ digits
  | 2%nat => "0" +:+ digits
  | _ => digits
  end.

(** [s.splitlines()] below 256: LF, CR, CR LF, VT, FF, FS, GS, RS and
    NEL end a line. *)
Definition is_linebreak (c : ascii) : bool :=
  let n := code c in
  ((10 <=? n) && (n <=? 13) || (28 <=? n) && (n <=? 30) || (n =? 133))%N.

Fixpoint splitlines (s : string) : list string :=
  match s with
  | EmptyString => []
  | String c t =>
      if is_linebreak c then
        EmptyString ::
        match t with
        | String d t' =>
            if (code c =? 13)%N && (code d =? 10)%N then splitlines t' else splitlines t
        | EmptyString => []
        end
      else match splitlines t with
           | [] => [String c EmptyString]
           | l :: ls => String c l :: ls
           end
  end.

(** The string is empty or made of whitespace only. *)
Fixpoint all_space (s : string) : bool :=
  match s with
  | EmptyString => true
  | String c t => isspace c && all_space t
  end.


(** [bool(s)]: a string is truthy when it is not empty. *)
Definition truthy (s : string) : bool :=
  match s with EmptyString => false | _ => true end.

(** [a or b] on strings. *)
Definition or_else (a b : string) : string := if truthy a then a else b.

End PyStr.

(* ===================================================================== *)
(** * pathlib.PurePosixPath *)
(* ===================================================================== *)

Module PyPath.

Definition slash : ascii := "/"%char.

(** The components of a path text: empty and [.] components vanish. *)
Definition components (p : string) : list string :=
  filter (λ w, w ≠ EmptyString ∧ w ≠ ".") (PyStr.split_on slash p).

Fixpoint leading_slashes (p : string) : nat :=
  match p with
  | String c t => if Ascii.eqb c slash then S (leading_slashes t) else O
  | EmptyString => O
  end.

(** The root of a POSIX path: exactly two leading slashes are kept, any
    other positive number collapses to one. *)
Definition root (p : string) : list string :=
  match leading_slashes p with
  | O => []
  | 2%nat => ["//"]
  | _ => ["/"]
  end.

(** [Path(p).parts] *)
Definition parts (p : string) : list string := root p ++ components p.

(** [Path(p).name]: the last component, the root not being one. *)
Definition name (p : string) : string := List.last (components p) EmptyString.

(** [Path(name).stem]: the name without its last suffix; a dot that
    starts or ends the name opens no suffix. *)
Definition stem (name : string) : string :=
  match PyStr.rsplit1 "."%char name with
  | Some (String c a, String _ _) => String c a
  | _ => name
  end.

(** [p / q] as a path text: an absolute [q] replaces [p]. *)
Definition joinpath (p q : string) : string :=
  match leading_slashes q with
  | O => p +:+ "/" +:+ q
  | _ => q
  end.

End PyPath.

(* ===================================================================== *)
(** * [config.settings] *)
(* ===================================================================== *)

(** The settings object is imported by both services and declared
    elsewhere; the fields they read are taken as a record.  The numeric
    fields are integers, so that [int(x or 0)] is the identity on them. *)
Record Settings := {
  claude_cli_command : string;
  claude_cli_reuse_session : bool;
  claude_cli_session_idle_sec : Z;
  claude_cli_session_max_turns : Z;
  claude_cli_timeout_sec : Z;
  codex_cli_command : string;
  codex_cli_timeout_sec : Z
}.

(* ===================================================================== *)
(** * The child process, as both runners see it *)
(* ===================================================================== *)

(** What the operating system does with one spawn within a given time
    budget.  The texts are what the child wrote on each channel, decoded;
    for [TimedOut] they are the lines it had completed when the budget
    expired (what follows the last line feed is not handed out by
    [readline()] before the stream ends). *)
Inductive child :=
| NotFound
| TimedOut (out err : string)
| Exited (returncode : Z) (out err : string).

(** One spawn: argv and the text written to stdin. *)
Definition spawn := (list string * string)%type.

(** The terminal errors of the runners, one constructor per [raise], then
    the ways a streaming call ends that no [raise] of the runners
    covers: an exception of the write to the child's stdin, which comes
    before the readers and outside the [try]; the exception of
    [process.kill()] on a child the event loop has already let go of; and
    the call that waits for ever. *)
Inductive error :=
| EmptySourceText                        (* ValueError, before any spawn *)
| BadCommandLine                         (* ValueError of [shlex.split] *)
| ExecutableNotFound                     (* RuntimeError, from FileNotFoundError *)
| TimeoutExceeded (timeout_value : Z)    (* RuntimeError, after the kill *)
| NonZeroExit (returncode : Z) (stderr_text : string)
| EmptyOutput                            (* RuntimeError, zero exit, no text *)
| BrokenStdin                            (* BrokenPipeError or ConnectionResetError *)
| ChildGone                              (* ProcessLookupError *)
| NeverReturns.                          (* no exception, and no return *)

Module Subprocess.

Definition CR : ascii := "013"%char.
Definition LF : ascii := "010"%char.

(** [data.replace("\r\n", "\n").replace("\r", "\n")], the newline
    translation [subprocess.run] applies to captured text under
    [text=True]. *)
Fixpoint translate_newlines (s : string) : string :=
  match s with
  | EmptyString => EmptyString
  | String c t =>
      if Ascii.eqb c CR then
        match t with
        | String d t' =>
            if Ascii.eqb d LF then String LF (translate_newlines t')
            else String LF (translate_newlines t)
        | EmptyString => String LF EmptyString
        end
      else String c (translate_newlines t)
  end.

(** What [subprocess.run(..., text=True, capture_output=True)] hands
    back: the two exceptions the runners catch, or the completed process
    with its captured texts. *)
Inductive completed :=
| FileNotFoundError
| TimeoutExpired
| CompletedProcess (returncode : Z) (proc_stdout proc_stderr : string).

Definition run (c : child) : completed :=
  match c with
  | NotFound => FileNotFoundError
  | TimedOut _ _ => TimeoutExpired
  | Exited returncode out err =>
      CompletedProcess returncode (translate_newlines out) (translate_newlines err)
  end.

(** The successive results of [stream.readline()] up to end of file:
    each line with its terminator, a last unterminated line as it is. *)
Fixpoint readlines (s : string) : list string :=
  match s with
  | EmptyString => []
  | String c t =>
      if Ascii.eqb c LF then String c EmptyString :: readlines t
      else match readlines t with
           | [] => [String c EmptyString]
           | l :: ls => String c l :: ls
           end
  end.

End Subprocess.

(* ===================================================================== *)
(** * StreamEvent and the merged queue *)
(* ===================================================================== *)

Inductive channel := stdout | stderr.

Inductive event :=
| chunk (ch : channel) (text : string)
| eof (ch : channel)
| done (result : string).

Definition channel_eqb (a b : channel) : bool :=
  match a, b with
  | stdout, stdout | stderr, stderr => true
  | _, _ => false
  end.

Module Stream.

(** The limit of an [asyncio.StreamReader], which the runners leave at
    its default of 64 KiB: [readline()] raises [ValueError] when more
    bytes than this come before the line feed, or before the end of the
    stream. *)
Definition LIMIT : N := 65536.

(** The bytes of a line before its line feed, in the UTF-8 encoding the
    child writes: one byte for a code point below 128, two otherwise. *)
Fixpoint bytes_before_lf (line : string) : N :=
  match line with
  | EmptyString => 0
  | String c t =>
      if Ascii.eqb c Subprocess.LF then 0
      else ((if (PyStr.code c <? 128)%N then 1 else 2) + bytes_before_lf t)%N
  end.

Definition overlong (line : string) : bool := (LIMIT <? bytes_before_lf line)%N.

(** The lines [readline()] returns one after the other, and whether it
    then raises. *)
Fixpoint read (lines : list string) : list string * bool :=
  match lines with
  | [] => ([], false)
  | line :: rest =>
      if overlong line then ([], true)
      else let '(got, raised) := read rest in (line :: got, raised)
  end.

(** Of a text written on a channel: the lines the pump gets, and whether
    [readline()] raises on it. *)
Definition delivered (text : string) : list string := (read (Subprocess.readlines text)).1.
Definition overrun (text : string) : bool := (read (Subprocess.readlines text)).2.

(** [_pump(stream, channel)]: one chunk per line read, then the channel's
    end-of-file marker when the stream closes.  When [readline()] raises,
    the exception ends the pump task: it queues nothing more, and no
    marker. *)
Definition _pump (text : string) (ch : channel) (closes : bool) : list event :=
  let '(lines, raised) := read (Subprocess.readlines text) in
  map (chunk ch) lines ++ (if closes && negb raised then [eof ch] else []).

(** What the event loop meets besides what the child writes.  The write
    of the input to the child's stdin and its [drain()] come first: the
    child takes the input, or the write raises because the child has
    closed its end, or it waits for ever on a child that does not read.
    [reaped] tells whether, when the time budget runs out on a child
    that has exited, the event loop has already let go of the process,
    in which case [process.kill()] raises. *)
Inductive stdin_write := Taken | Broken | Blocked.

Record io := { stdin : stdin_write; reaped : bool }.

(** The order in which the two pump tasks reach the shared queue is the
    scheduler's; a schedule says whose turn it is ([true]: the stdout
    pump).  When the schedule is exhausted, or one pump has nothing
    left, the rest follows in order. *)
Fixpoint merge (sched : list bool) (a b : list event) : list event :=
  match sched, a, b with
  | _, [], _ => b
  | _, _, [] => a
  | [], _, _ => a ++ b
  | true :: sched', x :: a', _ => x :: merge sched' a' b
  | false :: sched', _, y :: b' => y :: merge sched' a b'
  end.

(** State of the consumer loop. *)
Record consumer := {
  eof_count : nat;
  stdout_chunks : list string;
  stderr_chunks : list string;
  yielded : list event
}.

Definition consumer0 : consumer :=
  {| eof_count := 0; stdout_chunks := []; stderr_chunks := []; yielded := [] |}.

(** One turn of [while eof_count < 2]: [queue.get()] and its handling. *)
Definition consume1 (ev : event) (k : consumer) : consumer :=
  match ev with
  | eof _ =>
      {| eof_count := S (eof_count k); stdout_chunks := stdout_chunks k;
         stderr_chunks := stderr_chunks k; yielded := yielded k |}
  | chunk stdout row =>
      {| eof_count := eof_count k; stdout_chunks := stdout_chunks k ++ [row];
         stderr_chunks := stderr_chunks k; yielded := yielded k ++ [ev] |}
  | chunk stderr row =>
      {| eof_count := eof_count k; stdout_chunks := stdout_chunks k;
         stderr_chunks := stderr_chunks k ++ [row]; yielded := yielded k ++ [ev] |}
  | done _ =>
      (* a pump never queues [done]; the [else] branch of the loop would
         file its (absent) text under stderr *)
      {| eof_count := eof_count k; stdout_chunks := stdout_chunks k;
         stderr_chunks := stderr_chunks k ++ [EmptyString]; yielded := yielded k ++ [ev] |}
  end.

(** The loop: it leaves as soon as two end-of-file markers were seen;
    on an exhausted queue [queue.get()] blocks until the time budget
    expires, so that a state with fewer than two markers is the one the
    timeout finds. *)
Fixpoint consume (queue : list event) (k : consumer) : consumer :=
  if (2 <=? eof_count k)%nat then k
  else match queue with
       | [] => k
       | ev :: queue' => consume queue' (consume1 ev k)
       end.

(** The queue a child produces under a schedule. *)
Definition queue_of (sched : list bool) (c : child) : list event :=
  match c with
  | NotFound => []
  | TimedOut out err => merge sched (_pump out stdout false) (_pump err stderr false)
  | Exited _ out err => merge sched (_pump out stdout true) (_pump err stderr true)
  end.

(** The number of end-of-file markers among some events. *)
Fixpoint eofs (evs : list event) : nat :=
  match evs with
  | [] => 0
  | eof _ :: r => S (eofs r)
  | _ :: r => eofs r
  end.

(** The texts of the chunks of one channel among some events, in order. *)
Fixpoint texts (ch : channel) (evs : list event) : list string :=
  match evs with
  | [] => []
  | chunk ch' t :: r => if channel_eqb ch' ch then t :: texts ch r else texts ch r
  | _ :: r => texts ch r
  end.

Definition stdout_texts : list event → list string := texts stdout.

End Stream.

(* ===================================================================== *)
(** * SessionManager: the global [_SESSION_STATE] slot *)
(* ===================================================================== *)

Module SessionState.

(** [_SESSION_STATE]; times are readings of [time.monotonic()]. *)
Record t := { id : string; turns : Z; last_used : float }.

Definition initial : t := {| id := EmptyString; turns := 0; last_used := 0%float |}.

End SessionState.

Module Session.
Import SessionState.

(** [x > 0] for a float [x]. *)
Definition float_positive (x : float) : bool := PrimFloat.ltb 0 x.

(** [x >= n] for a float [x] and an int [n]: Python compares the exact
    values, without converting the int. *)
Definition float_ge_int (x : float) (n : Z) : bool :=
  match Prim2SF x with
  | S754_nan => false
  | S754_infinity negative => negb negative
  | S754_zero _ => n <=? 0
  | S754_finite negative m e =>
      let v := if negative then Z.neg m else Z.pos m in
      if 0 <=? e then n <=? v * 2 ^ e else n * 2 ^ (- e) <=? v
  end.

Definition idle_limit (cfg : Settings) : Z := Z.max 0 (claude_cli_session_idle_sec cfg).
Definition turn_limit (cfg : Settings) : Z := Z.max 0 (claude_cli_session_max_turns cfg).

(** The subtraction [now - last_used] is the one of binary64, rounded
    to nearest. *)
Definition idle_expired (cfg : Settings) (now : float) (st : t) : bool :=
  PyStr.truthy (id st) && (0 <? idle_limit cfg)
  && float_positive (last_used st)
  && float_ge_int (PrimFloat.sub now (last_used st)) (idle_limit cfg).

Definition turn_expired (cfg : Settings) (st : t) : bool :=
  PyStr.truthy (id st) && (0 <? turn_limit cfg) && (turn_limit cfg <=? turns st).

(** [_lease_session_id()]: [now] is the clock reading and [uuid4] the
    value [str(uuid.uuid4())] would take.  Returns the new slot with
    [(current_id, created)]. *)
Definition _lease_session_id (cfg : Settings) (now : float) (uuid4 : string) (st : t)
  : t * (string * bool) :=
  if negb (PyStr.truthy (id st)) || idle_expired cfg now st || turn_expired cfg st
  then ({| id := uuid4; turns := 0; last_used := now |}, (uuid4, true))
  else (st, (id st, false)).

(** A slot that holds an id was last used at a positive clock reading:
    what the guard [last_used > 0] of the lease relies on. *)
Definition dated (st : t) : Prop :=
  id st ≠ EmptyString → float_positive (last_used st) = true.

Definition _touch_session (now : float) (session_id : string) (success : bool) (st : t) : t :=
  if negb (PyStr.truthy session_id) then st
  else if negb (String.eqb (id st) session_id) then st
  else {| id := id st;
          turns := if success then turns st + 1 else turns st;
          last_used := now |}.

Definition _reset_session (session_id : string) (st : t) : t :=
  if negb (PyStr.truthy session_id) then st
  else if negb (String.eqb (id st) session_id) then st
  else {| id := EmptyString; turns := 0; last_used := 0%float |}.

(** The test of [_maybe_reset_session_from_error] on the lowered text. *)
Definition session_error (error_text : string) : bool :=
  let lowered := PyStr.lower error_text in
  PyStr.truthy lowered
  && PyStr.contains "session" lowered
  && (PyStr.contains "not found" lowered || PyStr.contains "invalid" lowered).

Definition _maybe_reset_session_from_error (session_id error_text : string) (st : t) : t :=
  if session_error error_text then _reset_session session_id st else st.

Definition _command_has_session_flags (command : list string) : bool :=
  existsb
    (λ token,
       PyStr.mem token ["--session-id"; "-r"; "--resume"; "-c"; "--continue";
                        "--no-session-persistence"]
       || PyStr.startswith token "--session-id="
       || PyStr.startswith token "--resume=")
    (tail command).

Definition _session_reuse_supported (cfg : Settings) (command : list string) : bool :=
  if negb (claude_cli_reuse_session cfg) then false
  else match command with
       | [] => false
       | bin :: _ =>
           if negb (String.eqb (PyStr.lower (PyPath.name bin)) "claude") then false
           else negb (_command_has_session_flags command)
       end.

(** [_build_command_with_session(base_command)] *)
Definition _build_command_with_session
    (cfg : Settings) (now : float) (uuid4 : string) (base_command : list string) (st : t)
  : t * (list string * string) :=
  if negb (_session_reuse_supported cfg base_command) then (st, (base_command, EmptyString))
  else let '(st', (session_id, _)) := _lease_session_id cfg now uuid4 st in
       (st', (base_command ++ ["--session-id"; session_id], session_id)).

End Session.

(* ===================================================================== *)
(** * What one runner call leaves behind *)
(* ===================================================================== *)

(** [spawns]: the calls made to the operating system's spawn primitive;
    [events]: the stream events yielded to the caller, in order (none for
    the buffered runners); [result]: the returned text, or the exception. *)
Record outcome := {
  spawns : list spawn;
  events : list event;
  result : error + string
}.

Definition failed (sp : list spawn) (evs : list event) (e : error) : outcome :=
  {| spawns := sp; events := evs; result := inl e |}.

Definition newline : string := String Subprocess.LF EmptyString.

(** [_build_full_input(transcript, prompt)], the same in both services; the
    bracketed header is kept as the bytes of its UTF-8 encoding. *)
Definition _build_full_input (transcript prompt : string) : string :=
  PyStr.strip prompt +:+ newline +:+ newline +:+ "[전사 텍스트]" +:+ newline
  +:+ PyStr.strip transcript +:+ newline.

(* ===================================================================== *)
(** * The session-capable agent: [services/claude_cli_service.py] *)
(* ===================================================================== *)

Module Claude.

Definition claude_subcommands : list string :=
  ["agents"; "auth"; "doctor"; "install"; "mcp"; "plugin";
   "setup-token"; "update"; "upgrade"].

Definition has_print_flag (args : list string) : bool :=
  existsb (λ token, PyStr.mem token ["-p"; "--print"]) args.

(** [len(command) > 1 and command[1] in claude_subcommands], on the
    arguments [command[1:]]. *)
Definition has_subcommand (args : list string) : bool :=
  match args with
  | a :: _ => PyStr.mem a claude_subcommands
  | [] => false
  end.

(** The part of [_resolve_command] that follows the tokenisation. *)
Definition resolve_tokens (command : list string) : list string :=
  match command with
  | [] => ["claude"]
  | bin :: args =>
      let binary_name := PyStr.lower (PyPath.name bin) in
      if String.eqb binary_name "claude"
         && negb (has_print_flag args) && negb (has_subcommand args)
      then bin :: "-p" :: args
      else command
  end.

Section Service.
(** [shlex.split], [None] when it raises; the settings; the operating
    system: argv, stdin text and time budget to what the child does. *)
Context (shlex_split : string → option (list string)).
Context (settings : Settings).
Context (os : list string → string → Z → child).

Definition _resolve_command : option (list string) :=
  let command_text := PyStr.strip (PyStr.or_else (claude_cli_command settings) "claude") in
  if PyStr.truthy command_text
  then resolve_tokens <$> shlex_split command_text
  else Some (resolve_tokens ["claude"]).

(** [run_claude(transcript, prompt, timeout_sec)] from session slot
    [st]; [now_lease] and [now_touch] are the clock readings taken by
    the lease and by the bookkeeping of the terminal outcome. *)
Definition run_claude (now_lease now_touch : float) (uuid4 : string)
    (transcript prompt : string) (timeout_sec : Z) (st : SessionState.t)
  : SessionState.t * outcome :=
  let text := PyStr.strip transcript in
  let instruction := PyStr.strip prompt in
  if negb (PyStr.truthy text) then (st, failed [] [] EmptySourceText)
  else
    match _resolve_command with
    | None => (st, failed [] [] BadCommandLine)
    | Some base_command =>
        let '(st1, (command, session_id)) :=
          Session._build_command_with_session settings now_lease uuid4 base_command st in
        let full_input := _build_full_input text instruction in
        let timeout_value := Z.max 1 (if timeout_sec =? 0 then 1 else timeout_sec) in
        let sp := [(command, full_input)] in
        match Subprocess.run (os command full_input timeout_value) with
        | Subprocess.FileNotFoundError =>
            (Session._touch_session now_touch session_id false st1,
             failed sp [] ExecutableNotFound)
        | Subprocess.TimeoutExpired =>
            (Session._touch_session now_touch session_id false st1,
             failed sp [] (TimeoutExceeded timeout_value))
        | Subprocess.CompletedProcess returncode proc_stdout proc_stderr =>
            if negb (returncode =? 0) then
              let stderr_text := PyStr.strip proc_stderr in
              let st2 := Session._touch_session now_touch session_id false st1 in
              (Session._maybe_reset_session_from_error session_id stderr_text st2,
               failed sp [] (NonZeroExit returncode stderr_text))
            else
              let output := PyStr.strip proc_stdout in
              if negb (PyStr.truthy output) then
                (Session._touch_session now_touch session_id false st1,
                 failed sp [] EmptyOutput)
              else
                (Session._touch_session now_touch session_id true st1,
                 {| spawns := sp; events := []; result := inr output |})
        end
    end.

(** [_stream_claude_cli_locked(transcript, prompt, timeout_sec)];
    [sched] is the order in which the two pump tasks fill the queue and
    [io] what the event loop meets besides. *)
Definition _stream_claude_cli_locked (now_lease now_touch : float) (uuid4 : string)
    (sched : list bool) (io : Stream.io)
    (transcript prompt : string) (timeout_sec : option Z) (st : SessionState.t)
  : SessionState.t * outcome :=
  let text := PyStr.strip transcript in
  let instruction := PyStr.strip prompt in
  if negb (PyStr.truthy text) then (st, failed [] [] EmptySourceText)
  else
    let timeout_value :=
      Z.max 1 (from_option (λ t, t) (claude_cli_timeout_sec settings) timeout_sec) in
    match _resolve_command with
    | None => (st, failed [] [] BadCommandLine)
    | Some base_command =>
        let '(st1, (command, session_id)) :=
          Session._build_command_with_session settings now_lease uuid4 base_command st in
        let full_input := _build_full_input text instruction in
        let sp := [(command, full_input)] in
        let c := os command full_input timeout_value in
        let k := Stream.consume (Stream.queue_of sched c) Stream.consumer0 in
        let timed_out :=
          (Session._touch_session now_touch session_id false st1,
           failed sp (Stream.yielded k) (TimeoutExceeded timeout_value)) in
        match c with
        | NotFound =>
            (Session._touch_session now_touch session_id false st1,
             failed sp [] ExecutableNotFound)
        | _ =>
            match Stream.stdin io with
            | Stream.Broken => (st1, failed sp [] BrokenStdin)
            | Stream.Blocked => (st1, failed sp [] NeverReturns)
            | Stream.Taken =>
                match c with
                | Exited returncode _ _ =>
                    if (Stream.eof_count k <? 2)%nat then
                      if Stream.reaped io
                      then (st1, failed sp (Stream.yielded k) ChildGone)
                      else timed_out
                    else if negb (returncode =? 0) then
                      let stderr_text :=
                        PyStr.strip (PyStr.join (Stream.stderr_chunks k)) in
                      let st2 := Session._touch_session now_touch session_id false st1 in
                      (Session._maybe_reset_session_from_error session_id stderr_text st2,
                       failed sp (Stream.yielded k) (NonZeroExit returncode stderr_text))
                    else
                      let output := PyStr.strip (PyStr.join (Stream.stdout_chunks k)) in
                      if negb (PyStr.truthy output) then
                        (Session._touch_session now_touch session_id false st1,
                         failed sp (Stream.yielded k) EmptyOutput)
                      else
                        (Session._touch_session now_touch session_id true st1,
                         {| spawns := sp; events := Stream.yielded k ++ [done output];
                            result := inr output |})
                | _ => timed_out
                end
            end
        end
    end.

End Service.

End Claude.

(* ===================================================================== *)
(** * The batch agent: [services/codex_cli_service.py] *)
(* ===================================================================== *)

Module Codex.

Definition codex_subcommands : list string :=
  ["exec"; "review"; "login"; "logout"; "mcp"; "mcp-server"; "app-server";
   "app"; "completion"; "sandbox"; "debug"; "apply"; "a"; "resume"; "fork";
   "cloud"; "features"; "help"].

Definition has_subcommand (args : list string) : bool :=
  match args with
  | a :: _ => PyStr.mem a codex_subcommands
  | [] => false
  end.

Definition resolve_tokens (command : list string) : list string :=
  match command with
  | [] => ["codex"]
  | bin :: args =>
      let binary_name := PyStr.lower (PyPath.name bin) in
      if String.eqb binary_name "codex" && negb (has_subcommand args)
      then bin :: "exec" :: args
      else command
  end.

Section Service.
Context (shlex_split : string → option (list string)).
Context (settings : Settings).
Context (os : list string → string → Z → child).

Definition _resolve_command : option (list string) :=
  let command_text := PyStr.strip (PyStr.or_else (codex_cli_command settings) "codex") in
  if PyStr.truthy command_text
  then resolve_tokens <$> shlex_split command_text
  else Some (resolve_tokens ["codex"]).

(** [run_codex(transcript, prompt, timeout_sec)] *)
Definition run_codex (transcript prompt : string) (timeout_sec : Z) : outcome :=
  let text := PyStr.strip transcript in
  let instruction := PyStr.strip prompt in
  if negb (PyStr.truthy text) then failed [] [] EmptySourceText
  else
    match _resolve_command with
    | None => failed [] [] BadCommandLine
    | Some command =>
        let full_input := _build_full_input text instruction in
        let timeout_value := Z.max 1 (if timeout_sec =? 0 then 1 else timeout_sec) in
        let sp := [(command, full_input)] in
        match Subprocess.run (os command full_input timeout_value) with
        | Subprocess.FileNotFoundError => failed sp [] ExecutableNotFound
        | Subprocess.TimeoutExpired => failed sp [] (TimeoutExceeded timeout_value)
        | Subprocess.CompletedProcess returncode proc_stdout proc_stderr =>
            if negb (returncode =? 0) then
              failed sp [] (NonZeroExit returncode (PyStr.strip proc_stderr))
            else
              let output := PyStr.strip proc_stdout in
              if negb (PyStr.truthy output) then failed sp [] EmptyOutput
              else {| spawns := sp; events := []; result := inr output |}
        end
    end.

(** [stream_codex_cli(transcript, prompt, timeout_sec)] *)
Definition stream_codex_cli (sched : list bool) (io : Stream.io)
    (transcript prompt : string) (timeout_sec : option Z) : outcome :=
  let text := PyStr.strip transcript in
  let instruction := PyStr.strip prompt in
  if negb (PyStr.truthy text) then failed [] [] EmptySourceText
  else
    let timeout_value :=
      Z.max 1 (from_option (λ t, t) (codex_cli_timeout_sec settings) timeout_sec) in
    match _resolve_command with
    | None => failed [] [] BadCommandLine
    | Some command =>
        let full_input := _build_full_input text instruction in
        let sp := [(command, full_input)] in
        let c := os command full_input timeout_value in
        let k := Stream.consume (Stream.queue_of sched c) Stream.consumer0 in
        let timed_out := failed sp (Stream.yielded k) (TimeoutExceeded timeout_value) in
        match c with
        | NotFound => failed sp [] ExecutableNotFound
        | _ =>
            match Stream.stdin io with
            | Stream.Broken => failed sp [] BrokenStdin
            | Stream.Blocked => failed sp [] NeverReturns
            | Stream.Taken =>
                match c with
                | Exited returncode _ _ =>
                    if (Stream.eof_count k <? 2)%nat then
                      if Stream.reaped io then failed sp (Stream.yielded k) ChildGone
                      else timed_out
                    else if negb (returncode =? 0) then
                      failed sp (Stream.yielded k)
                        (NonZeroExit returncode
                           (PyStr.strip (PyStr.join (Stream.stderr_chunks k))))
                    else
                      let output := PyStr.strip (PyStr.join (Stream.stdout_chunks k)) in
                      if negb (PyStr.truthy output)
                      then failed sp (Stream.yielded k) EmptyOutput
                      else {| spawns := sp; events := Stream.yielded k ++ [done output];
                              result := inr output |}
                | _ => timed_out
                end
            end
        end
    end.

End Service.

End Codex.

(* ===================================================================== *)
(** * IssueWriter: [_save_ai_output] and its helpers in [web/routers/ai.py] *)
(* ===================================================================== *)

Module IssueWriter.

Definition underscore : ascii := "_"%char.
Definition hyphen : ascii := "-"%char.
Definition hash : ascii := "#"%char.
Definition is_char (a c : ascii) : bool := Ascii.eqb c a.

(** [re.match] of [^[^S]+S(\d+)_] on [stem], for a separator [S]: the
    text of group 1.  Nothing in the pattern can give back a character,
    so the leftmost-greedy match is the only one. *)
Definition match_pattern (sep : ascii) (stem : string) : option string :=
  let '(prefix, rest) := PyStr.span (λ c, negb (Ascii.eqb c sep)) stem in
  match prefix, rest with
  | String _ _, String _ rest1 =>
      let '(digits, rest2) := PyStr.span PyStr.isdigit rest1 in
      match digits, rest2 with
      | String _ _, String c _ => if Ascii.eqb c underscore then Some digits else None
      | _, _ => None
      end
  | _, _ => None
  end.

(** [_extract_issue_index(stem)]: the patterns in order, new rule
    [folder_001_title] first, then the former [CODE-001_title]. *)
Definition _extract_issue_index (stem : string) : option N :=
  match match_pattern underscore stem with
  | Some digits => Some (PyStr.int_of_digits digits)
  | None =>
      match match_pattern hyphen stem with
      | Some digits => Some (PyStr.int_of_digits digits)
      | None => None
      end
  end.

Definition is_quote (c : ascii) : bool :=
  Ascii.eqb c "034"%char || Ascii.eqb c "'"%char.

(** The line test [^\s*title\s*:\s*(.+?)\s*$] under IGNORECASE, followed
    by [.group(1).strip().strip(quotes)]: the value, empty when the line
    does not match or carries only blanks after the colon. *)
Definition title_field (line : string) : string :=
  let s1 := PyStr.lstrip_by PyStr.isspace line in
  if String.prefix "title" (PyStr.lower (PyStr.take 5 s1)) then
    match PyStr.lstrip_by PyStr.isspace (String.substring 5 (String.length s1 - 5) s1) with
    | String c r =>
        if Ascii.eqb c ":"%char
        then PyStr.strip_by is_quote (PyStr.strip r)
        else EmptyString
    | EmptyString => EmptyString
    end
  else EmptyString.

(** The loop over [lines[1:120]] of the front matter. *)
Fixpoint frontmatter_title (lines : list string) : option string :=
  match lines with
  | [] => None
  | line :: rest =>
      if String.eqb (PyStr.strip line) "---" then None
      else let value := title_field line in
           if PyStr.truthy value then Some value else frontmatter_title rest
  end.

(** The loop over all lines looking for the first Markdown heading. *)
Fixpoint first_heading (lines : list string) : option string :=
  match lines with
  | [] => None
  | line :: rest =>
      let heading := PyStr.strip line in
      let value := PyStr.strip (PyStr.lstrip_by (is_char hash) heading) in
      if PyStr.startswith heading "#" && PyStr.truthy value then Some value
      else first_heading rest
  end.

Definition _extract_title_from_ai_output (ai_output fallback : string) : string :=
  let text := PyStr.strip ai_output in
  if negb (PyStr.truthy text) then fallback
  else
    let lines := PyStr.splitlines text in
    let from_frontmatter :=
      match lines with
      | first :: rest =>
          if String.eqb (PyStr.strip first) "---"
          then frontmatter_title (take 119 rest)
          else None
      | [] => None
      end in
    match from_frontmatter with
    | Some value => value
    | None => default fallback (first_heading lines)
    end.

(** The characters no file name may hold: backslash, slash, colon,
    star, question mark, double quote, angle brackets and bar. *)
Definition is_illegal (c : ascii) : bool :=
  existsb (Ascii.eqb c)
    ["\"; "/"; ":"; "*"; "?"; "034"; "<"; ">"; "|"]%char.

Definition _sanitize_filename_token (value fallback : string) : string :=
  let raw := PyStr.or_else (PyStr.strip value) fallback in
  let cleaned := PyStr.remove is_illegal raw in
  let cleaned := PyStr.strip (PyStr.collapse_runs PyStr.isspace " "%char false cleaned) in
  let cleaned := PyStr.replace_char " "%char underscore cleaned in
  let cleaned :=
    PyStr.strip_by (λ c, Ascii.eqb c "."%char || Ascii.eqb c underscore)
      (PyStr.collapse_runs (is_char underscore) underscore false cleaned) in
  PyStr.take 80 (PyStr.or_else cleaned fallback).

(** Where the issue goes: [vault / account / "Issues"] for a nested
    source, [vault / get_issue_folder()] otherwise. *)
Inductive issue_dir :=
| AccountIssues (account : string)
| ConfiguredFolder (folder : string).

(** [issue_dir.name] *)
Definition issue_dir_name (vault : string) (d : issue_dir) : string :=
  match d with
  | AccountIssues _ => "Issues"
  | ConfiguredFolder folder => PyPath.name (PyPath.joinpath vault folder)
  end.

(** [sorted(f.stem for f in issue_dir.glob("*.md"))] over the names the
    directory holds. *)
Definition existing_stems (names : list string) : list string :=
  merge_sort String.le
    (PyPath.stem <$> filter (λ n, Is_true (PyStr.endswith n ".md")) names).

(** The loop that raises [next_num] over the existing stems. *)
Definition next_number (existing : list string) : N :=
  fold_left
    (λ next_num stem,
       match _extract_issue_index stem with
       | Some index => N.max next_num (index + 1)
       | None => next_num
       end)
    existing 1%N.

(** The rule in the words of the design: one more than the largest
    sequence number found, 1 when none was found. *)
Definition max_found_plus_one (found : list N) : N :=
  match found with
  | [] => 1%N
  | _ => (foldr N.max 0 found + 1)%N
  end.

(** What [_save_ai_output] returns and writes: the file [name] in
    directory [dir] (the two make up [saved_path]) with [content]. *)
Record saved := { dir : issue_dir; name : string; content : string }.

(** [_save_ai_output(vault, source_path, source_abs, ai_output)];
    [issue_folder] is [get_issue_folder()] and [ls] lists a directory. *)
Definition _save_ai_output (issue_folder : string) (ls : issue_dir → list string)
    (vault source_path source_abs ai_output : string) : saved :=
  let path_parts := PyPath.parts source_path in
  let account :=
    match path_parts with
    | first :: _ :: _ => first
    | _ => EmptyString
    end in
  let issue_dir :=
    if PyStr.truthy account then AccountIssues account
    else ConfiguredFolder issue_folder in
  let existing := existing_stems (ls issue_dir) in
  let next_num := next_number existing in
  let source_stem := PyPath.stem (PyPath.name source_abs) in
  let folder_token :=
    _sanitize_filename_token
      (PyStr.or_else account (PyStr.or_else (issue_dir_name vault issue_dir) "issue"))
      "issue" in
  let title_raw := _extract_title_from_ai_output ai_output source_stem in
  let title_token :=
    _sanitize_filename_token title_raw (PyStr.or_else source_stem "untitled") in
  let out_name :=
    folder_token +:+ "_" +:+ PyStr.format_03d next_num +:+ "_" +:+ title_token +:+ ".md" in
  {| dir := issue_dir; name := out_name; content := ai_output |}.

End IssueWriter.

(* ===================================================================== *)
(** * AutoWatchLoop: the polling part of [web/routers/ai.py] *)
(* ===================================================================== *)

Module AutoWatch.

Definition AUTO_WATCH_SETTLE_ATTEMPTS : nat := 3.

(** [_AUTO_WATCH_STATE] without its task handle. *)
Record WatchState := {
  enabled : bool;
  known_files : gset string;
  vault_path : string;
  processed_count : Z;
  last_processed_file : string;
  last_saved_path : string;
  last_processed_at : string;
  last_error : string;
  last_error_at : string
}.

Definition set_known_files (known : gset string) (st : WatchState) : WatchState :=
  {| enabled := enabled st; known_files := known; vault_path := vault_path st;
     processed_count := processed_count st;
     last_processed_file := last_processed_file st;
     last_saved_path := last_saved_path st;
     last_processed_at := last_processed_at st;
     last_error := last_error st; last_error_at := last_error_at st |}.

Definition set_vault_path (vault_text : string) (st : WatchState) : WatchState :=
  {| enabled := enabled st; known_files := known_files st; vault_path := vault_text;
     processed_count := processed_count st;
     last_processed_file := last_processed_file st;
     last_saved_path := last_saved_path st;
     last_processed_at := last_processed_at st;
     last_error := last_error st; last_error_at := last_error_at st |}.

(** [_set_auto_watch_error(message)] at clock text [now_iso]. *)
Definition _set_auto_watch_error (now_iso message : string) (st : WatchState) : WatchState :=
  {| enabled := enabled st; known_files := known_files st; vault_path := vault_path st;
     processed_count := processed_count st;
     last_processed_file := last_processed_file st;
     last_saved_path := last_saved_path st;
     last_processed_at := last_processed_at st;
     last_error := message; last_error_at := now_iso |}.

(** The bookkeeping of [_handle_auto_watch_file] after a save. *)
Definition record_processed (now_iso file_path saved_path : string) (st : WatchState)
  : WatchState :=
  {| enabled := enabled st; known_files := known_files st; vault_path := vault_path st;
     processed_count := processed_count st + 1;
     last_processed_file := file_path;
     last_saved_path := saved_path;
     last_processed_at := now_iso;
     last_error := EmptyString; last_error_at := EmptyString |}.

(** The body of the [for _ in range(attempts)] loop of
    [_wait_for_stable_file].  [file i] is what the [i]-th look at the
    file finds: its size, or nothing when it is gone; the look after the
    last sample is the closing [file_abs.exists()]. *)
Fixpoint settle (file : nat → option N) (attempts i : nat)
    (last_size : Z) (stable_count : nat) : bool :=
  match attempts with
  | O => bool_decide (is_Some (file i))
  | S attempts' =>
      match file i with
      | None => false
      | Some current_size =>
          if Z.of_N current_size =? last_size then
            if (AUTO_WATCH_SETTLE_ATTEMPTS <=? S stable_count)%nat then true
            else settle file attempts' (S i) last_size (S stable_count)
          else settle file attempts' (S i) (Z.of_N current_size) 0
      end
  end.

Definition _wait_for_stable_file (file : nat → option N) : bool :=
  settle file (AUTO_WATCH_SETTLE_ATTEMPTS * 3) 0 (-1) 0.

(** Whether the samples of one wait ever showed the stability the loop
    asks for: [AUTO_WATCH_SETTLE_ATTEMPTS] samples in a row equal to the
    one before them, within the attempts made. *)
Fixpoint stable_within (file : nat → option N) (attempts i : nat)
    (last_size : Z) (stable_count : nat) : bool :=
  match attempts with
  | O => false
  | S attempts' =>
      match file i with
      | None => false
      | Some current_size =>
          if Z.of_N current_size =? last_size then
            (AUTO_WATCH_SETTLE_ATTEMPTS <=? S stable_count)%nat
            || stable_within file attempts' (S i) last_size (S stable_count)
          else stable_within file attempts' (S i) (Z.of_N current_size) 0
      end
  end.

(** The file is there at each of the looks [i .. i + attempts]. *)
Fixpoint still_there (file : nat → option N) (attempts i : nat) : bool :=
  match attempts with
  | O => bool_decide (is_Some (file i))
  | S attempts' => bool_decide (is_Some (file i)) && still_there file attempts' (S i)
  end.

(** What one call of the file handler did. *)
Inductive handled :=
| Skipped                          (* returned without summarizing *)
| Processed (saved_path : string)  (* summarized and saved *)
| Raised (message : string).       (* an exception left the handler *)

Section Loop.
(** The file system as the handler sees it: for a relative path,
    [None] when [_safe_resolve_in_vault] refuses it, else the file
    over the successive looks (look 0 is the entry check).
    [summarize_file_to_issue] for the batch agent: the saved path, or
    the text of the exception.  [_now_iso()] is one clock text. *)
Context (lookup_file : string → option (nat → option N)).
Context (summarize_file_to_issue : string → string + string).
Context (now_iso : string).

Definition _handle_auto_watch_file (file_path : string) (st : WatchState)
  : WatchState * handled :=
  match lookup_file file_path with
  | None => (st, Raised "경로 접근이 허용되지 않습니다.")
  | Some file =>
      if negb (bool_decide (is_Some (file 0%nat))) then (st, Skipped)
      else if negb (_wait_for_stable_file (λ i, file (S i))) then (st, Skipped)
      else match summarize_file_to_issue file_path with
           | inl message => (st, Raised message)
           | inr saved_path =>
               (record_processed now_iso file_path saved_path st, Processed saved_path)
           end
  end.

(** [sorted(current_files - known_files)] *)
Definition new_files (current_files known : gset string) : list string :=
  merge_sort String.le (elements (current_files ∖ known)).

(** The [for rel_path in new_files] loop.  Between two files the loop
    is suspended and other requests may have changed the shared state:
    [others p] is what they did while [p] was being handled.  Returns
    the paths handed to the handler, in order, with what it did. *)
Fixpoint process_batch (others : string → WatchState → WatchState)
    (queue : list string) (st : WatchState)
  : WatchState * list (string * handled) :=
  match queue with
  | [] => (st, [])
  | rel_path :: queue' =>
      if negb (enabled st) then (st, [])
      else
        let '(st1, h) := _handle_auto_watch_file rel_path st in
        let st2 :=
          match h with
          | Raised message =>
              _set_auto_watch_error now_iso (rel_path +:+ ": " +:+ message) st1
          | _ => st1
          end in
        let '(st3, log) := process_batch others queue' (others rel_path st2) in
        (st3, (rel_path, h) :: log)
  end.

(** One turn of [_auto_watch_loop] after its sleep.  [vault] is
    [str(get_vault_path())] when that is a directory; [current_files]
    is the scan of it.  Returns the state, the queue of new paths and
    the log of the batch. *)
Definition tick (others : string → WatchState → WatchState)
    (vault_text : string) (vault_is_dir : bool) (current_files : gset string)
    (st : WatchState)
  : WatchState * list string * list (string * handled) :=
  if negb (enabled st) then (st, [], [])
  else if negb vault_is_dir then
    (_set_auto_watch_error now_iso ("볼트 경로를 찾을 수 없습니다: " +:+ vault_text) st, [], [])
  else
    let known := known_files st in
    let tracked_vault := vault_path st in
    let st1 := set_vault_path vault_text st in
    if negb (String.eqb tracked_vault vault_text) then
      (set_known_files current_files st1, [], [])
    else
      let queue := new_files current_files known in
      let st2 := set_known_files current_files st1 in
      let '(st3, log) := process_batch others queue st2 in
      (st3, queue, log).

End Loop.

End AutoWatch.

(* ===================================================================== *)
(** * The execution lock [_SESSION_EXEC_LOCK] and who takes it *)
(* ===================================================================== *)

Module ExecLock.



(** [_resolve_command(engine)] of [web/routers/ai.py]. *)
Definition _resolve_command (engine : string) : list string :=
  if String.eqb engine "codex" then ["codex"; "exec"] else ["claude"; "-p"].















End ExecLock.
From Stdlib Require DecimalN.

(* ===================================================================== *)
(** * Log previews and session labels of the services *)
(* ===================================================================== *)

Module LogPreview.

(** [value.replace("\n", "\\n")]: each line feed becomes a backslash
    followed by the letter n. *)
Fixpoint escape_newlines (s : string) : string :=
  match s with
  | EmptyString => EmptyString
  | String c t =>
      if Ascii.eqb c Subprocess.LF
      then String "\"%char (String "n"%char (escape_newlines t))
      else String c (escape_newlines t)
  end.

(** [_shorten_for_log(text, limit)] of both services.  The limit is a
    natural number: the callers leave the default [LOG_PREVIEW_LIMIT]
    of 240 in place. *)
Definition _shorten_for_log (text : string) (limit : nat) : string :=
  let value := escape_newlines (PyStr.strip text) in
  if (String.length value <=? limit)%nat then value
  else PyStr.take limit value +:+ "...(truncated)".

(** [_session_label(session_id)] *)
Definition _session_label (session_id : string) : string :=
  if negb (PyStr.truthy session_id) then "-"
  else hd EmptyString (PyStr.split_on IssueWriter.hyphen session_id).

End LogPreview.

(* ===================================================================== *)
(** * Shapes of outcomes, for the statements about the runners *)
(* ===================================================================== *)

Definition is_chunk (ev : event) : bool :=
  match ev with chunk _ _ => true | _ => false end.

(** What the child wrote on a channel (for a child that ran out of time,
    the lines it had completed). *)
Definition written (ch : channel) (c : child) : string :=
  match c with
  | NotFound => EmptyString
  | TimedOut out err | Exited _ out err =>
      match ch with stdout => out | stderr => err end
  end.

(** The payloads a result can carry: a time budget of at least one
    second, a non-zero exit code with a stripped error text, a non-empty
    stripped answer; the other errors carry nothing. *)
Definition well_formed (r : error + string) : Prop :=
  match r with
  | inl (TimeoutExceeded timeout_value) => 1 ≤ timeout_value
  | inl (NonZeroExit returncode stderr_text) =>
      returncode ≠ 0 ∧ PyStr.strip stderr_text = stderr_text
  | inl _ => True
  | inr output => output ≠ EmptyString ∧ PyStr.strip output = output
  end.

(** A session slot as the calls leave it: dated, with a turn count that
    is not negative. *)
Definition sound (st : SessionState.t) : Prop :=
  Session.dated st ∧ 0 ≤ SessionState.turns st.

(* ===================================================================== *)
(** * Switching the watch on and off: [start_auto_watch] and the
      [/auto-watch] route of [web/routers/ai.py] *)
(* ===================================================================== *)

Module WatchControl.
Import AutoWatch.

(** [start_auto_watch()]: when the watch is on, the scan of the vault
    becomes the baseline.  [vault_text] is [str(get_vault_path())] and
    [snapshot] is [_scan_watch_candidates(vault)]. *)
Definition start_auto_watch (vault_text : string) (snapshot : gset string)
    (st : WatchState) : WatchState :=
  if enabled st then set_known_files snapshot (set_vault_path vault_text st) else st.

(** [set_auto_watch_status(body)]: [enabled] is what
    [set_auto_watch_enabled(body.enabled)] returns, [scan] the scan of
    the vault, consulted only when the watch is switched on. *)
Definition set_auto_watch_status (body_enabled : bool) (vault_text : string)
    (scan : gset string) (st : WatchState) : WatchState :=
  let snapshot := if body_enabled then scan else ∅ in
  {| enabled := body_enabled;
     known_files := snapshot;
     vault_path := if body_enabled then vault_text else EmptyString;
     processed_count := processed_count st;
     last_processed_file := last_processed_file st;
     last_saved_path := last_saved_path st;
     last_processed_at := last_processed_at st;
     last_error := if body_enabled then EmptyString else last_error st;
     last_error_at := if body_enabled then EmptyString else last_error_at st |}.

(** The entries of a batch log that were summarized and saved. *)
Definition is_processed (h : handled) : bool :=
  match h with Processed _ => true | _ => false end.

End WatchControl.

(* ===================================================================== *)
(** * VaultScanner: [_scan_watch_candidates] of [web/routers/ai.py] *)
(* ===================================================================== *)

Module Scanner.

(** What [os.walk] finds under a directory: files, and directories with
    what they hold.  Symbolic links and unreadable directories, which
    [os.walk] lists without entering, are not part of the tree. *)
Unset Elimination Schemes.
Inductive entry :=
| File (name : string)
| Dir (name : string) (entries : list entry).
Set Elimination Schemes.

Definition AUTO_WATCH_EXTENSIONS : list string := [".md"; ".txt"].
Definition AUTO_WATCH_EXCLUDED_DIR_NAMES : list string := [".git"; "__pycache__"; "issues"].

(** [Path(name).suffix]: from the last dot on, unless that dot starts or
    ends the name. *)
Definition suffix (name : string) : string :=
  match PyStr.rsplit1 "."%char name with
  | Some (String _ _, String d b) => String "."%char (String d b)
  | _ => EmptyString
  end.

(** The set [excluded]: the lowered fixed names, and the configured
    issue folder, stripped and lowered, when it is not empty. *)
Definition excluded_names (issue_folder : string) : list string :=
  let excluded := PyStr.lower <$> AUTO_WATCH_EXCLUDED_DIR_NAMES in
  let issue_folder := PyStr.lower (PyStr.strip issue_folder) in
  if PyStr.truthy issue_folder then excluded ++ [issue_folder] else excluded.

(** The filter of [dirs[:] = [...]]. *)
Definition keeps_dir (excluded : list string) (d : string) : bool :=
  negb (PyStr.startswith d ".") && negb (PyStr.mem (PyStr.lower d) excluded).

(** The tests on a file name found in the directory [root_parts] (the
    parts of [root] relative to the vault). *)
Definition takes_file (excluded : list string) (root_parts : list string)
    (filename : string) : bool :=
  negb (PyStr.startswith filename ".")
  && PyStr.mem (PyStr.lower (suffix filename)) AUTO_WATCH_EXTENSIONS
  && negb (existsb (λ part, PyStr.mem (PyStr.lower part) excluded) root_parts).

(** The walk below one entry of the directory [root_parts]: the parts of
    the relative paths discovered.  The order of discovery is not kept
    by the set they are added to. *)
Fixpoint walk (excluded : list string) (root_parts : list string) (e : entry)
  : list (list string) :=
  match e with
  | File filename =>
      if takes_file excluded root_parts filename then [root_parts ++ [filename]] else []
  | Dir d entries =>
      if keeps_dir excluded d
      then flat_map (walk excluded (root_parts ++ [d])) entries
      else []
  end.

(** [str(rel_path)] from its parts. *)
Fixpoint join_parts (parts : list string) : string :=
  match parts with
  | [] => "."
  | [p] => p
  | p :: rest => p +:+ "/" +:+ join_parts rest
  end.

(** Where [_save_ai_output] writes, as the parts of [out_path] relative
    to the vault: below the account of a nested source, in its [Issues]
    directory, else in the configured folder, which is a path text of
    its own and is joined to the vault component by component.  (A
    folder with a leading slash replaces the vault and is not covered.) *)
Definition saved_parts (s : IssueWriter.saved) : list string :=
  match IssueWriter.dir s with
  | IssueWriter.AccountIssues account => [account; "Issues"; IssueWriter.name s]
  | IssueWriter.ConfiguredFolder folder =>
      PyPath.components folder ++ [IssueWriter.name s]
  end.

(** [_scan_watch_candidates(vault)]; [vault] is what the vault directory
    holds, nothing when it does not exist or is no directory. *)
Definition _scan_watch_candidates (issue_folder : string) (vault : option (list entry))
  : gset string :=
  match vault with
  | None => ∅
  | Some entries =>
      list_to_set (join_parts <$> flat_map (walk (excluded_names issue_folder) []) entries)
  end.

End Scanner.

(* ===================================================================== *)
(** * The viewer configuration: [web/config.py] *)
(* ===================================================================== *)

Module Config.

(** The JSON values the configuration can hold, as far as the readers
    tell them apart: [null], a boolean, a string, or any other value
    (number, array, object) with its truth value [bool(raw)]. *)
Inductive json :=
| JNull
| JBool (b : bool)
| JString (s : string)
| JOther (truth : bool).

(** [bool(raw)] *)
Definition truth (raw : json) : bool :=
  match raw with
  | JNull => false
  | JBool b => b
  | JString s => PyStr.truthy s
  | JOther t => t
  end.

(** What [CONFIG_FILE] holds: nothing, a text [json.loads] rejects, a
    JSON object, or another JSON value.  Writing an object and reading
    it back is taken to give the object. *)
Inductive config_file :=
| Missing
| Unreadable
| Object (data : gmap string json)
| NotAnObject.

(** [_load()]: the dict, or nothing when the file holds a JSON value
    that is no object, on which every use below raises. *)
Definition _load (file : config_file) : option (gmap string json) :=
  match file with
  | Missing | Unreadable => Some ∅
  | Object data => Some data
  | NotAnObject => None
  end.

(** [get_issue_folder()]; [DEFAULT_ISSUE_FOLDER] is read from the
    environment when the module is loaded. *)
Definition get_issue_folder (DEFAULT_ISSUE_FOLDER : string) (file : config_file)
  : option json :=
  data ← _load file;
  Some (match data !! "issue_folder" with
        | Some raw => if truth raw then raw else JString DEFAULT_ISSUE_FOLDER
        | None => JString DEFAULT_ISSUE_FOLDER
        end).

(** [get_auto_watch_enabled()] *)
Definition get_auto_watch_enabled (DEFAULT_AUTO_WATCH_ENABLED : bool)
    (file : config_file) : option bool :=
  data ← _load file;
  Some (match data !! "auto_watch_enabled" with
        | None | Some JNull => DEFAULT_AUTO_WATCH_ENABLED
        | Some (JString raw) =>
            PyStr.mem (PyStr.lower (PyStr.strip raw)) ["1"; "true"; "yes"; "on"]
        | Some raw => truth raw
        end).

(** [set_auto_watch_enabled(enabled)]: the file as it is left, and the
    value returned. *)
Definition set_auto_watch_enabled (enabled : bool) (file : config_file)
  : option (config_file * bool) :=
  data ← _load file;
  Some (Object (<["auto_watch_enabled" := JBool enabled]> data), enabled).

End Config.

(* ===================================================================== *)
(** * The runners of the router: [_run_subprocess_once],
      [summarize_file_to_issue], [_sse] and [_stream_subprocess] of
      [web/routers/ai.py] *)
(* ===================================================================== *)

Module Router.


(** [sep.join(l)] for the separator made of one line feed. *)
Fixpoint join_lines (l : list string) : string :=
  match l with
  | [] => EmptyString
  | [x] => x
  | x :: r => x +:+ newline +:+ join_lines r
  end.

(** [data.replace("\r\n", "\n")] *)
Fixpoint replace_crlf (s : string) : string :=
  match s with
  | EmptyString => EmptyString
  | String c t =>
      match t with
      | String d t' =>
          if Ascii.eqb c Subprocess.CR && Ascii.eqb d Subprocess.LF
          then String Subprocess.LF (replace_crlf t')
          else String c (replace_crlf t)
      | EmptyString => String c EmptyString
      end
  end.

(** [_sse(data, event)] *)
Definition _sse (data event : string) : string :=
  let lines := PyStr.split_on Subprocess.LF (replace_crlf data) in
  let payload := join_lines ((λ line, "data: " +:+ line) <$> lines) in
  "event: " +:+ event +:+ newline +:+ payload +:+ newline +:+ newline.

(** [_build_input(content, prompt, context)]; the bracketed header is
    kept as the bytes of its UTF-8 encoding. *)
Definition _build_input (content prompt context : string) : string :=
  let parts :=
    [PyStr.strip prompt]
    ++ (if PyStr.truthy context then [context] else [])
    ++ ["[파일 내용]" +:+ newline +:+ PyStr.strip content] in
  (fix join (l : list string) : string :=
     match l with
     | [] => EmptyString
     | [x] => x
     | x :: r => x +:+ newline +:+ newline +:+ join r
     end) parts +:+ newline.

(** The [raise RuntimeError] sites of [_run_subprocess_once], with what
    the detail is made from: the first token of the command, the time
    budget, the exit code and the stripped stderr. *)
Inductive run_error :=
| CommandNotFound (binary : string)
| RunTimeout (timeout_sec : Z)
| RunFailed (returncode : Z) (stderr_text : string)
| EmptyResult (stderr_text : string).

Section Runner.
(** The operating system, as for the services. *)
Context (os : list string → string → Z → child).

(** [_run_subprocess_once(command, full_input, timeout_sec)]: the
    captured bytes are decoded as they are, without newline
    translation. *)
Definition _run_subprocess_once (command : list string) (full_input : string)
    (timeout_sec : Z) : run_error + string :=
  match os command full_input timeout_sec with
  | NotFound => inl (CommandNotFound (hd EmptyString command))
  | TimedOut _ _ => inl (RunTimeout timeout_sec)
  | Exited returncode out err =>
      let ai_output := PyStr.strip out in
      let stderr_text := PyStr.strip err in
      if negb (returncode =? 0) then inl (RunFailed returncode stderr_text)
      else if negb (PyStr.truthy ai_output) then inl (EmptyResult stderr_text)
      else inr ai_output
  end.

(** The exceptions that leave [summarize_file_to_issue]. *)
Inductive summarize_error :=
| PermissionError                 (* [_safe_resolve_in_vault] refused the path *)
| FileNotFoundError               (* no regular file there *)
| RuntimeError (e : run_error).

(** [issue_folder], [ls] and [vault] as for [_save_ai_output].
    [resolve] is [_safe_resolve_in_vault] followed by the look at the
    file: nothing when the path is refused, else the absolute path with
    the text of the file when it is a regular file.  [context_of] is
    [_build_context(vault, file_path)]. *)
Context (issue_folder : string) (ls : IssueWriter.issue_dir → list string).
Context (vault : string).
Context (resolve : string → option (string * option string)).
Context (context_of : string → string).

Definition summarize_file_to_issue (file_path engine prompt : string) (timeout_sec : Z)
  : summarize_error + IssueWriter.saved :=
  match resolve file_path with
  | None => inl PermissionError
  | Some (_, None) => inl FileNotFoundError
  | Some (file_abs, Some content) =>
      let command := ExecLock._resolve_command (PyStr.lower engine) in
      let context := context_of file_path in
      let full_input := _build_input content prompt context in
      match _run_subprocess_once command full_input timeout_sec with
      | inl e => inl (RuntimeError e)
      | inr ai_output =>
          inr (IssueWriter._save_ai_output issue_folder ls vault file_path file_abs
                 ai_output)
      end
  end.


End Runner.

End Router.

(* ===================================================================== *)
(** * The call the watch makes to the router's file handler *)
(* ===================================================================== *)

Module WatchHandler.

Section Handler.
Context (os : list string → string → Z → child).
Context (issue_folder : string) (ls : IssueWriter.issue_dir → list string).
Context (vault : string).
Context (resolve : string → option (string * option string)).
Context (context_of : string → string).
(** The constant [DEFAULT_PROMPT]; [str(exc)] for an exception of the
    file handler; the saved path in what it returns. *)
Context (DEFAULT_PROMPT : string).
Context (message_of : Router.summarize_error → string).
Context (saved_path_of : IssueWriter.saved → string).

(** [summarize_file_to_issue(file_path=file_path, engine="codex",
    prompt=DEFAULT_PROMPT, timeout_sec=600)] as [_handle_auto_watch_file]
    calls it: the saved path, or the text of the exception. *)
Definition summarize (file_path : string) : string + string :=
  match Router.summarize_file_to_issue os issue_folder ls vault resolve context_of
          file_path "codex" DEFAULT_PROMPT 600 with
  | inl e => inl (message_of e)
  | inr saved => inr (saved_path_of saved)
  end.

End Handler.

End WatchHandler.

(* ===================================================================== *)
(** * Fixtures of the worked examples *)
(* ===================================================================== *)

Module Fixtures.

(** A tokenizer for command lines without quotes or escapes, on which
    [shlex.split] is the split on blanks. *)
Definition shlex_split (text : string) : option (list string) :=
  Some (String.words text).

Definition settings : Settings :=
  {| claude_cli_command := "claude";
     claude_cli_reuse_session := true;
     claude_cli_session_idle_sec := 900;
     claude_cli_session_max_turns := 20;
     claude_cli_timeout_sec := 600;
     codex_cli_command := "codex";
     codex_cli_timeout_sec := 600 |}.

Definition padded_summary : string := "  summary" +:+ newline.
Definition session_not_found : string := "Error: Session not found" +:+ newline.
(** An event loop on which the child takes its input and is still held
    when a time budget runs out. *)
Definition taken : Stream.io := {| Stream.stdin := Stream.Taken; Stream.reaped := false |}.
(** A watch state that is on, tracks [/vault] and knows [a.md]. *)
Definition watching : AutoWatch.WatchState :=
  {| AutoWatch.enabled := true;
     AutoWatch.known_files := {["a.md"]};
     AutoWatch.vault_path := "/vault";
     AutoWatch.processed_count := 0;
     AutoWatch.last_processed_file := EmptyString;
     AutoWatch.last_saved_path := EmptyString;
     AutoWatch.last_processed_at := EmptyString;
     AutoWatch.last_error := EmptyString;
     AutoWatch.last_error_at := EmptyString |}.

(** A file that is being written: every look finds it one byte longer. *)
Definition growing_file : nat → option N := λ i, Some (N.of_nat i).

(** A file that has settled at 42 bytes. *)
Definition settled_file : nat → option N := λ _, Some 42%N.

Definition beta_note : string := "# Beta" +:+ newline +:+ newline +:+ "Decisions of the day.".

End Fixtures.

(* ===================================================================== *)
(** * Facts about the string primitives *)
(* ===================================================================== *)

Section StringFacts.
Import PyStr.

Lemma truthy_false (s : string) : truthy s = false ↔ s = EmptyString.
Proof. destruct s; simpl; split; congruence. Qed.

Lemma truthy_true (s : string) : truthy s = true ↔ s ≠ EmptyString.
Proof. destruct s; simpl; split; congruence. Qed.

Lemma lstrip_by_head p s c t : lstrip_by p s = String c t → p c = false.
Proof.
  induction s as [|a s IH]; simpl; [discriminate|].
  destruct (p a) eqn:Ha; [exact IH|].
  intros [= <- _]. exact Ha.
Qed.

Lemma rstrip_by_head p c t c' t' :
  rstrip_by p (String c t) = String c' t' → c' = c.
Proof.
  simpl. destruct (rstrip_by p t); [destruct (p c)|]; congruence.
Qed.


Lemma lstrip_by_all_space s : all_space s = true → lstrip_by isspace s = EmptyString.
Proof.
  induction s as [|a s IH]; simpl; [done|].
  intros [Ha Hs]%andb_true_iff. rewrite Ha. auto.
Qed.

Lemma rstrip_by_empty p s : rstrip_by p s = EmptyString → lstrip_by p s = EmptyString.
Proof.
  induction s as [|a s IH]; simpl; [done|].
  destruct (rstrip_by p s) eqn:Hr; [|discriminate].
  destruct (p a); [auto|discriminate].
Qed.

Lemma lstrip_by_idem p s : lstrip_by p (lstrip_by p s) = lstrip_by p s.
Proof.
  induction s as [|a s IH]; simpl; [done|].
  destruct (p a) eqn:Ha; [done|]. simpl. by rewrite Ha.
Qed.

(** A text strips to nothing exactly when it is empty or blank. *)
Lemma strip_empty_iff s : strip s = EmptyString ↔ all_space s = true.
Proof.
  unfold strip, strip_by. split.
  - intros H%rstrip_by_empty. rewrite lstrip_by_idem in H.
    induction s as [|a s IH]; simpl in *; [done|].
    destruct (isspace a); [auto|discriminate].
  - intros H. by rewrite lstrip_by_all_space.
Qed.



Lemma mem_true x l : mem x l = true ↔ x ∈ l.
Proof.
  unfold mem. rewrite existsb_exists. split.
  - intros (y & Hy%list_elem_of_In & ->%String.eqb_eq). done.
  - intros H. exists x. split; [by apply list_elem_of_In|apply String.eqb_refl].
Qed.

End StringFacts.

(* ===================================================================== *)
(** * CommandResolver *)
(* ===================================================================== *)

Section ResolverFacts.

Lemma claude_resolve_fixpoint bin args :
  Claude.resolve_tokens (Claude.resolve_tokens (bin :: args))
  = Claude.resolve_tokens (bin :: args).
Proof.
  remember (Claude.resolve_tokens (bin :: args)) as r eqn:E.
  unfold Claude.resolve_tokens in E.
  destruct (_ && _ && _) eqn:Hc in E; subst r; unfold Claude.resolve_tokens.
  - change (Claude.has_print_flag ("-p" :: args)) with true.
    cbn [negb]. by rewrite andb_false_r.
  - by rewrite Hc.
Qed.

Lemma codex_resolve_fixpoint bin args :
  Codex.resolve_tokens (Codex.resolve_tokens (bin :: args))
  = Codex.resolve_tokens (bin :: args).
Proof.
  remember (Codex.resolve_tokens (bin :: args)) as r eqn:E.
  unfold Codex.resolve_tokens in E.
  destruct (_ && _) eqn:Hc in E; subst r; unfold Codex.resolve_tokens.
  - change (Codex.has_subcommand ("exec" :: args)) with true.
    cbn [negb]. by rewrite andb_false_r.
  - by rewrite Hc.
Qed.

(** [_resolve_command] is [resolve_tokens] after the tokenizer. *)
Lemma claude_resolve_command_tokens shlex_split settings tokens :
  let command_text :=
    PyStr.strip (PyStr.or_else (claude_cli_command settings) "claude") in
  command_text ≠ EmptyString →
  shlex_split command_text = Some tokens →
  Claude._resolve_command shlex_split settings = Some (Claude.resolve_tokens tokens).
Proof.
  intros text Hne Hsplit. unfold Claude._resolve_command. fold text.
  apply truthy_true in Hne. rewrite Hne, Hsplit. done.
Qed.

Lemma codex_resolve_command_tokens shlex_split settings tokens :
  let command_text :=
    PyStr.strip (PyStr.or_else (codex_cli_command settings) "codex") in
  command_text ≠ EmptyString →
  shlex_split command_text = Some tokens →
  Codex._resolve_command shlex_split settings = Some (Codex.resolve_tokens tokens).
Proof.
  intros text Hne Hsplit. unfold Codex._resolve_command. fold text.
  apply truthy_true in Hne. rewrite Hne, Hsplit. done.
Qed.

End ResolverFacts.

(** C8. For a command whose binary base name is the agent's canonical name,
    that holds no print flag ([-p], [--print]; the batch agent has none)
    and whose first argument is no recognized subcommand, resolution puts
    the default flag ([-p]) or subcommand ([exec]) right after the binary;
    a command that already holds the flag or starts with a recognized
    subcommand comes back unchanged, and resolving twice is resolving
    once. *)
Theorem C8_resolve_inserts_default_once :
  (∀ bin args,
      PyStr.lower (PyPath.name bin) = "claude" →
      Claude.has_print_flag args = false →
      Claude.has_subcommand args = false →
      Claude.resolve_tokens (bin :: args) = bin :: "-p" :: args)
  ∧ (∀ bin args,
      Claude.has_print_flag args = true ∨ Claude.has_subcommand args = true →
      Claude.resolve_tokens (bin :: args) = bin :: args)
  ∧ (∀ bin args,
      Claude.resolve_tokens (Claude.resolve_tokens (bin :: args))
      = Claude.resolve_tokens (bin :: args))
  ∧ (∀ bin args,
      PyStr.lower (PyPath.name bin) = "codex" →
      Codex.has_subcommand args = false →
      Codex.resolve_tokens (bin :: args) = bin :: "exec" :: args)
  ∧ (∀ bin args,
      Codex.has_subcommand args = true →
      Codex.resolve_tokens (bin :: args) = bin :: args)
  ∧ (∀ bin args,
      Codex.resolve_tokens (Codex.resolve_tokens (bin :: args))
      = Codex.resolve_tokens (bin :: args)).
Proof.
  repeat split.
  - intros bin args Hb Hf Hs. unfold Claude.resolve_tokens.
    by rewrite Hb, Hf, Hs.
  - intros bin args H. unfold Claude.resolve_tokens.
    destruct H as [-> | ->]; by rewrite ?andb_false_r.
  - apply claude_resolve_fixpoint.
  - intros bin args Hb Hs. unfold Codex.resolve_tokens. by rewrite Hb, Hs.
  - intros bin args Hs. unfold Codex.resolve_tokens. by rewrite Hs, andb_false_r.
  - apply codex_resolve_fixpoint.
Qed.

Lemma C8_resolve_witness :
  Claude.resolve_tokens ["/opt/bin/Claude"; "--model"; "opus"]
  = ["/opt/bin/Claude"; "-p"; "--model"; "opus"]
  ∧ Claude.resolve_tokens ["claude"; "--verbose"; "--print"] = ["claude"; "--verbose"; "--print"]
  ∧ Codex.resolve_tokens ["codex"; "--json"] = ["codex"; "exec"; "--json"]
  ∧ Codex.resolve_tokens ["codex"; "review"] = ["codex"; "review"].
Proof.
  destruct C8_resolve_inserts_default_once as (H1 & H2 & _ & H4 & H5 & _).
  split; [apply H1; reflexivity|].
  split; [apply H2; left; reflexivity|].
  split; [apply H4; reflexivity|].
  apply H5; reflexivity.
Defined.

(* ===================================================================== *)
(** * The merged queue and its consumer *)
(* ===================================================================== *)

Section StreamFacts.
Import Stream.

Lemma append_cons c s1 s2 : String c s1 +:+ s2 = String c (s1 +:+ s2).
Proof. reflexivity. Qed.

Lemma append_empty_r s : s +:+ EmptyString = s.
Proof. induction s as [|c s IH]; [done|]. by rewrite append_cons, IH. Qed.

(** Reading line by line loses nothing. *)
Lemma join_readlines s : PyStr.join (Subprocess.readlines s) = s.
Proof.
  induction s as [|c s IH]; [done|]. simpl.
  destruct (Ascii.eqb c Subprocess.LF).
  - simpl. by rewrite append_cons, IH.
  - destruct (Subprocess.readlines s) as [|l ls]; simpl in *.
    + by rewrite <- IH.
    + by rewrite append_cons, IH.
Qed.

Lemma texts_cons ch ev evs : texts ch (ev :: evs) = texts ch [ev] ++ texts ch evs.
Proof. destruct ev as [ch' t| |]; simpl; [destruct (channel_eqb ch' ch)|..]; done. Qed.

Lemma texts_app ch a b : texts ch (a ++ b) = texts ch a ++ texts ch b.
Proof.
  induction a as [|ev a IH]; [done|].
  rewrite <- app_comm_cons, (texts_cons _ ev), (texts_cons _ ev a), IH.
  by rewrite app_assoc.
Qed.

Lemma texts_chunks_same ch ls : texts ch (map (chunk ch) ls) = ls.
Proof.
  induction ls as [|l ls IH]; [done|]. simpl.
  destruct ch; simpl; by rewrite IH.
Qed.

Lemma texts_chunks_other ch ch' ls :
  channel_eqb ch' ch = false → texts ch (map (chunk ch') ls) = [].
Proof. intros H. induction ls as [|l ls IH]; [done|]. simpl. by rewrite H. Qed.

(** The reader hands on every line when none is too long. *)
Lemma read_all lines :
  (read lines).2 = false → (read lines).1 = lines.
Proof.
  induction lines as [|l lines IH]; [done|]. cbn [read].
  destruct (overlong l); [done|].
  destruct (read lines) as [got raised]. simpl in *. intros H. by rewrite IH.
Qed.

Lemma delivered_all text : overrun text = false → delivered text = Subprocess.readlines text.
Proof. apply read_all. Qed.




Lemma pump_unfold text ch closes :
  _pump text ch closes
  = map (chunk ch) (delivered text)
    ++ (if closes && negb (overrun text) then [eof ch] else []).
Proof.
  unfold _pump, delivered, overrun. by destruct (read (Subprocess.readlines text)).
Qed.

Lemma texts_pump_same ch text closes : texts ch (_pump text ch closes) = delivered text.
Proof.
  rewrite pump_unfold, texts_app, texts_chunks_same.
  destruct (closes && negb (overrun text)); simpl; by rewrite app_nil_r.
Qed.

Lemma texts_pump_other ch ch' text closes :
  channel_eqb ch' ch = false → texts ch (_pump text ch' closes) = [].
Proof.
  intros H. rewrite pump_unfold, texts_app, texts_chunks_other by done.
  by destruct (closes && negb (overrun text)).
Qed.

(** Merging keeps the order within a channel. *)
Lemma texts_merge_l ch sched a b :
  texts ch b = [] → texts ch (merge sched a b) = texts ch a.
Proof.
  revert a b. induction sched as [|turn sched IH]; intros a b Hb.
  - destruct a as [|x a], b as [|y b]; simpl merge; try done.
    change (x :: a ++ y :: b) with ((x :: a) ++ y :: b).
    by rewrite texts_app, Hb, app_nil_r.
  - destruct turn, a as [|x a], b as [|y b]; simpl merge; try done.
    + rewrite (texts_cons _ x), (texts_cons _ x a). f_equal. by apply IH.
    + rewrite (texts_cons _ y) in Hb. apply app_eq_nil in Hb as [Hy Hb'].
      rewrite (texts_cons _ y), Hy. simpl app. by apply IH.
Qed.

Lemma texts_merge_r ch sched a b :
  texts ch a = [] → texts ch (merge sched a b) = texts ch b.
Proof.
  revert a b. induction sched as [|turn sched IH]; intros a b Ha.
  - destruct a as [|x a], b as [|y b]; simpl merge; try done.
    change (x :: a ++ y :: b) with ((x :: a) ++ y :: b).
    by rewrite texts_app, Ha.
  - destruct turn, a as [|x a], b as [|y b]; simpl merge; try done.
    + rewrite (texts_cons _ x) in Ha. apply app_eq_nil in Ha as [Hx Ha'].
      rewrite (texts_cons _ x), Hx. simpl app. by apply IH.
    + rewrite (texts_cons _ y), (texts_cons _ y b). f_equal. by apply IH.
Qed.

Lemma eofs_app a b : eofs (a ++ b) = (eofs a + eofs b)%nat.
Proof.
  induction a as [|ev a IH]; [done|]. destruct ev; simpl; rewrite IH; done.
Qed.

Lemma eofs_cons ev evs : eofs (ev :: evs) = (eofs [ev] + eofs evs)%nat.
Proof. by destruct ev. Qed.

Lemma eofs_merge sched a b : eofs (merge sched a b) = (eofs a + eofs b)%nat.
Proof.
  revert a b. induction sched as [|turn sched IH]; intros a b.
  - destruct a as [|x a], b as [|y b]; simpl merge; try done.
    change (x :: a ++ y :: b) with ((x :: a) ++ y :: b). by rewrite eofs_app.
  - destruct turn, a as [|x a], b as [|y b]; simpl merge; try done;
      try (change (eofs []) with 0%nat; lia).
    + rewrite (eofs_cons x), IH, (eofs_cons x a). lia.
    + rewrite (eofs_cons y), IH, (eofs_cons y b). lia.
Qed.

Lemma eofs_pump text ch closes :
  eofs (_pump text ch closes) = if closes && negb (overrun text) then 1%nat else 0%nat.
Proof.
  rewrite pump_unfold, eofs_app.
  assert (eofs (map (chunk ch) (delivered text)) = 0%nat) as ->.
  { induction (delivered text); simpl; done. }
  by destruct (closes && negb (overrun text)).
Qed.

Lemma elem_of_merge sched a b x : x ∈ merge sched a b → x ∈ a ∨ x ∈ b.
Proof.
  revert a b. induction sched as [|turn sched IH]; intros a b.
  - destruct a as [|y a], b as [|z b]; simpl merge; auto.
    change (y :: a ++ z :: b) with ((y :: a) ++ z :: b).
    by rewrite elem_of_app.
  - destruct turn, a as [|y a], b as [|z b]; simpl merge; auto.
    + rewrite !elem_of_cons. intros [->|[H|H]%IH];
        try (apply elem_of_cons in H); tauto.
    + rewrite !elem_of_cons. intros [->|[H|H]%IH];
        try (apply elem_of_cons in H); tauto.
Qed.

Lemma last_cons_cons {A} (x y : A) l : last (x :: y :: l) = last (y :: l).
Proof. done. Qed.

Lemma last_merge sched a b x :
  last (merge sched a b) = Some x → last a = Some x ∨ last b = Some x.
Proof.
  revert a b. induction sched as [|turn sched IH]; intros a b.
  - destruct a as [|y a], b as [|z b]; simpl merge; auto.
    change (y :: a ++ z :: b) with ((y :: a) ++ z :: b).
    rewrite last_app. destruct (last (z :: b)) eqn:E; [auto|].
    rewrite last_cons in E. by destruct (last b).
  - destruct turn, a as [|y a], b as [|z b]; simpl merge; auto.
    + destruct (merge sched a (z :: b)) as [|m ms] eqn:E.
      * destruct a; [|destruct sched as [|[]]; discriminate].
        destruct sched as [|[]]; discriminate.
      * rewrite last_cons_cons, <- E. intros [H|H]%IH; [left|by right].
        destruct a; [discriminate|]. by rewrite last_cons_cons.
    + destruct (merge sched (y :: a) b) as [|m ms] eqn:E.
      * destruct b; [|destruct sched as [|[]]; discriminate].
        destruct sched as [|[]]; discriminate.
      * rewrite last_cons_cons, <- E. intros [H|H]%IH; [by left|right].
        destruct b; [discriminate|]. by rewrite last_cons_cons.
Qed.

Lemma last_pump text ch :
  overrun text = false → last (_pump text ch true) = Some (eof ch).
Proof. intros H. rewrite pump_unfold, H. simpl. by rewrite last_snoc. Qed.

Lemma pump_no_done text ch closes r : done r ∉ _pump text ch closes.
Proof.
  rewrite pump_unfold, elem_of_app, list_elem_of_fmap.
  intros [(l & ? & _)|H]; [done|].
  destruct (closes && negb (overrun text)); [|by apply elem_of_nil in H].
  by apply list_elem_of_singleton in H.
Qed.

Lemma last_eof_eofs q ch : last q = Some (eof ch) → (1 ≤ eofs q)%nat.
Proof.
  induction q as [|e q IH]; [done|].
  destruct q as [|e' q].
  - intros [= ->]. simpl. lia.
  - rewrite last_cons_cons. intros H%IH. rewrite eofs_cons. lia.
Qed.

Lemma eof_count_consume1 ev k :
  eof_count (consume1 ev k) = (eof_count k + eofs [ev])%nat.
Proof. destruct ev as [[] t| |r]; simpl; lia. Qed.

Lemma consume_cons ev q k :
  (eof_count k < 2)%nat → consume (ev :: q) k = consume q (consume1 ev k).
Proof. intros H%Nat.leb_gt. cbn [consume]. by rewrite H. Qed.

(** The loop reads the whole queue when its last entry is the second
    end-of-file marker, and files every chunk under its channel. *)
Lemma consume_whole q k :
  (∀ r, done r ∉ q) →
  (q = [] ∨ ((eofs q + eof_count k ≤ 2)%nat ∧ ∃ ch, last q = Some (eof ch))) →
  stdout_chunks (consume q k) = stdout_chunks k ++ texts stdout q
  ∧ stderr_chunks (consume q k) = stderr_chunks k ++ texts stderr q
  ∧ stdout_texts (yielded (consume q k)) = stdout_texts (yielded k) ++ texts stdout q
  ∧ eof_count (consume q k) = (eof_count k + eofs q)%nat.
Proof.
  revert k. induction q as [|ev q IH]; intros k Hdone Hq.
  - assert (consume [] k = k) as Hnil
      by (cbn [consume]; by destruct (2 <=? eof_count k)%nat).
    rewrite Hnil. simpl texts. simpl eofs.
    by rewrite !app_nil_r, Nat.add_0_r.
  - destruct Hq as [|[Hn [ch Hlast]]]; [done|].
    assert (eof_count k < 2)%nat as Hlt.
    { apply last_eof_eofs in Hlast. lia. }
    rewrite consume_cons by done.
    destruct (IH (consume1 ev k)) as (H1 & H2 & H3 & H4).
    { intros r Hr. apply (Hdone r). by right. }
    { destruct q as [|ev' q']; [by left|right]. split.
      - rewrite eof_count_consume1. rewrite (eofs_cons ev) in Hn. lia.
      - exists ch. by rewrite last_cons_cons in Hlast. }
    rewrite H1, H2, H3, H4, eof_count_consume1, (eofs_cons ev).
    rewrite (texts_cons stdout ev), (texts_cons stderr ev).
    clear H1 H2 H3 H4 IH.
    destruct ev as [[] t| |r]; simpl.
    + unfold stdout_texts. rewrite texts_app. simpl. rewrite <- !app_assoc.
      repeat split; auto with lia.
    + unfold stdout_texts. rewrite texts_app. simpl.
      rewrite <- !app_assoc, ?app_nil_r.
      repeat split; auto with lia.
    + repeat split; auto with lia.
    + exfalso. apply (Hdone r). by left.
Qed.

(** The loop also reads the whole queue when it holds fewer markers than
    the loop waits for: it is then found waiting when the budget expires. *)
Lemma consume_short q k :
  (∀ r, done r ∉ q) →
  (eofs q + eof_count k < 2)%nat →
  stdout_chunks (consume q k) = stdout_chunks k ++ texts stdout q
  ∧ stderr_chunks (consume q k) = stderr_chunks k ++ texts stderr q
  ∧ stdout_texts (yielded (consume q k)) = stdout_texts (yielded k) ++ texts stdout q
  ∧ eof_count (consume q k) = (eof_count k + eofs q)%nat.
Proof.
  revert k. induction q as [|ev q IH]; intros k Hdone Hn.
  - assert (consume [] k = k) as Hnil
      by (cbn [consume]; by destruct (2 <=? eof_count k)%nat).
    rewrite Hnil. simpl texts. simpl eofs.
    by rewrite !app_nil_r, Nat.add_0_r.
  - rewrite (eofs_cons ev) in Hn.
    rewrite consume_cons by lia.
    destruct (IH (consume1 ev k)) as (H1 & H2 & H3 & H4).
    { intros r Hr. apply (Hdone r). by right. }
    { rewrite eof_count_consume1. lia. }
    rewrite H1, H2, H3, H4, eof_count_consume1, (eofs_cons ev).
    rewrite (texts_cons stdout ev), (texts_cons stderr ev).
    clear H1 H2 H3 H4 IH.
    destruct ev as [[] t| |r]; simpl.
    + unfold stdout_texts. rewrite texts_app. simpl. rewrite <- !app_assoc.
      repeat split; auto with lia.
    + unfold stdout_texts. rewrite texts_app. simpl.
      rewrite <- !app_assoc, ?app_nil_r.
      repeat split; auto with lia.
    + repeat split; auto with lia.
    + exfalso. apply (Hdone r). by left.
Qed.

(** What the consumer holds of the two pumps' queue when it leaves its
    loop or is found waiting: every line the readers delivered, each
    under its channel, and one marker for each stream that closed
    without its reader raising. *)
Lemma consume_pumps sched out err closes :
  let k := consume (merge sched (_pump out stdout closes) (_pump err stderr closes))
             consumer0 in
  stdout_chunks k = delivered out
  ∧ stderr_chunks k = delivered err
  ∧ stdout_texts (yielded k) = delivered out
  ∧ eof_count k = ((if closes && negb (overrun out) then 1 else 0)
                   + (if closes && negb (overrun err) then 1 else 0))%nat.
Proof.
  set (a := _pump out stdout closes). set (b := _pump err stderr closes).
  assert (∀ r, done r ∉ merge sched a b) as Hdone.
  { intros r [H|H]%elem_of_merge; by apply pump_no_done in H. }
  assert (eofs (merge sched a b)
          = ((if closes && negb (overrun out) then 1 else 0)
             + (if closes && negb (overrun err) then 1 else 0))%nat) as Heofs.
  { rewrite eofs_merge. unfold a, b. by rewrite !eofs_pump. }
  assert (texts stdout (merge sched a b) = delivered out) as Hout.
  { rewrite texts_merge_l by (by apply texts_pump_other). apply texts_pump_same. }
  assert (texts stderr (merge sched a b) = delivered err) as Herr.
  { rewrite texts_merge_r by (by apply texts_pump_other). apply texts_pump_same. }
  cbv zeta.
  destruct (decide (eofs (merge sched a b) < 2)%nat) as [Hlt|Hge].
  - destruct (consume_short (merge sched a b) consumer0 Hdone) as (H1 & H2 & H3 & H4).
    { simpl. lia. }
    simpl in *. by rewrite H1, H2, H3, H4, Hout, Herr, Heofs.
  - assert (closes = true ∧ overrun out = false ∧ overrun err = false) as (-> & Ho & He).
    { rewrite Heofs in Hge. destruct closes, (overrun out), (overrun err); simpl in Hge;
        try lia; done. }
    destruct (consume_whole (merge sched a b) consumer0 Hdone) as (H1 & H2 & H3 & H4).
    { right. split.
      - simpl. rewrite Heofs, Ho, He. simpl. lia.
      - assert (is_Some (last (merge sched a b))) as [x Hx].
        { apply last_is_Some. intros Hnil. rewrite Hnil in Hge. simpl in Hge. lia. }
        rewrite Hx. apply last_merge in Hx as [Hx|Hx]; unfold a, b in Hx;
          rewrite last_pump in Hx by done; injection Hx as <-; eauto. }
    simpl in *. by rewrite H1, H2, H3, H4, Hout, Herr, Heofs.
Qed.

(** What the consumer holds of a child's queue. *)
Lemma consume_queue sched c :
  let k := consume (queue_of sched c) consumer0 in
  match c with
  | NotFound => k = consumer0
  | TimedOut out err =>
      stdout_chunks k = delivered out ∧ stderr_chunks k = delivered err
      ∧ stdout_texts (yielded k) = delivered out ∧ eof_count k = 0%nat
  | Exited _ out err =>
      stdout_chunks k = delivered out ∧ stderr_chunks k = delivered err
      ∧ stdout_texts (yielded k) = delivered out
      ∧ eof_count k = ((if overrun out then 0 else 1) + (if overrun err then 0 else 1))%nat
  end.
Proof.
  destruct c as [|out err|rc out err]; cbn [queue_of]; [done|..].
  - apply (consume_pumps sched out err false).
  - destruct (consume_pumps sched out err true) as (H1 & H2 & H3 & H4).
    cbv zeta in *. rewrite H1, H2, H3, H4. simpl.
    by destruct (overrun out), (overrun err).
Qed.

(** What the consumer holds once a child that exited was drained, no
    line being too long for the readers. *)
Lemma consume_exited sched returncode out err :
  overrun out = false → overrun err = false →
  let k := consume (queue_of sched (Exited returncode out err)) consumer0 in
  stdout_chunks k = Subprocess.readlines out
  ∧ stderr_chunks k = Subprocess.readlines err
  ∧ stdout_texts (yielded k) = Subprocess.readlines out
  ∧ eof_count k = 2%nat.
Proof.
  intros Ho He.
  pose proof (consume_queue sched (Exited returncode out err)) as H.
  cbv beta iota zeta in H. rewrite Ho, He, !delivered_all in H by done. exact H.
Qed.

End StreamFacts.

(* ===================================================================== *)
(** * ProcessRunner and StreamingProcessRunner *)
(* ===================================================================== *)

Section RunnerFacts.


Lemma timeout_value_same t : Z.max 1 (if t =? 0 then 1 else t) = Z.max 1 t.
Proof. destruct (Z.eqb_spec t 0); lia. Qed.


Lemma negb_eqb_false (a b : Z) : negb (a =? b) = false → a = b.
Proof. intros H%negb_false_iff. by apply Z.eqb_eq. Qed.

End RunnerFacts.

(** C7. When the source text is empty or made of whitespace only, each of
    the four runners fails with the input-validation error, having spawned
    nothing, yielded nothing and left the session slot as it was. *)
Theorem C7_blank_source_rejected_before_spawn
    (shlex_split : string → option (list string)) (settings : Settings)
    (os : list string → string → Z → child) (transcript : string) :
  PyStr.all_space transcript = true →
  (∀ now_lease now_touch uuid4 prompt timeout_sec st,
      Claude.run_claude shlex_split settings os now_lease now_touch uuid4
        transcript prompt timeout_sec st
      = (st, {| spawns := []; events := []; result := inl EmptySourceText |}))
  ∧ (∀ now_lease now_touch uuid4 sched io prompt timeout_sec st,
      Claude._stream_claude_cli_locked shlex_split settings os now_lease now_touch uuid4
        sched io transcript prompt timeout_sec st
      = (st, {| spawns := []; events := []; result := inl EmptySourceText |}))
  ∧ (∀ prompt timeout_sec,
      Codex.run_codex shlex_split settings os transcript prompt timeout_sec
      = {| spawns := []; events := []; result := inl EmptySourceText |})
  ∧ (∀ sched io prompt timeout_sec,
      Codex.stream_codex_cli shlex_split settings os sched io transcript prompt timeout_sec
      = {| spawns := []; events := []; result := inl EmptySourceText |}).
Proof.
  intros Hblank%strip_empty_iff.
  unfold Claude.run_claude, Claude._stream_claude_cli_locked,
    Codex.run_codex, Codex.stream_codex_cli.
  rewrite Hblank. simpl. done.
Qed.

Lemma C7_blank_source_witness :
  Codex.run_codex Fixtures.shlex_split Fixtures.settings
    (λ _ _ _, Exited 0 "never reached" EmptyString) "   " "summarize" 600
  = {| spawns := []; events := []; result := inl EmptySourceText |}.
Proof.
  apply (C7_blank_source_rejected_before_spawn Fixtures.shlex_split Fixtures.settings
           (λ _ _ _, Exited 0 "never reached" EmptyString) "   ").
  reflexivity.
Defined.

Section StreamRunnerFacts.
Import Stream.


End StreamRunnerFacts.









(* ===================================================================== *)
(** * SessionManager *)
(* ===================================================================== *)

Section SessionFacts.
Import SessionState Session.

Lemma initial_dated : dated initial.
Proof. intros H. by destruct H. Qed.

(** The slot stays dated as long as the clock reads positive times. *)
Lemma lease_dated cfg now uuid4 st :
  float_positive now = true → dated st → dated (_lease_session_id cfg now uuid4 st).1.
Proof.
  intros Hnow Hst. unfold _lease_session_id.
  destruct (_ || _ || _); simpl; [by intros _|done].
Qed.

Lemma touch_dated now session_id success st :
  float_positive now = true → dated st → dated (_touch_session now session_id success st).
Proof.
  intros Hnow Hst. unfold _touch_session.
  destruct (negb (PyStr.truthy session_id)); [done|].
  destruct (negb (String.eqb (id st) session_id)); [done|]. by intros _.
Qed.

Lemma reset_dated session_id st : dated st → dated (_reset_session session_id st).
Proof.
  intros Hst. unfold _reset_session.
  destruct (negb (PyStr.truthy session_id)); [done|].
  destruct (negb (String.eqb (id st) session_id)); [done|]. intros H. by destruct H.
Qed.

Lemma lease_id cfg now uuid4 st :
  id (_lease_session_id cfg now uuid4 st).1 = (_lease_session_id cfg now uuid4 st).2.1.
Proof. unfold _lease_session_id. by destruct (_ || _ || _). Qed.

Lemma lease_empty cfg now uuid4 st :
  id st = EmptyString →
  _lease_session_id cfg now uuid4 st
  = ({| id := uuid4; turns := 0; last_used := now |}, (uuid4, true)).
Proof. intros H. unfold _lease_session_id. by rewrite H. Qed.

Lemma touch_id now session_id success st :
  id (_touch_session now session_id success st) = id st.
Proof.
  unfold _touch_session.
  destruct (negb (PyStr.truthy session_id)); [done|].
  by destruct (negb (String.eqb (id st) session_id)).
Qed.

Lemma reset_own_id session_id st :
  id st = session_id → id (_reset_session session_id st) = EmptyString.
Proof.
  intros <-. unfold _reset_session.
  destruct (PyStr.truthy (id st)) eqn:E; simpl.
  - by rewrite String.eqb_refl.
  - by apply truthy_false in E.
Qed.

(** [touch]: a stale id changes nothing; a failure never counts a turn;
    a success counts exactly one. *)
Lemma touch_turns now session_id success st :
  turns (_touch_session now session_id success st)
  = if bool_decide (session_id ≠ EmptyString ∧ id st = session_id) && success
    then turns st + 1 else turns st.
Proof.
  unfold _touch_session. destruct (PyStr.truthy session_id) eqn:E; simpl.
  - apply truthy_true in E. destruct (String.eqb_spec (id st) session_id); simpl.
    + rewrite bool_decide_eq_true_2 by done. by destruct success.
    + rewrite bool_decide_eq_false_2 by tauto. done.
  - apply truthy_false in E. rewrite bool_decide_eq_false_2 by tauto. done.
Qed.

End SessionFacts.

(** C2.  [lease()] mints the fresh id (turn count 0, last use now,
    created) exactly when the slot holds no id, or the idle limit is on
    (not 0) and the time since last use has reached it, or the turn limit
    is on (not 0) and the turn count has reached it; otherwise it hands
    back the id the slot holds, created false, and leaves the slot as it
    is.  The time since last use is the one the lease measures: the
    difference [now - last_used] of the two clock readings in binary64
    arithmetic, compared exactly with the limit.  The limits are the
    configured ones as the lease reads them, a negative value counting as
    0; the slot is one reached under a clock that reads positive
    times. *)
Theorem C2_lease_mints_exactly_when_expired
    (cfg : Settings) (now : float) (uuid4 : string) (st : SessionState.t) :
  Session.dated st →
  let leased := Session._lease_session_id cfg now uuid4 st in
  let created := leased.2.2 in
  (created = true ↔
     SessionState.id st = EmptyString
     ∨ (0 < Session.idle_limit cfg
        ∧ Session.float_ge_int (PrimFloat.sub now (SessionState.last_used st))
            (Session.idle_limit cfg) = true)
     ∨ (0 < Session.turn_limit cfg
        ∧ Session.turn_limit cfg <= SessionState.turns st))
  ∧ (created = true →
     leased = ({| SessionState.id := uuid4; SessionState.turns := 0;
                  SessionState.last_used := now |}, (uuid4, true)))
  ∧ (created = false → leased = (st, (SessionState.id st, false))).
Proof.
  intros Hdated leased created. subst created leased.
  unfold Session._lease_session_id.
  assert (Session.idle_expired cfg now st = true ↔
          SessionState.id st ≠ EmptyString
          ∧ 0 < Session.idle_limit cfg
          ∧ Session.float_ge_int (PrimFloat.sub now (SessionState.last_used st))
              (Session.idle_limit cfg) = true)
    as Hidle.
  { unfold Session.idle_expired.
    rewrite !andb_true_iff, truthy_true, Z.ltb_lt.
    unfold Session.dated in Hdated. tauto. }
  assert (Session.turn_expired cfg st = true ↔
          SessionState.id st ≠ EmptyString
          ∧ 0 < Session.turn_limit cfg
          ∧ Session.turn_limit cfg <= SessionState.turns st) as Hturn.
  { unfold Session.turn_expired.
    rewrite !andb_true_iff, truthy_true, Z.ltb_lt, Z.leb_le. tauto. }
  destruct (negb (PyStr.truthy (SessionState.id st)) || Session.idle_expired cfg now st
            || Session.turn_expired cfg st) eqn:E; simpl.
  - split; [|split; [done|discriminate]].
    split; [intros _|done].
    apply orb_true_iff in E as [E|E]; [apply orb_true_iff in E as [E|E]|].
    + left. by apply negb_true_iff, truthy_false in E.
    + right; left. apply Hidle in E. tauto.
    + right; right. apply Hturn in E. tauto.
  - split; [|split; [discriminate|done]].
    split; [discriminate|]. intros H. exfalso.
    apply orb_false_iff in E as [E Et]. apply orb_false_iff in E as [Ei Eidle].
    apply negb_false_iff, truthy_true in Ei.
    destruct H as [H|[H|H]].
    + done.
    + assert (Session.idle_expired cfg now st = true) by (apply Hidle; tauto).
      congruence.
    + assert (Session.turn_expired cfg st = true) by (apply Hturn; tauto).
      congruence.
Qed.

(** The limit is 900 seconds.  A slot last used at 100 is renewed at
    1000 and kept at 999.  A slot last used at the reading nearest to 0.3
    is renewed at the reading nearest to 900.3: the two readings are
    less than 900 apart, and their difference in binary64 is 900. *)
Lemma C2_lease_witness :
  let st := {| SessionState.id := "s-1"; SessionState.turns := 3;
               SessionState.last_used := 100%float |} in
  let st' := {| SessionState.id := "s-1"; SessionState.turns := 3;
                SessionState.last_used := 0x1.3333333333333p-2%float |} in
  Session._lease_session_id Fixtures.settings 1000%float "s-2" st
  = ({| SessionState.id := "s-2"; SessionState.turns := 0;
        SessionState.last_used := 1000%float |}, ("s-2", true))
  ∧ Session._lease_session_id Fixtures.settings 999%float "s-2" st
    = (st, ("s-1", false))
  ∧ Session._lease_session_id Fixtures.settings 0x1.c226666666666p+9%float "s-2" st'
    = ({| SessionState.id := "s-2"; SessionState.turns := 0;
          SessionState.last_used := 0x1.c226666666666p+9%float |}, ("s-2", true)).
Proof.
  intros st st'. split; [|split].
  - apply (C2_lease_mints_exactly_when_expired Fixtures.settings 1000%float "s-2" st).
    + intros _. reflexivity.
    + reflexivity.
  - apply (C2_lease_mints_exactly_when_expired Fixtures.settings 999%float "s-2" st).
    + intros _. reflexivity.
    + reflexivity.
  - apply (C2_lease_mints_exactly_when_expired Fixtures.settings
             0x1.c226666666666p+9%float "s-2" st').
    + intros _. reflexivity.
    + reflexivity.
Defined.

Section SessionErrorFacts.
Import SessionState Session.

Lemma build_command_leases cfg now uuid4 base st :
  _session_reuse_supported cfg base = true →
  _build_command_with_session cfg now uuid4 base st
  = ((_lease_session_id cfg now uuid4 st).1,
     (base ++ ["--session-id"; (_lease_session_id cfg now uuid4 st).2.1],
      (_lease_session_id cfg now uuid4 st).2.1)).
Proof.
  intros H. unfold _build_command_with_session. rewrite H. simpl.
  by destruct (_lease_session_id cfg now uuid4 st) as [st1 [sid created]].
Qed.

(** After a failed call whose error text speaks of an unknown or invalid
    session, the slot the call had leased is empty. *)
Lemma failed_call_resets cfg now_lease now_touch uuid4 error_text st :
  session_error error_text = true →
  let leased := _lease_session_id cfg now_lease uuid4 st in
  id (_maybe_reset_session_from_error leased.2.1 error_text
        (_touch_session now_touch leased.2.1 false leased.1)) = EmptyString.
Proof.
  intros Herr leased. unfold _maybe_reset_session_from_error. rewrite Herr.
  apply reset_own_id. rewrite touch_id. apply lease_id.
Qed.

End SessionErrorFacts.

(** C3.  A call of the session-capable agent with a session attached,
    whose child exits with a code other than 0 and whose captured stderr
    names a session together with [not found] or [invalid], fails with the
    non-zero-exit error that carries this stderr (stripped), and leaves
    the session slot empty, so that the next [lease()] mints a new id. *)
Theorem C3_session_error_resets_slot
    (shlex_split : string → option (list string)) (settings : Settings)
    (os : list string → string → Z → child)
    (now_lease now_touch : float) (uuid4 transcript prompt : string) (timeout_sec : Z)
    (st : SessionState.t) (base : list string) (rc : Z) (out err : string) :
  PyStr.all_space transcript = false →
  Claude._resolve_command shlex_split settings = Some base →
  Session._session_reuse_supported settings base = true →
  os (base ++ ["--session-id"; (Session._lease_session_id settings now_lease uuid4 st).2.1])
     (_build_full_input (PyStr.strip transcript) (PyStr.strip prompt))
     (Z.max 1 timeout_sec)
  = Exited rc out err →
  rc ≠ 0 →
  Session.session_error (PyStr.strip (Subprocess.translate_newlines err)) = true →
  let call := Claude.run_claude shlex_split settings os now_lease now_touch uuid4
                transcript prompt timeout_sec st in
  result call.2
  = inl (NonZeroExit rc (PyStr.strip (Subprocess.translate_newlines err)))
  ∧ SessionState.id call.1 = EmptyString
  ∧ ∀ now' uuid4',
      Session._lease_session_id settings now' uuid4' call.1
      = ({| SessionState.id := uuid4'; SessionState.turns := 0;
            SessionState.last_used := now' |}, (uuid4', true)).
Proof.
  intros Htext Hbase Hreuse Hos Hrc Herr call.
  assert (call = (Session._maybe_reset_session_from_error
                    (Session._lease_session_id settings now_lease uuid4 st).2.1
                    (PyStr.strip (Subprocess.translate_newlines err))
                    (Session._touch_session now_touch
                       (Session._lease_session_id settings now_lease uuid4 st).2.1 false
                       (Session._lease_session_id settings now_lease uuid4 st).1),
                  failed [(base ++ ["--session-id";
                                    (Session._lease_session_id settings now_lease uuid4 st).2.1],
                           _build_full_input (PyStr.strip transcript) (PyStr.strip prompt))]
                    [] (NonZeroExit rc (PyStr.strip (Subprocess.translate_newlines err)))))
    as ->.
  { subst call. unfold Claude.run_claude.
    assert (PyStr.truthy (PyStr.strip transcript) = true) as ->.
    { apply truthy_true. intros H%strip_empty_iff. congruence. }
    rewrite Hbase, build_command_leases by done.
    cbn [negb]. rewrite timeout_value_same, Hos. cbn [Subprocess.run].
    apply Z.eqb_neq in Hrc. by rewrite Hrc. }
  cbn [fst snd]. split; [done|].
  assert (SessionState.id
            (Session._maybe_reset_session_from_error
               (Session._lease_session_id settings now_lease uuid4 st).2.1
               (PyStr.strip (Subprocess.translate_newlines err))
               (Session._touch_session now_touch
                  (Session._lease_session_id settings now_lease uuid4 st).2.1 false
                  (Session._lease_session_id settings now_lease uuid4 st).1))
          = EmptyString) as Hid by (by apply failed_call_resets).
  split; [done|]. intros now' uuid4'. by apply lease_empty.
Qed.

Lemma C3_session_error_witness :
  let call := Claude.run_claude Fixtures.shlex_split Fixtures.settings
                (λ _ _ _, Exited 2 EmptyString Fixtures.session_not_found)
                10%float 11%float "s-1" "notes" "summarize" 600 SessionState.initial in
  result call.2 = inl (NonZeroExit 2 "Error: Session not found")
  ∧ SessionState.id call.1 = EmptyString
  ∧ ∀ now' uuid4',
      Session._lease_session_id Fixtures.settings now' uuid4' call.1
      = ({| SessionState.id := uuid4'; SessionState.turns := 0;
            SessionState.last_used := now' |}, (uuid4', true)).
Proof.
  apply (C3_session_error_resets_slot Fixtures.shlex_split Fixtures.settings
           (λ _ _ _, Exited 2 EmptyString Fixtures.session_not_found)
           10%float 11%float "s-1" "notes" "summarize" 600 SessionState.initial
           ["claude"; "-p"] 2 EmptyString Fixtures.session_not_found).
  - reflexivity.
  - reflexivity.
  - reflexivity.
  - reflexivity.
  - discriminate.
  - reflexivity.
Defined.

(** The streaming runner does the same on its accumulated stderr, when
    the child took its input and wrote no line longer than the readers'
    limit. *)
Lemma stream_session_error_resets_slot
    (shlex_split : string → option (list string)) (settings : Settings)
    (os : list string → string → Z → child)
    (now_lease now_touch : float) (uuid4 : string) (sched : list bool) (io : Stream.io)
    (transcript prompt : string) (timeout_sec : option Z)
    (st : SessionState.t) (base : list string) (rc : Z) (out err : string) :
  PyStr.all_space transcript = false →
  Claude._resolve_command shlex_split settings = Some base →
  Session._session_reuse_supported settings base = true →
  os (base ++ ["--session-id"; (Session._lease_session_id settings now_lease uuid4 st).2.1])
     (_build_full_input (PyStr.strip transcript) (PyStr.strip prompt))
     (Z.max 1 (from_option (λ t, t) (claude_cli_timeout_sec settings) timeout_sec))
  = Exited rc out err →
  Stream.stdin io = Stream.Taken →
  Stream.overrun out = false → Stream.overrun err = false →
  rc ≠ 0 →
  Session.session_error (PyStr.strip err) = true →
  let call := Claude._stream_claude_cli_locked shlex_split settings os now_lease
                now_touch uuid4 sched io transcript prompt timeout_sec st in
  result call.2 = inl (NonZeroExit rc (PyStr.strip err))
  ∧ SessionState.id call.1 = EmptyString.
Proof.
  intros Htext Hbase Hreuse Hos Hin Hoo Hoe Hrc Herr call. subst call.
  unfold Claude._stream_claude_cli_locked.
  assert (PyStr.truthy (PyStr.strip transcript) = true) as ->.
  { apply truthy_true. intros H%strip_empty_iff. congruence. }
  rewrite Hbase, build_command_leases by done.
  cbn [negb]. rewrite Hos, Hin.
  destruct (consume_exited sched rc out err Hoo Hoe) as (_ & Hse & _ & He).
  cbv zeta in Hse, He. rewrite Hse, He, join_readlines. cbn [Nat.ltb Nat.leb].
  apply Z.eqb_neq in Hrc. rewrite Hrc. cbn [negb fst snd result failed].
  split; [done|]. by apply failed_call_resets.
Qed.

(* ===================================================================== *)
(** * IssueWriter *)
(* ===================================================================== *)

Section IssueWriterFacts.
Import IssueWriter.

Lemma span_spec p s a b :
  PyStr.span p s = (a, b) →
  s = a +:+ b
  ∧ Forall (λ c, p c = true) (String.list_ascii_of_string a)
  ∧ (∀ c t, b = String c t → p c = false).
Proof.
  revert a b. induction s as [|c s IH]; intros a b; simpl.
  - intros [= <- <-]. repeat split; [constructor|discriminate].
  - destruct (p c) eqn:Hc.
    + destruct (PyStr.span p s) as [a' b'] eqn:E. intros [= <- <-].
      destruct (IH a' b' eq_refl) as (-> & Ha & Hb).
      repeat split; [by constructor|done].
    + intros [= <- <-]. repeat split; [constructor|]. by intros c' t [= <- _].
Qed.

Lemma span_app p a c t :
  Forall (λ c, p c = true) (String.list_ascii_of_string a) → p c = false →
  PyStr.span p (a +:+ String c t) = (a, String c t).
Proof.
  intros Ha Hc. induction a as [|x a IH].
  - change (EmptyString +:+ String c t) with (String c t). simpl. by rewrite Hc.
  - inversion Ha as [|? ? Hx Ha']; subst.
    rewrite append_cons. simpl. by rewrite Hx, (IH Ha').
Qed.

(** [match_pattern] is the regular expression: a stem matches exactly
    when it reads prefix, separator, digits, underscore, with a prefix
    that is not empty and free of the separator, and at least one digit;
    group 1 is then the digits. *)
Lemma match_pattern_complete sep prefix digits rest :
  prefix ≠ EmptyString →
  Forall (λ c, c ≠ sep) (String.list_ascii_of_string prefix) →
  digits ≠ EmptyString →
  Forall (λ c, PyStr.isdigit c = true) (String.list_ascii_of_string digits) →
  match_pattern sep (prefix +:+ String sep (digits +:+ String underscore rest))
  = Some digits.
Proof.
  intros Hp Hpre Hd Hdig. unfold match_pattern.
  rewrite span_app.
  - destruct prefix; [done|]. rewrite span_app; [|done|done].
    destruct digits; [done|]. by rewrite Ascii.eqb_refl.
  - eapply Forall_impl; [exact Hpre|]. intros c Hc. simpl.
    apply negb_true_iff. by apply Ascii.eqb_neq.
  - by rewrite Ascii.eqb_refl.
Qed.

Lemma match_pattern_sound sep stem digits :
  match_pattern sep stem = Some digits →
  ∃ prefix rest,
    stem = prefix +:+ String sep (digits +:+ String underscore rest)
    ∧ prefix ≠ EmptyString
    ∧ Forall (λ c, c ≠ sep) (String.list_ascii_of_string prefix)
    ∧ digits ≠ EmptyString
    ∧ Forall (λ c, PyStr.isdigit c = true) (String.list_ascii_of_string digits).
Proof.
  unfold match_pattern.
  destruct (PyStr.span _ stem) as [prefix rest] eqn:E1.
  apply span_spec in E1 as (-> & Hpre & Hrest).
  destruct prefix as [|p0 prefix]; [discriminate|].
  destruct rest as [|c rest1]; [discriminate|].
  specialize (Hrest c rest1 eq_refl). apply negb_false_iff, Ascii.eqb_eq in Hrest as ->.
  destruct (PyStr.span PyStr.isdigit rest1) as [ds rest2] eqn:E2.
  apply span_spec in E2 as (-> & Hds & _).
  destruct ds as [|d0 ds]; [discriminate|].
  destruct rest2 as [|u rest3]; [discriminate|].
  destruct (Ascii.eqb_spec u underscore) as [->|]; [|discriminate].
  intros [= <-]. exists (String p0 prefix), rest3.
  repeat split; try done.
  eapply Forall_impl; [exact Hpre|]. intros c Hc. simpl in Hc.
  apply negb_true_iff in Hc. by apply Ascii.eqb_neq.
Qed.

(** The loop keeps the largest successor seen so far. *)
Lemma next_number_fold existing a :
  fold_left
    (λ next_num stem,
       match _extract_issue_index stem with
       | Some index => N.max next_num (index + 1)
       | None => next_num
       end) existing a
  = N.max a (foldr (λ i acc, N.max (i + 1) acc) 0%N (omap _extract_issue_index existing)).
Proof.
  revert a. induction existing as [|stem l IH]; intros a; simpl.
  - lia.
  - rewrite IH.
    change (omap _extract_issue_index (stem :: l))
      with (match _extract_issue_index stem with
            | Some index => index :: omap _extract_issue_index l
            | None => omap _extract_issue_index l
            end).
    destruct (_extract_issue_index stem); cbn [foldr];
      [by rewrite <- N.max_assoc|done].
Qed.

Lemma successors_max found :
  N.max 1 (foldr (λ i acc, N.max (i + 1) acc) 0%N found) = max_found_plus_one found.
Proof.
  destruct found as [|i found]; [done|]. unfold max_found_plus_one.
  assert (∀ l, foldr (λ i acc, N.max (i + 1) acc) 0%N l
               = match l with [] => 0%N | _ => (foldr N.max 0 l + 1)%N end) as H.
  { induction l as [|j l IHl]; [done|]. simpl. rewrite IHl. destruct l; simpl; lia. }
  rewrite H. lia.
Qed.

Lemma max_found_plus_one_perm found found' :
  found ≡ₚ found' → max_found_plus_one found = max_found_plus_one found'.
Proof.
  intros Hp. unfold max_found_plus_one.
  destruct found as [|i l], found' as [|i' l']; try done.
  - by apply Permutation_nil_cons in Hp.
  - symmetry in Hp. by apply Permutation_nil_cons in Hp.
  - f_equal. apply (foldr_permutation (=) N.max 0%N); [|done].
    intros j1 a1 j2 a2 b _. lia.
Qed.

Lemma next_number_spec existing :
  next_number existing = max_found_plus_one (omap _extract_issue_index existing).
Proof. unfold next_number. by rewrite next_number_fold, successors_max. Qed.

End IssueWriterFacts.

(** C4.  The sequence number a save chooses is one more than the largest
    sequence number that [_extract_issue_index] finds in the stems of the
    [.md] files the issue folder holds, and 1 when it finds none; the file
    is named folder token, number on three digits, title token.  A folder
    that holds [team_003_old.md] and [team_007_alpha.md], for a source
    under [team] whose output is headed [Beta], yields
    [team_008_Beta.md]. *)
Theorem C4_sequence_number_is_max_plus_one :
  (∀ existing,
      IssueWriter.next_number existing
      = IssueWriter.max_found_plus_one
          (omap IssueWriter._extract_issue_index existing))
  ∧ (∀ issue_folder ls vault source_path source_abs ai_output,
      let saved := IssueWriter._save_ai_output issue_folder ls vault source_path
                     source_abs ai_output in
      let stems :=
        PyPath.stem <$> filter (λ n, Is_true (PyStr.endswith n ".md"))
                          (ls (IssueWriter.dir saved)) in
      let account :=
        match PyPath.parts source_path with first :: _ :: _ => first | _ => EmptyString end in
      let source_stem := PyPath.stem (PyPath.name source_abs) in
      IssueWriter.name saved
      = IssueWriter._sanitize_filename_token
          (PyStr.or_else account
             (PyStr.or_else (IssueWriter.issue_dir_name vault (IssueWriter.dir saved)) "issue"))
          "issue"
        +:+ "_"
        +:+ PyStr.format_03d
              (IssueWriter.max_found_plus_one
                 (omap IssueWriter._extract_issue_index stems))
        +:+ "_"
        +:+ IssueWriter._sanitize_filename_token
              (IssueWriter._extract_title_from_ai_output ai_output source_stem)
              (PyStr.or_else source_stem "untitled")
        +:+ ".md")
  ∧ IssueWriter.name
      (IssueWriter._save_ai_output "issue"
         (λ _, ["team_003_old.md"; "team_007_alpha.md"])
         "/vault" "team/standup.md" "/vault/team/standup.md" Fixtures.beta_note)
    = "team_008_Beta.md".
Proof.
  split; [apply next_number_spec|]. split; [|by vm_compute].
  intros issue_folder ls vault source_path source_abs ai_output saved stems account
    source_stem.
  subst saved stems account source_stem.
  unfold IssueWriter._save_ai_output. cbn [IssueWriter.name IssueWriter.dir].
  rewrite next_number_spec. unfold IssueWriter.existing_stems.
  do 4 f_equal.
  apply max_found_plus_one_perm. apply omap_Permutation, merge_sort_Permutation.
Qed.

(* ===================================================================== *)
(** * AutoWatchLoop *)
(* ===================================================================== *)

Section AutoWatchFacts.
Import AutoWatch.

(** The wait says yes when the size settled, or when the attempts ran
    out on a file that is still there. *)
Lemma settle_cases file attempts i last_size stable_count :
  settle file attempts i last_size stable_count
  = stable_within file attempts i last_size stable_count
    || still_there file attempts i.
Proof.
  revert i last_size stable_count.
  induction attempts as [|n IH]; intros i last_size stable_count;
    cbn [settle stable_within still_there].
  - done.
  - destruct (file i) as [size|].
    + rewrite bool_decide_eq_true_2 by eauto. cbn [andb].
      destruct (Z.of_N size =? last_size).
      * destruct (AUTO_WATCH_SETTLE_ATTEMPTS <=? S stable_count)%nat; [done|].
        apply IH.
      * apply IH.
    + rewrite bool_decide_eq_false_2 by (by intros [? ?]). done.
Qed.

Lemma handler_keeps_switch lookup_file summarize now_iso file_path st :
  enabled (_handle_auto_watch_file lookup_file summarize now_iso file_path st).1
  = enabled st
  ∧ known_files (_handle_auto_watch_file lookup_file summarize now_iso file_path st).1
    = known_files st.
Proof.
  unfold _handle_auto_watch_file.
  destruct (lookup_file file_path) as [file|]; [|done].
  destruct (negb _); [done|]. destruct (negb _); [done|].
  by destruct (summarize file_path).
Qed.

Lemma new_files_perm current known :
  new_files current known ≡ₚ elements (current ∖ known).
Proof. apply merge_sort_Permutation. Qed.

Lemma elem_of_new_files current known p :
  p ∈ new_files current known ↔ p ∈ current ∧ p ∉ known.
Proof. rewrite new_files_perm, elem_of_elements. set_solver. Qed.





(** A tick on an unchanged root: the diff, the new baseline, the batch. *)
Lemma tick_same_root lookup_file summarize now_iso others vault_text current st :
  enabled st = true →
  vault_path st = vault_text →
  tick lookup_file summarize now_iso others vault_text true current st
  = ((process_batch lookup_file summarize now_iso others
        (new_files current (known_files st))
        (set_known_files current (set_vault_path vault_text st))).1,
     new_files current (known_files st),
     (process_batch lookup_file summarize now_iso others
        (new_files current (known_files st))
        (set_known_files current (set_vault_path vault_text st))).2).
Proof.
  intros Hen Hroot. unfold tick. rewrite Hen, Hroot, String.eqb_refl.
  cbn [negb]. by destruct (process_batch _ _ _ _ _ _).
Qed.

End AutoWatchFacts.

(** C5, as stated, fails: a file whose size changes at every sample never
    shows the identical samples the wait asks for, yet the wait ends with
    [file_abs.exists()], which holds, and the file is summarized, saved
    and counted. *)
Lemma C5_unsettled_file_is_summarized :
  AutoWatch.stable_within (λ i, Fixtures.growing_file (S i))
    (AutoWatch.AUTO_WATCH_SETTLE_ATTEMPTS * 3) 0 (-1) 0 = false
  ∧ AutoWatch._handle_auto_watch_file (λ _, Some Fixtures.growing_file)
      (λ _, inr "team/Issues/team_001_draft.md") "2026-02-02T10:00:00"
      "team/draft.md" Fixtures.watching
    = (AutoWatch.record_processed "2026-02-02T10:00:00" "team/draft.md"
         "team/Issues/team_001_draft.md" Fixtures.watching,
       AutoWatch.Processed "team/Issues/team_001_draft.md").
Proof. split; reflexivity. Qed.

(** C5, amended.  For a candidate that exists and whose size never shows
    the required run of identical samples within the attempts, the wait
    goes through all its attempts and then answers whether the file is
    still there: if it was there at every sample and at the closing check,
    the file is summarized like a settled one (saved and counted, or the
    error of the summarizer raised); if it disappeared meanwhile, the
    handler returns silently, nothing summarized and the state as it
    was. *)
Theorem C5_unsettled_file_follows_presence
    (lookup_file : string → option (nat → option N))
    (summarize : string → string + string) (now_iso file_path : string)
    (st : AutoWatch.WatchState) (file : nat → option N) :
  lookup_file file_path = Some file →
  is_Some (file 0%nat) →
  AutoWatch.stable_within (λ i, file (S i))
    (AutoWatch.AUTO_WATCH_SETTLE_ATTEMPTS * 3) 0 (-1) 0 = false →
  AutoWatch._handle_auto_watch_file lookup_file summarize now_iso file_path st
  = if AutoWatch.still_there (λ i, file (S i))
         (AutoWatch.AUTO_WATCH_SETTLE_ATTEMPTS * 3) 0
    then match summarize file_path with
         | inl message => (st, AutoWatch.Raised message)
         | inr saved_path =>
             (AutoWatch.record_processed now_iso file_path saved_path st,
              AutoWatch.Processed saved_path)
         end
    else (st, AutoWatch.Skipped).
Proof.
  intros Hlookup Hthere Hunstable.
  unfold AutoWatch._handle_auto_watch_file, AutoWatch._wait_for_stable_file.
  rewrite Hlookup, bool_decide_eq_true_2 by done.
  rewrite settle_cases, Hunstable. cbn [negb orb].
  by destruct (AutoWatch.still_there _ _ _).
Qed.

Lemma C5_unsettled_file_witness :
  AutoWatch._handle_auto_watch_file (λ _, Some Fixtures.growing_file)
    (λ _, inr "team/Issues/team_001_draft.md") "2026-02-02T10:00:00"
    "team/draft.md" Fixtures.watching
  = (AutoWatch.record_processed "2026-02-02T10:00:00" "team/draft.md"
       "team/Issues/team_001_draft.md" Fixtures.watching,
     AutoWatch.Processed "team/Issues/team_001_draft.md").
Proof.
  apply (C5_unsettled_file_follows_presence (λ _, Some Fixtures.growing_file)
           (λ _, inr "team/Issues/team_001_draft.md") "2026-02-02T10:00:00"
           "team/draft.md" Fixtures.watching Fixtures.growing_file).
  - reflexivity.
  - by eexists.
  - reflexivity.
Defined.



(* ===================================================================== *)
(** * The execution lock *)
(* ===================================================================== *)

Section ExecLockFacts.
Import ExecLock.

Context (claude_command codex_command : list string).








End ExecLockFacts.



(* ===================================================================== *)
(** * Further properties of the session slot *)
(* ===================================================================== *)

Section SessionSlotFacts.
Import SessionState Session.

Lemma touch_own now sid success st :
  sid ≠ EmptyString → id st = sid →
  _touch_session now sid success st
  = {| id := sid; turns := (if success then turns st + 1 else turns st);
       last_used := now |}.
Proof.
  intros Hne <-. unfold _touch_session.
  apply truthy_true in Hne. by rewrite Hne, String.eqb_refl.
Qed.

Lemma reset_own sid st :
  sid ≠ EmptyString → id st = sid → _reset_session sid st = initial.
Proof.
  intros Hne <-. unfold _reset_session.
  apply truthy_true in Hne. by rewrite Hne, String.eqb_refl.
Qed.

Lemma lease_id_nonempty cfg now uuid4 st :
  uuid4 ≠ EmptyString → (_lease_session_id cfg now uuid4 st).2.1 ≠ EmptyString.
Proof.
  intros Hne. unfold _lease_session_id.
  destruct (PyStr.truthy (id st)) eqn:E; simpl; [|done].
  destruct (_ || _); simpl; [done|]. by apply truthy_true.
Qed.

Lemma sound_lease cfg now uuid4 st :
  Session.float_positive now = true → sound st → sound (_lease_session_id cfg now uuid4 st).1.
Proof.
  intros Hnow [Hd Ht]. split; [by apply lease_dated|].
  unfold _lease_session_id. by destruct (_ || _ || _).
Qed.

Lemma sound_touch now sid success st :
  Session.float_positive now = true → sound st → sound (_touch_session now sid success st).
Proof.
  intros Hnow [Hd Ht]. split; [by apply touch_dated|].
  rewrite touch_turns. destruct (_ && _); lia.
Qed.

Lemma sound_reset sid st : sound st → sound (_reset_session sid st).
Proof.
  intros [Hd Ht]. split; [by apply reset_dated|].
  unfold _reset_session. destruct (negb _); [done|]. by destruct (negb _).
Qed.

Lemma sound_maybe_reset sid text st :
  sound st → sound (_maybe_reset_session_from_error sid text st).
Proof.
  intros H. unfold _maybe_reset_session_from_error.
  destruct (session_error text); [by apply sound_reset|done].
Qed.

Lemma sound_build cfg now uuid4 base st :
  Session.float_positive now = true → sound st → sound (_build_command_with_session cfg now uuid4 base st).1.
Proof.
  intros Hnow H. unfold _build_command_with_session.
  destruct (negb _); [done|].
  pose proof (sound_lease cfg now uuid4 st Hnow H) as Hl.
  by destruct (_lease_session_id cfg now uuid4 st) as [st1 [sid created]].
Qed.

Lemma has_session_flags_attached base sid :
  base ≠ [] → _command_has_session_flags (base ++ ["--session-id"; sid]) = true.
Proof.
  destruct base as [|bin args]; [done|]. intros _.
  unfold _command_has_session_flags. simpl tail.
  rewrite existsb_app. simpl. by rewrite orb_true_r.
Qed.

End SessionSlotFacts.

(** X1.  A call of the session-capable agent that attaches a session
    counts a turn on the slot exactly when it succeeds: after a success
    the slot holds the leased id with one turn more and the time of the
    bookkeeping; after any failure it holds the leased id with the turn
    count as leased, or it has been emptied. *)
Theorem run_claude_counts_a_turn_exactly_on_success
    (shlex_split : string → option (list string)) (settings : Settings)
    (os : list string → string → Z → child)
    (now_lease now_touch : float) (uuid4 transcript prompt : string) (timeout_sec : Z)
    (st : SessionState.t) (base : list string) :
  PyStr.all_space transcript = false →
  Claude._resolve_command shlex_split settings = Some base →
  Session._session_reuse_supported settings base = true →
  uuid4 ≠ EmptyString →
  let leased := (Session._lease_session_id settings now_lease uuid4 st).1 in
  let call := Claude.run_claude shlex_split settings os now_lease now_touch uuid4
                transcript prompt timeout_sec st in
  match result call.2 with
  | inr _ =>
      call.1 = {| SessionState.id := SessionState.id leased;
                  SessionState.turns := SessionState.turns leased + 1;
                  SessionState.last_used := now_touch |}
  | inl _ =>
      call.1 = {| SessionState.id := SessionState.id leased;
                  SessionState.turns := SessionState.turns leased;
                  SessionState.last_used := now_touch |}
      ∨ call.1 = SessionState.initial
  end.
Proof.
  intros Htext Hbase Hreuse Huuid leased call. subst call.
  unfold Claude.run_claude.
  assert (PyStr.truthy (PyStr.strip transcript) = true) as ->.
  { apply truthy_true. intros H%strip_empty_iff. congruence. }
  rewrite Hbase, build_command_leases by done. cbn [negb].
  pose proof (lease_id settings now_lease uuid4 st) as Hid.
  pose proof (lease_id_nonempty settings now_lease uuid4 st Huuid) as Hne.
  fold leased in Hid.
  set (sid := (Session._lease_session_id settings now_lease uuid4 st).2.1) in *.
  assert (∀ success,
            Session._touch_session now_touch sid success leased
            = {| SessionState.id := SessionState.id leased;
                 SessionState.turns :=
                   (if success then SessionState.turns leased + 1
                    else SessionState.turns leased);
                 SessionState.last_used := now_touch |}) as Htouch.
  { intros success. rewrite (touch_own now_touch sid success leased) by done.
    by rewrite Hid. }
  destruct (Subprocess.run _) as [| |rc pout perr].
  - cbn [fst snd result failed]. left. apply Htouch.
  - cbn [fst snd result failed]. left. apply Htouch.
  - destruct (negb (rc =? 0)).
    + cbn [fst snd result failed]. rewrite Htouch.
      unfold Session._maybe_reset_session_from_error.
      destruct (Session.session_error _); [right|by left].
      apply reset_own; [done|]. by rewrite <- Hid.
    + destruct (negb (PyStr.truthy _)); cbn [fst snd result failed].
      * left. apply Htouch.
      * apply Htouch.
Qed.

Lemma run_claude_counts_a_turn_witness :
  (Claude.run_claude Fixtures.shlex_split Fixtures.settings
     (λ _ _ _, Exited 0 Fixtures.padded_summary EmptyString)
     10%float 11%float "s-1" "notes" "summarize" 600 SessionState.initial).1
  = {| SessionState.id := "s-1"; SessionState.turns := 1;
       SessionState.last_used := 11%float |}.
Proof.
  apply (run_claude_counts_a_turn_exactly_on_success Fixtures.shlex_split
           Fixtures.settings (λ _ _ _, Exited 0 Fixtures.padded_summary EmptyString)
           10%float 11%float "s-1" "notes" "summarize" 600 SessionState.initial
           ["claude"; "-p"]).
  - reflexivity.
  - reflexivity.
  - reflexivity.
  - discriminate.
Defined.

(** X2.  Whatever the child does, a call of either runner of the
    session-capable agent leaves the slot sound (an id only together with a
    positive time of last use, a turn count that is not negative), provided
    it found it so and the clock reads positive times. *)
Theorem claude_calls_keep_the_slot_sound
    (shlex_split : string → option (list string)) (settings : Settings)
    (os : list string → string → Z → child)
    (now_lease now_touch : float) (uuid4 : string) (sched : list bool) (io : Stream.io)
    (transcript prompt : string) (timeout_sec : Z) (st : SessionState.t) :
  Session.float_positive now_lease = true → Session.float_positive now_touch = true →
  sound st →
  sound (Claude.run_claude shlex_split settings os now_lease now_touch uuid4
           transcript prompt timeout_sec st).1
  ∧ sound (Claude._stream_claude_cli_locked shlex_split settings os now_lease
             now_touch uuid4 sched io transcript prompt (Some timeout_sec) st).1.
Proof.
  intros Hl Ht Hst. split.
  - unfold Claude.run_claude.
    destruct (negb (PyStr.truthy _)); [done|].
    destruct (Claude._resolve_command _ _) as [base|]; [|done].
    pose proof (sound_build settings now_lease uuid4 base st Hl Hst) as Hb.
    destruct (Session._build_command_with_session _ _ _ _ _) as [st1 [command sid]].
    cbn [fst] in Hb.
    destruct (Subprocess.run _) as [| |rc pout perr]; cbn [fst];
      [by apply sound_touch|by apply sound_touch|].
    destruct (negb (rc =? 0)); cbn [fst].
    + by apply sound_maybe_reset, sound_touch.
    + destruct (negb (PyStr.truthy _)); cbn [fst]; by apply sound_touch.
  - unfold Claude._stream_claude_cli_locked.
    destruct (negb (PyStr.truthy _)); [done|].
    destruct (Claude._resolve_command _ _) as [base|]; [|done].
    pose proof (sound_build settings now_lease uuid4 base st Hl Hst) as Hb.
    destruct (Session._build_command_with_session _ _ _ _ _) as [st1 [command sid]].
    cbn [fst] in Hb.
    destruct (os _ _ _) as [|out err|rc out err]; cbv beta iota.
    + by apply sound_touch.
    + destruct (Stream.stdin io); cbn [fst]; [by apply sound_touch|done..].
    + destruct (Stream.stdin io); cbv beta iota; cbn [fst]; [|done..].
      destruct (_ <? 2)%nat; [destruct (Stream.reaped io); [done|by apply sound_touch]|].
      destruct (negb (rc =? 0)); cbn [fst].
      * by apply sound_maybe_reset, sound_touch.
      * destruct (negb (PyStr.truthy _)); cbn [fst]; by apply sound_touch.
Qed.

Lemma claude_calls_keep_the_slot_sound_witness :
  sound (Claude.run_claude Fixtures.shlex_split Fixtures.settings
           (λ _ _ _, Exited 2 EmptyString Fixtures.session_not_found)
           10%float 11%float "s-1" "notes" "summarize" 600 SessionState.initial).1.
Proof.
  apply (claude_calls_keep_the_slot_sound Fixtures.shlex_split Fixtures.settings
           (λ _ _ _, Exited 2 EmptyString Fixtures.session_not_found)
           10%float 11%float "s-1" [] Fixtures.taken "notes" "summarize" 600
           SessionState.initial).
  - reflexivity.
  - reflexivity.
  - split; [apply initial_dated|simpl; lia].
Defined.

(** X3.  A command built by [_build_command_with_session] is never given
    a second session: building from it again returns it as it is, with no
    session id, and leaves the slot untouched. *)
Theorem built_command_is_not_extended_again
    (cfg : Settings) (now : float) (uuid4 : string) (base : list string)
    (st : SessionState.t) (now' : float) (uuid4' : string) (st' : SessionState.t) :
  let built := (Session._build_command_with_session cfg now uuid4 base st).2.1 in
  Session._build_command_with_session cfg now' uuid4' built st'
  = (st', (built, EmptyString)).
Proof.
  intros built.
  assert (Session._session_reuse_supported cfg built = false) as Hf.
  { subst built. unfold Session._build_command_with_session.
    destruct (Session._session_reuse_supported cfg base) eqn:Hs; cbn [negb].
    - destruct (Session._lease_session_id cfg now uuid4 st) as [st1 [sid created]].
      cbn [fst snd]. unfold Session._session_reuse_supported in *.
      destruct (negb (claude_cli_reuse_session cfg)); [done|].
      destruct base as [|bin args]; [done|].
      rewrite <- app_comm_cons.
      destruct (negb (String.eqb _ _)); [done|].
      rewrite app_comm_cons, has_session_flags_attached; done.
    - exact Hs. }
  unfold Session._build_command_with_session. by rewrite Hf.
Qed.
(* ===================================================================== *)
(** * Further properties of the runners *)
(* ===================================================================== *)

Section MoreStringFacts.
Import PyStr.

Lemma rstrip_by_idem p s : rstrip_by p (rstrip_by p s) = rstrip_by p s.
Proof.
  induction s as [|c s IH]; [done|]. simpl.
  destruct (rstrip_by p s) as [|d r] eqn:Hr.
  - destruct (p c) eqn:Hc; [done|]. simpl. by rewrite Hc.
  - change (rstrip_by p (String c (String d r)))
      with (match rstrip_by p (String d r) with
            | EmptyString => if p c then EmptyString else String c EmptyString
            | r' => String c r'
            end).
    by rewrite IH.
Qed.

Lemma lstrip_by_fixed p c t : p c = false → lstrip_by p (String c t) = String c t.
Proof. intros H. simpl. by rewrite H. Qed.

Lemma strip_by_idem p s : strip_by p (strip_by p s) = strip_by p s.
Proof.
  unfold strip_by.
  assert (lstrip_by p (rstrip_by p (lstrip_by p s)) = rstrip_by p (lstrip_by p s)) as ->.
  { destruct (lstrip_by p s) as [|a r] eqn:Hl; [done|].
    pose proof (lstrip_by_head _ _ _ _ Hl) as Ha.
    destruct (rstrip_by p (String a r)) as [|a' r'] eqn:Hr; [done|].
    apply rstrip_by_head in Hr as ->. by apply lstrip_by_fixed. }
  apply rstrip_by_idem.
Qed.

Lemma strip_idem s : strip (strip s) = strip s.
Proof. apply strip_by_idem. Qed.

End MoreStringFacts.

Section MoreStreamFacts.
Import Stream.

Lemma consume_nil k : consume [] k = k.
Proof. cbn [consume]. by destruct (2 <=? eof_count k)%nat. Qed.

(** A pump queues chunks and end-of-file markers only, so the consumer
    yields chunks only. *)
Lemma yielded_chunks q k :
  (∀ r, done r ∉ q) →
  forallb is_chunk (yielded k) = true →
  forallb is_chunk (yielded (consume q k)) = true.
Proof.
  revert k. induction q as [|ev q IH]; intros k Hdone Hk.
  - by rewrite consume_nil.
  - cbn [consume]. destruct (2 <=? eof_count k)%nat; [done|].
    apply IH.
    + intros r Hr. apply (Hdone r). by right.
    + destruct ev as [[] t| |r]; simpl; rewrite ?forallb_app, ?Hk; try done.
      exfalso. apply (Hdone r). by left.
Qed.

(** On a queue that ends with the second marker, the chunks of each
    channel are yielded in the order of the queue. *)
Lemma consume_whole_yielded ch q k :
  (∀ r, done r ∉ q) →
  (q = [] ∨ ((eofs q + eof_count k ≤ 2)%nat ∧ ∃ ch', last q = Some (eof ch'))) →
  texts ch (yielded (consume q k)) = texts ch (yielded k) ++ texts ch q.
Proof.
  revert k. induction q as [|ev q IH]; intros k Hdone Hq.
  - rewrite consume_nil. simpl. by rewrite app_nil_r.
  - destruct Hq as [|[Hn [ch' Hlast]]]; [done|].
    assert (eof_count k < 2)%nat as Hlt.
    { apply last_eof_eofs in Hlast. lia. }
    rewrite consume_cons by done. rewrite IH.
    + rewrite (texts_cons ch ev q), app_assoc. f_equal.
      destruct ev as [[] t| |r]; simpl yielded; rewrite ?texts_app;
        simpl; by rewrite ?app_nil_r.
    + intros r Hr. apply (Hdone r). by right.
    + destruct q as [|ev' q']; [by left|right]. split.
      * rewrite eof_count_consume1. rewrite (eofs_cons ev) in Hn. lia.
      * exists ch'. by rewrite last_cons_cons in Hlast.
Qed.

Lemma queue_no_done sched c r : done r ∉ queue_of sched c.
Proof.
  destruct c as [|out err|rc out err]; simpl.
  - apply not_elem_of_nil.
  - intros [H|H]%elem_of_merge; by apply pump_no_done in H.
  - intros [H|H]%elem_of_merge; by apply pump_no_done in H.
Qed.

(** The same holds on a queue with fewer markers than the loop waits
    for, which the consumer reads to its end. *)
Lemma consume_short_yielded ch q k :
  (∀ r, done r ∉ q) →
  (eofs q + eof_count k < 2)%nat →
  texts ch (yielded (consume q k)) = texts ch (yielded k) ++ texts ch q.
Proof.
  revert k. induction q as [|ev q IH]; intros k Hdone Hn.
  - rewrite consume_nil. simpl. by rewrite app_nil_r.
  - rewrite (eofs_cons ev) in Hn.
    rewrite consume_cons by lia. rewrite IH.
    + rewrite (texts_cons ch ev q), app_assoc. f_equal.
      destruct ev as [[] t| |r]; simpl yielded; rewrite ?texts_app;
        simpl; by rewrite ?app_nil_r.
    + intros r Hr. apply (Hdone r). by right.
    + rewrite eof_count_consume1. lia.
Qed.

Lemma texts_queue ch sched c :
  texts ch (queue_of sched c) = delivered (written ch c).
Proof.
  destruct c as [|out err|rc out err]; [done|..]; simpl queue_of;
    destruct ch; simpl written.
  - rewrite texts_merge_l by (by apply texts_pump_other). apply texts_pump_same.
  - rewrite texts_merge_r by (by apply texts_pump_other). apply texts_pump_same.
  - rewrite texts_merge_l by (by apply texts_pump_other). apply texts_pump_same.
  - rewrite texts_merge_r by (by apply texts_pump_other). apply texts_pump_same.
Qed.

(** The queue of a child holds fewer than two markers, or ends with the
    second one. *)
Lemma queue_shape sched c :
  (eofs (queue_of sched c) < 2)%nat
  ∨ ((eofs (queue_of sched c) ≤ 2)%nat ∧ ∃ ch, last (queue_of sched c) = Some (eof ch)).
Proof.
  destruct c as [|out err|rc out err]; cbn [queue_of].
  - left. simpl. lia.
  - left. rewrite eofs_merge, !eofs_pump. simpl. lia.
  - set (a := _pump out stdout true). set (b := _pump err stderr true).
    assert (eofs (merge sched a b)
            = ((if overrun out then 0 else 1) + (if overrun err then 0 else 1))%nat)
      as Heofs.
    { rewrite eofs_merge. unfold a, b. rewrite !eofs_pump.
      by destruct (overrun out), (overrun err). }
    destruct (overrun out) eqn:Hoo; [left; rewrite Heofs; destruct (overrun err); simpl; lia|].
    destruct (overrun err) eqn:Hoe; [left; rewrite Heofs; simpl; lia|].
    right. split; [rewrite Heofs; simpl; lia|].
    assert (is_Some (last (merge sched a b))) as [x Hx].
    { apply last_is_Some. intros Hnil. rewrite Hnil in Heofs. discriminate. }
    rewrite Hx. apply last_merge in Hx as [Hx|Hx]; unfold a, b in Hx;
      rewrite last_pump in Hx by done; injection Hx as <-; eauto.
Qed.

(** Whatever the child did and in whatever order its two channels reached
    the queue, the consumer yields chunks only, and on each channel the
    lines the reader of that channel delivered, in order. *)
Lemma yielded_of_queue sched c :
  let k := consume (queue_of sched c) consumer0 in
  forallb is_chunk (yielded k) = true
  ∧ ∀ ch, texts ch (yielded k) = delivered (written ch c).
Proof.
  intros k. split.
  - apply yielded_chunks; [apply queue_no_done|done].
  - intros ch. rewrite <- (texts_queue ch sched c). subst k.
    destruct (queue_shape sched c) as [Hlt|[Hle Hlast]].
    + rewrite consume_short_yielded; [done|apply queue_no_done|simpl; lia].
    + rewrite consume_whole_yielded; [done|apply queue_no_done|].
      right. split; [simpl; lia|done].
Qed.


End MoreStreamFacts.

(** The ends of a streaming call once its command is known: the child
    that is not found, the write to its stdin, the consumer that is left
    waiting, the exit code, the text. *)
Local Ltac stream_cases os io :=
  destruct (os _ _ _) as [|out err|rc out err]; cbv beta iota;
  [
  | destruct (Stream.stdin io); cbv beta iota
  | destruct (Stream.stdin io); cbv beta iota;
    [ destruct (_ <? 2)%nat;
      [ destruct (Stream.reaped io)
      | destruct (negb (rc =? 0)) eqn:Hrc;
        [|destruct (negb (PyStr.truthy _)) eqn:Hout] ]
    | | ] ].

Section RunnerShapeFacts.

Lemma well_formed_nonzero rc text :
  negb (rc =? 0) = true → well_formed (inl (NonZeroExit rc (PyStr.strip text))).
Proof.
  intros H%negb_true_iff%Z.eqb_neq. split; [done|apply strip_idem].
Qed.

Lemma well_formed_output text :
  negb (PyStr.truthy (PyStr.strip text)) = false → well_formed (inr (PyStr.strip text)).
Proof.
  intros H%negb_false_iff%truthy_true. split; [done|apply strip_idem].
Qed.

End RunnerShapeFacts.

(** X5.  What a result of a runner carries is well formed: a reported time
    budget is at least one second, whatever budget was asked for; a
    reported exit code is not 0 and its error text is stripped; a returned
    answer is not empty and is stripped. *)
Theorem runner_results_are_well_formed
    (shlex_split : string → option (list string)) (settings : Settings)
    (os : list string → string → Z → child) (transcript prompt : string) :
  (∀ now_lease now_touch uuid4 timeout_sec st,
      well_formed (result (Claude.run_claude shlex_split settings os now_lease
                             now_touch uuid4 transcript prompt timeout_sec st).2))
  ∧ (∀ now_lease now_touch uuid4 sched io timeout_sec st,
      well_formed (result (Claude._stream_claude_cli_locked shlex_split settings os
                             now_lease now_touch uuid4 sched io transcript prompt
                             timeout_sec st).2))
  ∧ (∀ timeout_sec,
      well_formed (result (Codex.run_codex shlex_split settings os
                             transcript prompt timeout_sec)))
  ∧ (∀ sched io timeout_sec,
      well_formed (result (Codex.stream_codex_cli shlex_split settings os sched io
                             transcript prompt timeout_sec))).
Proof.
  split; [|split; [|split]].
  - intros nl nt uuid4 timeout_sec st. unfold Claude.run_claude.
    destruct (negb (PyStr.truthy _)); [done|].
    destruct (Claude._resolve_command _ _) as [base|]; [|done].
    destruct (Session._build_command_with_session _ _ _ _ _) as [st1 [command sid]].
    destruct (Subprocess.run _) as [| |rc pout perr]; cbn [snd result failed];
      [done|simpl; lia|].
    destruct (negb (rc =? 0)) eqn:Hrc; cbn [snd result failed];
      [by apply well_formed_nonzero|].
    destruct (negb (PyStr.truthy _)) eqn:Hout; cbn [snd result failed];
      [done|by apply well_formed_output].
  - intros nl nt uuid4 sched io timeout_sec st. unfold Claude._stream_claude_cli_locked.
    destruct (negb (PyStr.truthy _)); [done|].
    destruct (Claude._resolve_command _ _) as [base|]; [|done].
    destruct (Session._build_command_with_session _ _ _ _ _) as [st1 [command sid]].
    stream_cases os io; cbn [snd result failed]; try done; try (simpl; lia);
      [by apply well_formed_nonzero|by apply well_formed_output].
  - intros timeout_sec. unfold Codex.run_codex.
    destruct (negb (PyStr.truthy _)); [done|].
    destruct (Codex._resolve_command _ _) as [command|]; [|done].
    destruct (Subprocess.run _) as [| |rc pout perr]; cbn [result failed];
      [done|simpl; lia|].
    destruct (negb (rc =? 0)) eqn:Hrc; cbn [result failed];
      [by apply well_formed_nonzero|].
    destruct (negb (PyStr.truthy _)) eqn:Hout; cbn [result failed];
      [done|by apply well_formed_output].
  - intros sched io timeout_sec. unfold Codex.stream_codex_cli.
    destruct (negb (PyStr.truthy _)); [done|].
    destruct (Codex._resolve_command _ _) as [command|]; [|done].
    stream_cases os io; cbn [result failed]; try done; try (simpl; lia);
      [by apply well_formed_nonzero|by apply well_formed_output].
Qed.



(** X7.  A streaming call yields chunks only, followed by one [done]
    event exactly when it succeeds; the [done] event is the last one and
    carries the returned text.  End-of-file markers are never yielded. *)
Theorem streams_end_with_done_exactly_on_success
    (shlex_split : string → option (list string)) (settings : Settings)
    (os : list string → string → Z → child) (sched : list bool) (io : Stream.io)
    (transcript prompt : string) (timeout_sec : option Z) :
  let shaped (o : outcome) :=
    match result o with
    | inr r => ∃ evs, events o = evs ++ [done r] ∧ forallb is_chunk evs = true
    | inl _ => forallb is_chunk (events o) = true
    end in
  (∀ now_lease now_touch uuid4 st,
      shaped (Claude._stream_claude_cli_locked shlex_split settings os now_lease
                now_touch uuid4 sched io transcript prompt timeout_sec st).2)
  ∧ shaped (Codex.stream_codex_cli shlex_split settings os sched io
              transcript prompt timeout_sec).
Proof.
  intros shaped. subst shaped. cbv beta. split.
  - intros nl nt uuid4 st. unfold Claude._stream_claude_cli_locked.
    destruct (negb (PyStr.truthy _)); [done|].
    destruct (Claude._resolve_command _ _) as [base|]; [|done].
    destruct (Session._build_command_with_session _ _ _ _ _) as [st1 [command sid]].
    destruct (os _ _ _) as [|out err|rc out err] eqn:Hos; cbv beta iota; [done|..].
    + destruct (yielded_of_queue sched (TimedOut out err)) as [Hy _].
      cbv zeta in Hy.
      destruct (Stream.stdin io); cbn [snd result events failed]; done.
    + destruct (yielded_of_queue sched (Exited rc out err)) as [Hy _].
      cbv zeta in Hy.
      destruct (Stream.stdin io); cbv beta iota;
        [destruct (_ <? 2)%nat;
         [destruct (Stream.reaped io)
         |destruct (negb (rc =? 0)); [|destruct (negb (PyStr.truthy _))]]| |];
        cbn [snd result events failed]; eauto.
  - unfold Codex.stream_codex_cli.
    destruct (negb (PyStr.truthy _)); [done|].
    destruct (Codex._resolve_command _ _) as [command|]; [|done].
    destruct (os _ _ _) as [|out err|rc out err] eqn:Hos; cbv beta iota; [done|..].
    + destruct (yielded_of_queue sched (TimedOut out err)) as [Hy _].
      cbv zeta in Hy.
      destruct (Stream.stdin io); cbn [result events failed]; done.
    + destruct (yielded_of_queue sched (Exited rc out err)) as [Hy _].
      cbv zeta in Hy.
      destruct (Stream.stdin io); cbv beta iota;
        [destruct (_ <? 2)%nat;
         [destruct (Stream.reaped io)
         |destruct (negb (rc =? 0)); [|destruct (negb (PyStr.truthy _))]]| |];
        cbn [result events failed]; eauto.
Qed.

(* ===================================================================== *)
(** * Further properties of the issue writer *)
(* ===================================================================== *)

Section DigitFacts.
Import PyStr.

Lemma string_of_uint_digits d :
  Forall (λ c, isdigit c = true) (String.list_ascii_of_string (NilEmpty.string_of_uint d)).
Proof. induction d; simpl; constructor; done. Qed.

(** [int] reads back what the decimal printer wrote. *)
Lemma int_of_digits_string_of_uint d :
  int_of_digits (NilEmpty.string_of_uint d) = N.of_uint d.
Proof.
  unfold int_of_digits, N.of_uint.
  set (go := fix go (acc : N) (s : string) : N :=
         match s with
         | EmptyString => acc
         | String c t => go (10 * acc + (code c - 48))%N t
         end).
  assert (∀ l acc, go (N.pos acc) (NilEmpty.string_of_uint l)
                   = N.pos (Pos.of_uint_acc l acc)) as Hacc.
  { induction l as [|l IH|l IH|l IH|l IH|l IH|l IH|l IH|l IH|l IH|l IH]; intros acc;
      [done|..]; cbn [NilEmpty.string_of_uint Pos.of_uint_acc go]; rewrite <- IH;
      f_equal; vm_compute (code _ - 48)%N; lia. }
  induction d as [|l IH|l IH|l IH|l IH|l IH|l IH|l IH|l IH|l IH|l IH];
    [done|exact IH|..]; cbn [NilEmpty.string_of_uint Pos.of_uint go];
    rewrite <- Hacc; f_equal.
Qed.

Lemma format_03d_cases n :
  ∃ pad, format_03d n = pad +:+ NilEmpty.string_of_uint (N.to_uint n)
         ∧ (pad = EmptyString ∨ pad = "0" ∨ pad = "00" ∨ pad = "000").
Proof.
  unfold format_03d.
  destruct (NilEmpty.string_of_uint (N.to_uint n)) as [|a [|b [|c s]]]; simpl.
  - exists "000". auto.
  - exists "00". auto.
  - exists "0". auto.
  - exists EmptyString. auto.
Qed.

Lemma chars_app a b : String.list_ascii_of_string (a +:+ b) = String.list_ascii_of_string a ++ String.list_ascii_of_string b.
Proof. induction a as [|c a IH]; [done|]. rewrite append_cons. simpl. by rewrite IH. Qed.

Lemma format_03d_digits n :
  format_03d n ≠ EmptyString
  ∧ Forall (λ c, isdigit c = true) (String.list_ascii_of_string (format_03d n)).
Proof.
  split.
  - unfold format_03d.
    by destruct (NilEmpty.string_of_uint (N.to_uint n)) as [|a [|b [|c s]]].
  - destruct (format_03d_cases n) as (pad & -> & Hpad).
    rewrite chars_app. apply Forall_app. split; [|apply string_of_uint_digits].
    destruct Hpad as [->|[->|[->| ->]]]; by repeat constructor.
Qed.

(** The number printed on three digits reads back as itself. *)
Lemma int_of_format_03d n : int_of_digits (format_03d n) = n.
Proof.
  rewrite <- (DecimalN.Unsigned.of_to n) at 2.
  rewrite <- int_of_digits_string_of_uint.
  unfold format_03d.
  by destruct (NilEmpty.string_of_uint (N.to_uint n)) as [|a [|b [|c s]]].
Qed.

Lemma span_all p s :
  Forall (λ c, p c = true) (String.list_ascii_of_string s) → span p s = (s, EmptyString).
Proof.
  induction s as [|c s IH]; [done|]. intros H. inversion H as [|? ? Hc Hs]; subst.
  simpl. by rewrite Hc, (IH Hs).
Qed.

Lemma append_assoc a b c : (a +:+ b) +:+ c = a +:+ b +:+ c.
Proof. induction a as [|x a IH]; [done|]. by rewrite !append_cons, IH. Qed.

Lemma endswith_app a b : endswith (a +:+ b) b = true.
Proof.
  induction a as [|c a IH].
  - change (EmptyString +:+ b) with b.
    destruct b; cbn [endswith]; by rewrite String.eqb_refl.
  - rewrite append_cons. cbn [endswith]. by rewrite IH, orb_true_r.
Qed.

Lemma rsplit1_app sep a b :
  Forall (λ c, c ≠ sep) (String.list_ascii_of_string b) →
  rsplit1 sep (a +:+ String sep b) = Some (a, b).
Proof.
  intros Hb.
  assert (rsplit1 sep b = None) as Hnone.
  { induction b as [|c b IH]; [done|]. inversion Hb as [|? ? Hc Hb']; subst.
    simpl. rewrite (IH Hb'). by apply Ascii.eqb_neq in Hc as ->. }
  induction a as [|c a IH].
  - change (EmptyString +:+ String sep b) with (String sep b).
    simpl. by rewrite Hnone, Ascii.eqb_refl.
  - rewrite append_cons. simpl. by rewrite IH.
Qed.

Lemma stem_md s : s ≠ EmptyString → PyPath.stem (s +:+ ".md") = s.
Proof.
  intros Hs. unfold PyPath.stem.
  change (s +:+ ".md") with (s +:+ String "."%char "md").
  rewrite rsplit1_app by (repeat constructor; discriminate).
  by destruct s.
Qed.

Lemma length_take n s : (String.length (take n s) ≤ n)%nat.
Proof.
  revert s. induction n as [|n IH]; intros s; [simpl; lia|].
  destruct s as [|c s]; simpl; [lia|]. specialize (IH s). lia.
Qed.

Lemma take_nonempty n s : s ≠ EmptyString → take (S n) s ≠ EmptyString.
Proof. by destruct s. Qed.

End DigitFacts.

Section IssueNameFacts.
Import IssueWriter.

(** The name of a saved issue reads back with its number, when the folder
    token holds no underscore. *)
Lemma issue_index_of_name folder n title :
  folder ≠ EmptyString →
  Forall (λ c, c ≠ underscore) (String.list_ascii_of_string folder) →
  _extract_issue_index (folder +:+ "_" +:+ PyStr.format_03d n +:+ "_" +:+ title)
  = Some n.
Proof.
  intros Hf Hu. unfold _extract_issue_index.
  destruct (format_03d_digits n) as [Hne Hd].
  change (folder +:+ "_" +:+ PyStr.format_03d n +:+ "_" +:+ title)
    with (folder +:+ String underscore (PyStr.format_03d n +:+ String underscore title)).
  rewrite match_pattern_complete by done.
  by rewrite int_of_format_03d.
Qed.

Lemma max_found_plus_one_snoc found :
  max_found_plus_one (found ++ [max_found_plus_one found])
  = (max_found_plus_one found + 1)%N.
Proof.
  unfold max_found_plus_one at 1 3.
  destruct (found ++ [_]) as [|x l] eqn:E; [by destruct found|].
  rewrite <- E. clear E x l.
  assert (∀ l m, foldr N.max 0%N (l ++ [m]) = N.max (foldr N.max 0%N l) m) as H.
  { induction l as [|j l IH]; intros m; simpl; [lia|]. rewrite IH. lia. }
  rewrite H. unfold max_found_plus_one. destruct found; simpl; lia.
Qed.

Lemma existing_stems_snoc names x :
  PyStr.endswith x ".md" = true →
  existing_stems (names ++ [x]) ≡ₚ existing_stems names ++ [PyPath.stem x].
Proof.
  intros Hx. unfold existing_stems.
  rewrite !merge_sort_Permutation, filter_app, fmap_app.
  apply Permutation_app; [done|].
  rewrite filter_cons_True by (by rewrite Hx). done.
Qed.

End IssueNameFacts.

Section SavedNameFacts.
Import IssueWriter.

Lemma saved_name_stem folder digits title :
  PyPath.stem (folder +:+ "_" +:+ digits +:+ "_" +:+ title +:+ ".md")
  = folder +:+ "_" +:+ digits +:+ "_" +:+ title.
Proof.
  assert (folder +:+ "_" +:+ digits +:+ "_" +:+ title +:+ ".md"
          = (folder +:+ "_" +:+ digits +:+ "_" +:+ title) +:+ ".md") as ->.
  { by rewrite !append_assoc. }
  apply stem_md. destruct folder; [done|discriminate].
Qed.

Lemma saved_name_is_md folder digits title :
  PyStr.endswith (folder +:+ "_" +:+ digits +:+ "_" +:+ title +:+ ".md") ".md" = true.
Proof.
  assert (folder +:+ "_" +:+ digits +:+ "_" +:+ title +:+ ".md"
          = (folder +:+ "_" +:+ digits +:+ "_" +:+ title) +:+ ".md") as ->.
  { by rewrite !append_assoc. }
  apply endswith_app.
Qed.

(** A stem whose first underscore is followed by something else than a
    digit, and which holds no hyphen, carries no number. *)
Lemma issue_index_none a c rest :
  Forall (λ x, x ≠ underscore) (String.list_ascii_of_string a) →
  PyStr.isdigit c = false →
  Forall (λ x, x ≠ hyphen) (String.list_ascii_of_string (a +:+ "_" +:+ String c rest)) →
  _extract_issue_index (a +:+ "_" +:+ String c rest) = None.
Proof.
  intros Ha Hc Hh. unfold _extract_issue_index.
  assert (match_pattern hyphen (a +:+ "_" +:+ String c rest) = None) as ->.
  { unfold match_pattern. rewrite span_all; [by destruct (_ +:+ _)|].
    eapply Forall_impl; [exact Hh|]. intros x Hx. simpl.
    apply negb_true_iff. by apply Ascii.eqb_neq. }
  assert (match_pattern underscore (a +:+ "_" +:+ String c rest) = None) as ->; [|done].
  unfold match_pattern.
  change (a +:+ "_" +:+ String c rest) with (a +:+ String underscore (String c rest)).
  rewrite span_app.
  - destruct a; [done|]. simpl PyStr.span. by rewrite Hc.
  - eapply Forall_impl; [exact Ha|]. intros x Hx. simpl.
    apply negb_true_iff. by apply Ascii.eqb_neq.
  - by rewrite Ascii.eqb_refl.
Qed.

End SavedNameFacts.

(** X9.  The name a save gives to an issue is read back with its own
    sequence number by [_extract_issue_index], whatever the title, when
    the folder token is not empty and holds no underscore. *)
Theorem saved_name_reads_back_its_number (folder title : string) (n : N) :
  folder ≠ EmptyString →
  Forall (λ c, c ≠ IssueWriter.underscore) (String.list_ascii_of_string folder) →
  IssueWriter._extract_issue_index
    (PyPath.stem (folder +:+ "_" +:+ PyStr.format_03d n +:+ "_" +:+ title +:+ ".md"))
  = Some n.
Proof.
  intros Hf Hu. rewrite saved_name_stem. by apply issue_index_of_name.
Qed.

Lemma saved_name_reads_back_witness :
  IssueWriter._extract_issue_index (PyPath.stem "team_1204_Beta.md") = Some 1204%N.
Proof.
  apply (saved_name_reads_back_its_number "team" "Beta" 1204).
  - discriminate.
  - repeat constructor; discriminate.
Defined.

(** X10.  Saving into a folder advances its numbering: once the file a
    save has named is in the folder, the next save there takes the next
    number (folder token not empty and without underscore). *)
Theorem successive_saves_take_successive_numbers (names : list string)
    (folder title : string) :
  folder ≠ EmptyString →
  Forall (λ c, c ≠ IssueWriter.underscore) (String.list_ascii_of_string folder) →
  let n := IssueWriter.next_number (IssueWriter.existing_stems names) in
  let saved_name := folder +:+ "_" +:+ PyStr.format_03d n +:+ "_" +:+ title +:+ ".md" in
  IssueWriter.next_number (IssueWriter.existing_stems (names ++ [saved_name]))
  = (n + 1)%N.
Proof.
  intros Hf Hu n saved_name.
  rewrite next_number_spec.
  rewrite (max_found_plus_one_perm _
             (omap IssueWriter._extract_issue_index
                (IssueWriter.existing_stems names) ++ [n])).
  - subst n. rewrite next_number_spec. apply max_found_plus_one_snoc.
  - rewrite (omap_Permutation _ _ _
               (existing_stems_snoc names saved_name (saved_name_is_md _ _ _))).
    rewrite omap_app. subst saved_name. rewrite saved_name_stem.
    simpl. by rewrite issue_index_of_name.
Qed.

Lemma successive_saves_witness :
  IssueWriter.next_number
    (IssueWriter.existing_stems ["team_003_old.md"; "notes.txt"; "team_004_Beta.md"])
  = 5%N.
Proof.
  apply (successive_saves_take_successive_numbers ["team_003_old.md"; "notes.txt"]
           "team" "Beta").
  - discriminate.
  - repeat constructor; discriminate.
Defined.

(** X11.  A folder token that holds an underscore stalls the numbering:
    when the token reads [a_c...] with [c] not a digit, and the name holds
    no hyphen, the file a save has named is not counted, and the next
    save in the folder takes the same number again. *)
Theorem underscore_in_folder_token_stalls_the_numbering (names : list string)
    (a rest title : string) (c : ascii) (n : N) :
  Forall (λ x, x ≠ IssueWriter.underscore) (String.list_ascii_of_string a) →
  PyStr.isdigit c = false →
  let folder := a +:+ "_" +:+ String c rest in
  let saved_name := folder +:+ "_" +:+ PyStr.format_03d n +:+ "_" +:+ title +:+ ".md" in
  Forall (λ x, x ≠ IssueWriter.hyphen) (String.list_ascii_of_string saved_name) →
  IssueWriter._extract_issue_index (PyPath.stem saved_name) = None
  ∧ IssueWriter.next_number (IssueWriter.existing_stems (names ++ [saved_name]))
    = IssueWriter.next_number (IssueWriter.existing_stems names).
Proof.
  intros Ha Hc folder saved_name Hh.
  assert (IssueWriter._extract_issue_index (PyPath.stem saved_name) = None) as Hnone.
  { assert (saved_name
            = (a +:+ "_" +:+ String c (rest +:+ "_" +:+ PyStr.format_03d n +:+ "_" +:+ title))
              +:+ ".md") as Heq.
    { subst saved_name folder.
      repeat (rewrite !append_assoc || rewrite !append_cons). done. }
    rewrite Heq in Hh. rewrite chars_app in Hh. apply Forall_app in Hh as [Hh _].
    rewrite Heq, stem_md; [by apply issue_index_none|].
    destruct a; discriminate. }
  split; [done|].
  rewrite !next_number_spec.
  apply max_found_plus_one_perm.
  rewrite (omap_Permutation _ _ _
             (existing_stems_snoc names saved_name (saved_name_is_md _ _ _))).
  rewrite omap_app. simpl. rewrite Hnone. by rewrite app_nil_r.
Qed.

Lemma underscore_in_folder_token_witness :
  IssueWriter.next_number
    (IssueWriter.existing_stems ["my_team_001_old.md"; "my_team_001_Beta.md"])
  = IssueWriter.next_number (IssueWriter.existing_stems ["my_team_001_old.md"]).
Proof.
  apply (underscore_in_folder_token_stalls_the_numbering ["my_team_001_old.md"]
           "my" "eam" "Beta" "t"%char 1).
  - repeat constructor; discriminate.
  - reflexivity.
  - repeat constructor; discriminate.
Defined.

Section TokenFacts.
Import PyStr IssueWriter.

Lemma remove_chars p s :
  Forall (λ c, p c = false) (String.list_ascii_of_string (remove p s)).
Proof.
  induction s as [|c s IH]; simpl; [constructor|].
  destruct (p c) eqn:Hc; [done|]. simpl. by constructor.
Qed.

Lemma collapse_runs_chars (Q : ascii → Prop) p r in_run s :
  Q r →
  Forall (λ c, p c = false → Q c) (String.list_ascii_of_string s) →
  Forall Q (String.list_ascii_of_string (collapse_runs p r in_run s)).
Proof.
  intros Hr. revert in_run. induction s as [|c s IH]; intros in_run Hs; simpl;
    [constructor|].
  inversion Hs as [|? ? Hc Hs']; subst.
  destruct (p c) eqn:Hp; [destruct in_run|]; simpl; auto.
Qed.

Lemma lstrip_by_chars (Q : ascii → Prop) p s :
  Forall Q (String.list_ascii_of_string s) →
  Forall Q (String.list_ascii_of_string (lstrip_by p s)).
Proof.
  induction s as [|c s IH]; simpl; [done|]. intros Hs.
  destruct (p c); [|done]. inversion Hs; auto.
Qed.

Lemma rstrip_by_chars (Q : ascii → Prop) p s :
  Forall Q (String.list_ascii_of_string s) →
  Forall Q (String.list_ascii_of_string (rstrip_by p s)).
Proof.
  induction s as [|c s IH]; simpl; [done|]. intros Hs.
  inversion Hs as [|? ? Hc Hs']; subst. specialize (IH Hs').
  destruct (rstrip_by p s); [destruct (p c)|]; simpl; auto.
Qed.

Lemma strip_by_chars (Q : ascii → Prop) p s :
  Forall Q (String.list_ascii_of_string s) →
  Forall Q (String.list_ascii_of_string (strip_by p s)).
Proof. intros Hs. by apply rstrip_by_chars, lstrip_by_chars. Qed.

Lemma replace_char_chars (Q : ascii → Prop) a b s :
  Q b →
  Forall (λ c, c ≠ a → Q c) (String.list_ascii_of_string s) →
  Forall Q (String.list_ascii_of_string (replace_char a b s)).
Proof.
  intros Hb. induction s as [|c s IH]; simpl; [done|]. intros Hs.
  inversion Hs as [|? ? Hc Hs']; subst. constructor; [|auto].
  destruct (Ascii.eqb_spec c a); auto.
Qed.

Lemma take_chars (Q : ascii → Prop) n s :
  Forall Q (String.list_ascii_of_string s) →
  Forall Q (String.list_ascii_of_string (take n s)).
Proof.
  revert s. induction n as [|n IH]; intros s Hs; [by destruct s|].
  destruct s as [|c s]; simpl; [done|]. inversion Hs; subst. constructor; auto.
Qed.

Lemma frontmatter_title_truthy lines value :
  frontmatter_title lines = Some value → value ≠ EmptyString.
Proof.
  induction lines as [|line rest IH]; simpl; [done|].
  destruct (String.eqb _ _); [done|].
  destruct (truthy (title_field line)) eqn:E; [|exact IH].
  intros [= <-]. by apply truthy_true.
Qed.

Lemma first_heading_truthy lines value :
  first_heading lines = Some value → value ≠ EmptyString.
Proof.
  induction lines as [|line rest IH]; simpl; [done|].
  destruct (startswith _ _ && truthy _) eqn:E; [|exact IH].
  intros [= <-]. apply andb_true_iff in E as [_ E]. by apply truthy_true.
Qed.

(** The characters of a token come from the value, cleaned, or from the
    fallback. *)
Lemma sanitize_chars (Q : ascii → Prop) value fallback :
  (∀ c, is_illegal c = false → isspace c = false → Q c) →
  Forall Q (String.list_ascii_of_string fallback) →
  Forall Q (String.list_ascii_of_string (_sanitize_filename_token value fallback)).
Proof.
  intros HQ Hfb. unfold _sanitize_filename_token.
  set (raw := or_else (strip value) fallback).
  set (s2 := strip (collapse_runs isspace " " false (remove is_illegal raw))).
  set (s4 := strip_by _ _).
  assert (Forall Q (String.list_ascii_of_string s4)) as H4.
  { subst s4. apply strip_by_chars, collapse_runs_chars; [by apply HQ|].
    eapply Forall_impl; [|by intros c Hc _; exact Hc].
    apply replace_char_chars; [by apply HQ|].
    assert (Forall (λ c, is_illegal c = false ∧ (isspace c = false ∨ c = " "%char))
              (String.list_ascii_of_string s2)) as H2.
    { subst s2. apply strip_by_chars, collapse_runs_chars; [by split; [|right]|].
      eapply Forall_impl; [apply remove_chars|]. intros c Hc. simpl. auto. }
    eapply Forall_impl; [exact H2|]. intros c [Hi [Hs|Hs]] Hc; [by apply HQ|done]. }
  destruct (truthy s4) eqn:E.
  - assert (or_else s4 fallback = s4) as -> by (unfold or_else; by rewrite E).
    by apply take_chars.
  - assert (or_else s4 fallback = fallback) as -> by (unfold or_else; by rewrite E).
    by apply take_chars.
Qed.

Lemma sanitize_nonempty value fallback :
  fallback ≠ EmptyString → _sanitize_filename_token value fallback ≠ EmptyString.
Proof.
  intros Hne. unfold _sanitize_filename_token.
  set (s4 := strip_by _ _).
  destruct (truthy s4) eqn:E.
  - assert (or_else s4 fallback = s4) as -> by (unfold or_else; by rewrite E).
    apply take_nonempty. by apply truthy_true.
  - assert (or_else s4 fallback = fallback) as -> by (unfold or_else; by rewrite E).
    by apply take_nonempty.
Qed.

(** A token is made of what is left of the cleaned value, or is the
    fallback as it is, cut to 80 characters. *)
Lemma sanitize_cases (Q : ascii → Prop) value fallback :
  (∀ c, is_illegal c = false → isspace c = false → Q c) →
  Forall Q (String.list_ascii_of_string (_sanitize_filename_token value fallback))
  ∨ _sanitize_filename_token value fallback = take 80 fallback.
Proof.
  intros HQ. unfold _sanitize_filename_token.
  set (raw := or_else (strip value) fallback).
  set (s2 := strip (collapse_runs isspace " " false (remove is_illegal raw))).
  set (s4 := strip_by _ _).
  assert (Forall Q (String.list_ascii_of_string s4)) as H4.
  { subst s4. apply strip_by_chars, collapse_runs_chars; [by apply HQ|].
    eapply Forall_impl; [|by intros c Hc _; exact Hc].
    apply replace_char_chars; [by apply HQ|].
    assert (Forall (λ c, is_illegal c = false ∧ (isspace c = false ∨ c = " "%char))
              (String.list_ascii_of_string s2)) as H2.
    { subst s2. apply strip_by_chars, collapse_runs_chars; [by split; [|right]|].
      eapply Forall_impl; [apply remove_chars|]. intros c Hc. simpl. auto. }
    eapply Forall_impl; [exact H2|]. intros c [Hi [Hs|Hs]] Hc; [by apply HQ|done]. }
  destruct (truthy s4) eqn:E.
  - assert (or_else s4 fallback = s4) as -> by (unfold or_else; by rewrite E).
    left. by apply take_chars.
  - assert (or_else s4 fallback = fallback) as -> by (unfold or_else; by rewrite E).
    by right.
Qed.

End TokenFacts.

(** X12.  A file-name token is at most 80 characters long, whatever the
    value and the fallback it is made from.  It holds none of the
    characters a file name may not hold and no whitespace, unless it is
    the fallback itself cut to 80 characters, which is what the token is
    when nothing is left of the cleaned value: a fallback is cleaned only
    when it stands in for a blank value and something of it is left.  So
    a token is clean whenever its fallback is, and when the fallback is
    not empty, neither is the token. *)
Theorem sanitized_token_is_a_file_name_part (value fallback : string) :
  let clean (c : ascii) := IssueWriter.is_illegal c = false ∧ PyStr.isspace c = false in
  let token := IssueWriter._sanitize_filename_token value fallback in
  (String.length token ≤ 80)%nat
  ∧ (Forall clean (String.list_ascii_of_string token) ∨ token = PyStr.take 80 fallback)
  ∧ (Forall clean (String.list_ascii_of_string fallback) →
     Forall clean (String.list_ascii_of_string token))
  ∧ (fallback ≠ EmptyString → token ≠ EmptyString).
Proof.
  intros clean token. subst token. split; [apply length_take|].
  split; [by apply sanitize_cases|].
  split; [by apply sanitize_chars|]. apply sanitize_nonempty.
Qed.

Lemma sanitized_token_witness :
  Forall (λ c, IssueWriter.is_illegal c = false ∧ PyStr.isspace c = false)
    (String.list_ascii_of_string
       (IssueWriter._sanitize_filename_token "a/b: weekly  sync?" "issue"))
  ∧ IssueWriter._sanitize_filename_token "a/b: weekly  sync?" "issue" ≠ EmptyString
  ∧ IssueWriter._sanitize_filename_token "..." "weekly sync" = "weekly sync".
Proof.
  destruct (sanitized_token_is_a_file_name_part "a/b: weekly  sync?" "issue")
    as (_ & _ & Hclean & Hne).
  split; [apply Hclean; repeat constructor|].
  split; [apply Hne; discriminate|]. reflexivity.
Defined.

(** X13.  The title taken from an agent's output is the fallback when the
    output is empty or blank, and is never empty when the fallback is
    not: a front-matter title or a heading is taken only when it holds
    something. *)
Theorem extracted_title_is_never_empty (ai_output fallback : string) :
  fallback ≠ EmptyString →
  let title := IssueWriter._extract_title_from_ai_output ai_output fallback in
  title ≠ EmptyString
  ∧ (PyStr.all_space ai_output = true → title = fallback).
Proof.
  intros Hne title. subst title. unfold IssueWriter._extract_title_from_ai_output.
  destruct (PyStr.truthy (PyStr.strip ai_output)) eqn:E; cbn [negb].
  - split.
    + destruct (PyStr.splitlines _) as [|first rest]; [done|].
      destruct (String.eqb (PyStr.strip first) "---").
      * destruct (IssueWriter.frontmatter_title _) as [v|] eqn:F;
          [by eapply frontmatter_title_truthy|].
        destruct (IssueWriter.first_heading _) as [v|] eqn:G;
          [by eapply first_heading_truthy|done].
      * destruct (IssueWriter.first_heading _) as [v|] eqn:G;
          [by eapply first_heading_truthy|done].
    + intros H%strip_empty_iff. apply truthy_true in E. done.
  - done.
Qed.

Lemma extracted_title_witness :
  IssueWriter._extract_title_from_ai_output Fixtures.beta_note "standup" ≠ EmptyString.
Proof.
  apply (extracted_title_is_never_empty Fixtures.beta_note "standup").
  discriminate.
Defined.

(* ===================================================================== *)
(** * Further properties of the watch loop *)
(* ===================================================================== *)

Section MoreAutoWatchFacts.
Import AutoWatch WatchControl.

Lemma new_files_nothing_new current : new_files current current = [].
Proof.
  unfold new_files.
  by rewrite difference_diag_L, elements_empty.
Qed.

Lemma handler_keeps_root lookup_file summarize now_iso file_path st :
  vault_path (_handle_auto_watch_file lookup_file summarize now_iso file_path st).1
  = vault_path st.
Proof.
  unfold _handle_auto_watch_file.
  destruct (lookup_file file_path) as [file|]; [|done].
  destruct (negb _); [done|]. destruct (negb _); [done|].
  by destruct (summarize file_path).
Qed.

Lemma handler_count lookup_file summarize now_iso file_path st :
  let r := _handle_auto_watch_file lookup_file summarize now_iso file_path st in
  processed_count r.1 = processed_count st + (if is_processed r.2 then 1 else 0).
Proof.
  unfold _handle_auto_watch_file.
  destruct (lookup_file file_path) as [file|]; simpl; [|lia].
  destruct (negb _); simpl; [lia|]. destruct (negb _); simpl; [lia|].
  destruct (summarize file_path); simpl; lia.
Qed.

(** The batch keeps the switch, the baseline and the root, as long as
    the other requests served meanwhile do. *)
Lemma process_batch_keeps lookup_file summarize now_iso others queue st :
  (∀ p s, enabled (others p s) = enabled s
          ∧ known_files (others p s) = known_files s
          ∧ vault_path (others p s) = vault_path s) →
  let st' := (process_batch lookup_file summarize now_iso others queue st).1 in
  enabled st' = enabled st ∧ known_files st' = known_files st
  ∧ vault_path st' = vault_path st.
Proof.
  intros Hothers. revert st. induction queue as [|p queue IH]; intros st; simpl.
  - done.
  - destruct (negb (enabled st)); [done|].
    destruct (handler_keeps_switch lookup_file summarize now_iso p st) as [He Hk].
    pose proof (handler_keeps_root lookup_file summarize now_iso p st) as Hv.
    destruct (_handle_auto_watch_file _ _ _ p st) as [st1 h]. simpl in He, Hk, Hv.
    set (st1' := match h with
                 | Raised message =>
                     _set_auto_watch_error now_iso (p +:+ ": " +:+ message) st1
                 | _ => st1
                 end).
    assert (enabled st1' = enabled st1 ∧ known_files st1' = known_files st1
            ∧ vault_path st1' = vault_path st1)
      as (He' & Hk' & Hv') by (subst st1'; by destruct h).
    destruct (Hothers p st1') as (Ho1 & Ho2 & Ho3).
    destruct (IH (others p st1')) as (IH1 & IH2 & IH3).
    destruct (process_batch _ _ _ others queue (others p st1')) as [st3 log].
    simpl in *. repeat split; congruence.
Qed.

Lemma of_N_not_minus_one n : (Z.of_N n =? -1) = false.
Proof. apply Z.eqb_neq. lia. Qed.

(** With [stable_count] samples in a row behind it, the loop cannot say
    yes before [3 - stable_count] further looks, each of which finds the
    file. *)
Lemma settle_needs_looks file k attempts i last_size stable_count :
  (stable_count + k ≤ 2)%nat → (k < attempts)%nat →
  settle file attempts i last_size stable_count = true →
  ∀ j, (j ≤ k)%nat → is_Some (file (i + j)%nat).
Proof.
  revert attempts i last_size stable_count.
  induction k as [|k IH]; intros attempts i last_size stable_count Hc Ha;
    (destruct attempts as [|attempts]; [lia|]); cbn [settle];
    destruct (file i) as [size|] eqn:Hi; try discriminate.
  - intros _ j Hj. replace j with 0%nat by lia. rewrite Nat.add_0_r, Hi. eauto.
  - assert ((AUTO_WATCH_SETTLE_ATTEMPTS <=? S stable_count)%nat = false) as ->.
    { apply Nat.leb_gt. unfold AUTO_WATCH_SETTLE_ATTEMPTS. lia. }
    intros Hs j Hj. destruct j as [|j]; [rewrite Nat.add_0_r, Hi; eauto|].
    rewrite Nat.add_succ_r, <- Nat.add_succ_l.
    destruct (Z.of_N size =? last_size);
      (eapply IH; [| |exact Hs|]; lia).
Qed.

End MoreAutoWatchFacts.

(** X14.  Switching the watch on, at start-up or through the route, takes
    the scan of the vault as the baseline: a tick that then finds the same
    root and the same scan queues no path and hands nothing to the
    handler, so files that were already there are not summarized. *)
Theorem enabling_the_watch_takes_the_scan_as_baseline
    (lookup_file : string → option (nat → option N))
    (summarize_file_to_issue : string → string + string) (now_iso : string)
    (others : string → AutoWatch.WatchState → AutoWatch.WatchState)
    (vault_text : string) (scan : gset string) (st : AutoWatch.WatchState) :
  let tick := AutoWatch.tick lookup_file summarize_file_to_issue now_iso others
                vault_text true scan in
  let switched_on := WatchControl.set_auto_watch_status true vault_text scan st in
  let started := WatchControl.start_auto_watch vault_text scan st in
  tick switched_on = (switched_on, [], [])
  ∧ tick started = (started, [], []).
Proof.
  intros tick switched_on started. subst tick switched_on started. split.
  - unfold AutoWatch.tick. cbn [AutoWatch.enabled WatchControl.set_auto_watch_status negb
      AutoWatch.vault_path AutoWatch.known_files AutoWatch.set_vault_path].
    rewrite String.eqb_refl. cbn [negb]. rewrite new_files_nothing_new. done.
  - unfold WatchControl.start_auto_watch.
    destruct (AutoWatch.enabled st) eqn:Hen.
    + unfold AutoWatch.tick.
      cbn [AutoWatch.enabled AutoWatch.set_known_files AutoWatch.set_vault_path negb
        AutoWatch.vault_path AutoWatch.known_files].
      rewrite Hen, String.eqb_refl. cbn [negb]. rewrite new_files_nothing_new. done.
    + unfold AutoWatch.tick. by rewrite Hen.
Qed.

(** X15.  Scanning an unchanged tree again flags nothing: whatever a tick
    did (skipped, reported a missing vault aside, took a new root as
    baseline, or ran a batch), the next tick on the same root and the same
    scan queues no path, as long as the requests served meanwhile leave
    the switch, the baseline and the root alone. *)
Theorem rescanning_an_unchanged_tree_queues_nothing
    (lookup_file : string → option (nat → option N))
    (summarize_file_to_issue : string → string + string) (now_iso : string)
    (others : string → AutoWatch.WatchState → AutoWatch.WatchState)
    (vault_text : string) (current : gset string) (st : AutoWatch.WatchState) :
  (∀ p s, AutoWatch.enabled (others p s) = AutoWatch.enabled s
          ∧ AutoWatch.known_files (others p s) = AutoWatch.known_files s
          ∧ AutoWatch.vault_path (others p s) = AutoWatch.vault_path s) →
  let tick := AutoWatch.tick lookup_file summarize_file_to_issue now_iso others
                vault_text true current in
  (tick (tick st).1.1).1.2 = [] ∧ (tick (tick st).1.1).2 = [].
Proof.
  intros Hothers tick.
  assert (∀ s, AutoWatch.known_files s = current →
               AutoWatch.vault_path s = vault_text →
               (tick s).1.2 = [] ∧ (tick s).2 = []) as Hbase.
  { intros s Hk Hv. subst tick. unfold AutoWatch.tick.
    destruct (negb (AutoWatch.enabled s)); [done|]. cbn [negb].
    rewrite Hv, String.eqb_refl, Hk. cbn [negb].
    by rewrite new_files_nothing_new. }
  destruct (AutoWatch.enabled st) eqn:Hen.
  - destruct (String.eqb_spec (AutoWatch.vault_path st) vault_text) as [Hv|Hv].
    + apply Hbase; subst tick; rewrite tick_same_root by done; cbn [fst snd].
      * by destruct (process_batch_keeps lookup_file summarize_file_to_issue now_iso
                       others (AutoWatch.new_files current (AutoWatch.known_files st))
                       (AutoWatch.set_known_files current
                          (AutoWatch.set_vault_path vault_text st)) Hothers)
          as (_ & -> & _).
      * by destruct (process_batch_keeps lookup_file summarize_file_to_issue now_iso
                       others (AutoWatch.new_files current (AutoWatch.known_files st))
                       (AutoWatch.set_known_files current
                          (AutoWatch.set_vault_path vault_text st)) Hothers)
          as (_ & _ & ->).
    + apply String.eqb_neq in Hv. apply Hbase; subst tick; unfold AutoWatch.tick;
        rewrite Hen, Hv; done.
  - assert (tick st = (st, [], [])) as ->.
    { subst tick. unfold AutoWatch.tick. by rewrite Hen. }
    cbn [fst]. subst tick. unfold AutoWatch.tick. by rewrite Hen.
Qed.

Lemma rescanning_an_unchanged_tree_witness :
  let tick := AutoWatch.tick (λ _, Some Fixtures.settled_file) (λ p, inr p) "now"
                (λ _ s, s) "/vault" true {["a.md"; "b.md"]} in
  (tick (tick Fixtures.watching).1.1).1.2 = [].
Proof.
  exact (proj1 (rescanning_an_unchanged_tree_queues_nothing
                  (λ _, Some Fixtures.settled_file) (λ p, inr p) "now"
                  (λ _ s, s) "/vault" {["a.md"; "b.md"]} Fixtures.watching
                  (λ _ _, conj eq_refl (conj eq_refl eq_refl)))).
Defined.

(** X16.  The count of processed files grows, over a batch, by exactly
    the number of files the batch summarized and saved: skipped files and
    files whose handling raised are not counted (the requests served
    meanwhile leaving the count alone). *)
Theorem batch_counts_exactly_the_saved_files
    (lookup_file : string → option (nat → option N))
    (summarize_file_to_issue : string → string + string) (now_iso : string)
    (others : string → AutoWatch.WatchState → AutoWatch.WatchState)
    (queue : list string) (st : AutoWatch.WatchState) :
  (∀ p s, AutoWatch.processed_count (others p s) = AutoWatch.processed_count s) →
  let batch := AutoWatch.process_batch lookup_file summarize_file_to_issue now_iso
                 others queue st in
  AutoWatch.processed_count batch.1
  = AutoWatch.processed_count st
    + Z.of_nat (length (List.filter (λ e, WatchControl.is_processed e.2) batch.2)).
Proof.
  intros Hothers. revert st. induction queue as [|p queue IH]; intros st; simpl.
  - lia.
  - destruct (negb (AutoWatch.enabled st)); simpl; [lia|].
    pose proof (handler_count lookup_file summarize_file_to_issue now_iso p st) as Hc.
    cbv zeta in Hc.
    destruct (AutoWatch._handle_auto_watch_file _ _ _ p st) as [st1 h].
    simpl in Hc.
    set (st1' := match h with
                 | AutoWatch.Raised message =>
                     AutoWatch._set_auto_watch_error now_iso (p +:+ ": " +:+ message) st1
                 | _ => st1
                 end).
    assert (AutoWatch.processed_count st1' = AutoWatch.processed_count st1) as Hc'
      by (subst st1'; by destruct h).
    specialize (IH (others p st1')). cbv zeta in IH.
    destruct (AutoWatch.process_batch _ _ _ others queue (others p st1')) as [st3 log].
    simpl in *. rewrite IH, Hothers, Hc', Hc.
    destruct (WatchControl.is_processed h); simpl length; lia.
Qed.

Lemma batch_counts_witness :
  AutoWatch.processed_count
    (AutoWatch.process_batch
       (λ p, if String.eqb p "a.md" then Some Fixtures.settled_file else None)
       (λ p, inr p) "now" (λ _ s, s) ["a.md"; "b.md"] Fixtures.watching).1
  = 1.
Proof.
  apply (batch_counts_exactly_the_saved_files
           (λ p, if String.eqb p "a.md" then Some Fixtures.settled_file else None)
           (λ p, inr p) "now" (λ _ s, s) ["a.md"; "b.md"] Fixtures.watching).
  reflexivity.
Defined.

(** X17.  A file whose first four looks find it with the same size is
    taken as settled, whatever it does afterwards. *)
Theorem file_of_constant_size_settles (file : nat → option N) (size : N) :
  (∀ i, (i ≤ 3)%nat → file i = Some size) →
  AutoWatch._wait_for_stable_file file = true.
Proof.
  intros H. unfold AutoWatch._wait_for_stable_file.
  change (AutoWatch.AUTO_WATCH_SETTLE_ATTEMPTS * 3)%nat with 9%nat.
  cbn [AutoWatch.settle]. rewrite (H 0%nat) by lia. rewrite of_N_not_minus_one.
  rewrite (H 1%nat) by lia. rewrite Z.eqb_refl.
  change (AutoWatch.AUTO_WATCH_SETTLE_ATTEMPTS <=? 1)%nat with false. cbn iota.
  rewrite (H 2%nat) by lia. rewrite Z.eqb_refl.
  change (AutoWatch.AUTO_WATCH_SETTLE_ATTEMPTS <=? 2)%nat with false. cbn iota.
  rewrite (H 3%nat) by lia. rewrite Z.eqb_refl. done.
Qed.

Lemma file_of_constant_size_witness :
  AutoWatch._wait_for_stable_file Fixtures.settled_file = true.
Proof.
  apply (file_of_constant_size_settles Fixtures.settled_file 42).
  intros i _. reflexivity.
Defined.

(** X18.  The wait never says yes before its fourth look: a file it
    accepts was there at each of the first four looks. *)
Theorem accepted_file_was_seen_four_times (file : nat → option N) :
  AutoWatch._wait_for_stable_file file = true →
  ∀ i, (i ≤ 3)%nat → is_Some (file i).
Proof.
  unfold AutoWatch._wait_for_stable_file.
  change (AutoWatch.AUTO_WATCH_SETTLE_ATTEMPTS * 3)%nat with 9%nat.
  cbn [AutoWatch.settle].
  destruct (file 0%nat) as [s0|] eqn:H0; [|discriminate].
  rewrite of_N_not_minus_one. intros Hs i Hi.
  destruct i as [|i]; [rewrite H0; eauto|].
  apply (settle_needs_looks file 2 8 1 (Z.of_N s0) 0); [lia|lia|exact Hs|lia].
Qed.

Lemma accepted_file_witness : is_Some (Fixtures.growing_file 3).
Proof.
  apply (accepted_file_was_seen_four_times Fixtures.growing_file); [reflexivity|lia].
Defined.

(* ===================================================================== *)
(** * The scanner *)
(* ===================================================================== *)

Section ScannerFacts.
Import Scanner.

(** Induction on a tree, with the property of a directory's entries at
    hand. *)
Lemma entry_ind (P : entry → Prop) :
  (∀ name, P (File name)) →
  (∀ name entries, Forall P entries → P (Dir name entries)) →
  ∀ e, P e.
Proof.
  intros HF HD. fix IH 1. intros [name|name entries]; [apply HF|].
  apply HD. induction entries as [|e entries IHes]; constructor; [apply IH|apply IHes].
Qed.

(** What the walk below [root_parts] discovers lies under [root_parts],
    in directories the walk keeps, and is a file it takes. *)
Lemma walk_sound excluded e :
  ∀ root_parts parts,
    parts ∈ walk excluded root_parts e →
    ∃ dirs filename,
      parts = root_parts ++ dirs ++ [filename]
      ∧ Forall (λ d, keeps_dir excluded d = true) dirs
      ∧ takes_file excluded (root_parts ++ dirs) filename = true.
Proof.
  induction e as [filename|d entries IH] using entry_ind; intros root_parts parts; simpl.
  - destruct (takes_file excluded root_parts filename) eqn:Ht.
    + intros ->%list_elem_of_singleton. exists [], filename.
      by rewrite app_nil_r.
    + by intros ?%elem_of_nil.
  - destruct (keeps_dir excluded d) eqn:Hd; [|by intros ?%elem_of_nil].
    intros (e & He & Hin)%list_elem_of_In%in_flat_map.
    apply list_elem_of_In in He, Hin.
    rewrite Forall_forall in IH.
    destruct (IH e He _ _ Hin) as (dirs & filename & -> & Hdirs & Hfile).
    exists (d :: dirs), filename. rewrite <- !app_assoc in *.
    repeat split; [by constructor|done].
Qed.

Lemma keeps_dir_spec excluded d :
  keeps_dir excluded d = true ↔
  PyStr.startswith d "." = false ∧ PyStr.lower d ∉ excluded.
Proof.
  unfold keeps_dir. rewrite andb_true_iff, !negb_true_iff.
  rewrite <- mem_true, not_true_iff_false. done.
Qed.

Lemma issues_excluded issue_folder : "issues" ∈ excluded_names issue_folder.
Proof.
  unfold excluded_names. destruct (PyStr.truthy _);
    rewrite ?elem_of_app; [left|]; by repeat constructor.
Qed.

Lemma issue_folder_excluded issue_folder :
  PyStr.all_space issue_folder = false →
  PyStr.lower (PyStr.strip issue_folder) ∈ excluded_names issue_folder.
Proof.
  intros Hne. unfold excluded_names.
  assert (PyStr.truthy (PyStr.lower (PyStr.strip issue_folder)) = true) as ->.
  { apply truthy_true. intros H.
    assert (PyStr.strip issue_folder = EmptyString) as Hs
      by (by destruct (PyStr.strip issue_folder)).
    apply strip_empty_iff in Hs. congruence. }
  rewrite elem_of_app. right. by constructor.
Qed.

(** The directories on a discovered path are not named [Issues], nor as
    the configured folder stripped, in any case. *)
Lemma walk_dirs issue_folder entries parts d :
  parts ∈ flat_map (walk (excluded_names issue_folder) []) entries →
  d ∈ removelast parts →
  PyStr.lower d ≠ "issues"
  ∧ (PyStr.all_space issue_folder = false →
     PyStr.lower d ≠ PyStr.lower (PyStr.strip issue_folder)).
Proof.
  intros (e & He & Hin)%list_elem_of_In%in_flat_map Hd.
  apply list_elem_of_In in Hin.
  destruct (walk_sound _ _ _ _ Hin) as (dirs & filename & -> & Hdirs & _).
  simpl in Hd. rewrite removelast_last in Hd.
  rewrite Forall_forall in Hdirs. apply Hdirs, keeps_dir_spec in Hd as [_ Hd].
  split.
  - intros Heq. apply Hd. rewrite Heq. apply issues_excluded.
  - intros Hne Heq. apply Hd. rewrite Heq. by apply issue_folder_excluded.
Qed.

(** A folder that is one component of a path is not empty. *)
Lemma one_component_nonempty folder :
  PyPath.components folder = [folder] → folder ≠ EmptyString.
Proof.
  intros H.
  assert (folder ∈ PyPath.components folder) as Hin by (rewrite H; by left).
  unfold PyPath.components in Hin. apply list_elem_of_filter in Hin as [[Hne _] _].
  exact Hne.
Qed.

End ScannerFacts.

(** X19.  Every path the scan discovers is made of directory names and a
    file name such that no directory name starts with a dot or is, in
    lower case, one of the excluded names; the file name does not start
    with a dot; and its suffix is, in lower case, [.md] or [.txt]. *)
Theorem scan_discovers_eligible_files_only
    (issue_folder : string) (entries : list Scanner.entry) (p : string) :
  p ∈ Scanner._scan_watch_candidates issue_folder (Some entries) →
  ∃ dirs filename,
    p = Scanner.join_parts (dirs ++ [filename])
    ∧ Forall (λ d, PyStr.startswith d "." = false
                   ∧ PyStr.lower d ∉ Scanner.excluded_names issue_folder) dirs
    ∧ PyStr.startswith filename "." = false
    ∧ PyStr.lower (Scanner.suffix filename) ∈ Scanner.AUTO_WATCH_EXTENSIONS.
Proof.
  unfold Scanner._scan_watch_candidates.
  rewrite elem_of_list_to_set, list_elem_of_fmap.
  intros (parts & -> & (e & He & Hin)%list_elem_of_In%in_flat_map).
  apply list_elem_of_In in Hin.
  destruct (walk_sound _ _ _ _ Hin) as (dirs & filename & -> & Hdirs & Hfile).
  exists dirs, filename. split; [done|]. split.
  - eapply Forall_impl; [exact Hdirs|]. intros d Hd. by apply keeps_dir_spec.
  - unfold Scanner.takes_file in Hfile.
    apply andb_true_iff in Hfile as [[H1 H2]%andb_true_iff _].
    split; [by apply negb_true_iff|by apply mem_true].
Qed.

Lemma scan_discovers_eligible_witness :
  ∃ dirs filename,
    "team/standup.MD" = Scanner.join_parts (dirs ++ [filename])
    ∧ Forall (λ d, PyStr.startswith d "." = false
                   ∧ PyStr.lower d ∉ Scanner.excluded_names "issue") dirs
    ∧ PyStr.startswith filename "." = false
    ∧ PyStr.lower (Scanner.suffix filename) ∈ Scanner.AUTO_WATCH_EXTENSIONS.
Proof.
  apply (scan_discovers_eligible_files_only "issue"
           [Scanner.Dir "team"
              [Scanner.File "standup.MD"; Scanner.File "photo.png";
               Scanner.Dir "Issues" [Scanner.File "team_001_Beta.md"]];
            Scanner.File ".hidden.md"]).
  unfold Scanner._scan_watch_candidates. apply elem_of_list_to_set.
  vm_compute. constructor.
Defined.

(** X20.  The scan enters no directory named [Issues] (in any case), nor
    one named as the configured issue folder with its surrounding
    whitespace stripped (in any case).  So the file a save writes for a
    nested source, in the [Issues] directory of its account, is never
    discovered, and neither is the file a save writes into the
    configured folder when that folder is a single directory name
    without surrounding whitespace.  The exclusion goes by directory
    name only: a configured folder that is a path of several names, or
    is padded with blanks, is not kept out of the scan. *)
Theorem scan_stays_out_of_the_issue_folders
    (issue_folder : string) (entries : list Scanner.entry) :
  let discovered := flat_map (Scanner.walk (Scanner.excluded_names issue_folder) []) entries in
  (∀ parts d, parts ∈ discovered → d ∈ removelast parts →
     PyStr.lower d ≠ "issues"
     ∧ (PyStr.all_space issue_folder = false →
        PyStr.lower d ≠ PyStr.lower (PyStr.strip issue_folder)))
  ∧ (∀ ls vault source_path source_abs ai_output,
       let saved := IssueWriter._save_ai_output issue_folder ls vault source_path
                      source_abs ai_output in
       (∀ account, IssueWriter.dir saved = IssueWriter.AccountIssues account →
          Scanner.saved_parts saved ∉ discovered)
       ∧ (PyPath.components issue_folder = [issue_folder] →
          PyStr.strip issue_folder = issue_folder →
          Scanner.saved_parts saved ∉ discovered)).
Proof.
  intros discovered. split; [intros parts d; by apply walk_dirs|].
  intros ls vault source_path source_abs ai_output saved.
  assert (∀ account, IssueWriter.dir saved = IssueWriter.AccountIssues account →
            Scanner.saved_parts saved ∉ discovered) as Hnested.
  { intros account Hdir Hin. unfold Scanner.saved_parts in Hin. rewrite Hdir in Hin.
    destruct (walk_dirs issue_folder entries _ "Issues" Hin) as [H _].
    - simpl. right. by left.
    - by apply H. }
  split; [exact Hnested|].
  intros Hone Hstrip Hin.
  destruct (IssueWriter.dir saved) as [account|folder] eqn:Hdir.
  { by apply (Hnested account). }
  assert (folder = issue_folder) as ->.
  { subst saved. unfold IssueWriter._save_ai_output in Hdir. cbn [IssueWriter.dir] in Hdir.
    destruct (PyStr.truthy _); [discriminate|]. by injection Hdir. }
  unfold Scanner.saved_parts in Hin. rewrite Hdir, Hone in Hin.
  destruct (walk_dirs issue_folder entries _ issue_folder Hin) as [_ H].
  - simpl. by left.
  - apply H; [|by rewrite Hstrip].
    destruct (PyStr.all_space issue_folder) eqn:E; [|done].
    apply strip_empty_iff in E. rewrite Hstrip in E.
    by apply one_component_nonempty in Hone.
Qed.

Lemma scan_stays_out_witness :
  let tree (folder name : string) :=
    [Scanner.Dir "team"
       [Scanner.File "standup.md";
        Scanner.Dir "Issues" [Scanner.File "team_001_Beta.md"]];
     Scanner.Dir "out" [Scanner.Dir "Summaries" [Scanner.File name]];
     Scanner.Dir folder [Scanner.File name]] in
  let saved (folder : string) :=
    IssueWriter._save_ai_output folder (λ _, []) "/vault" "standup.md"
      "/vault/standup.md" Fixtures.beta_note in
  (Scanner.saved_parts (saved "issue")
     ∉ flat_map (Scanner.walk (Scanner.excluded_names "issue") [])
         (tree "issue" (IssueWriter.name (saved "issue"))))
  ∧ (Scanner.saved_parts (saved "out/Summaries")
       ∈ flat_map (Scanner.walk (Scanner.excluded_names "out/Summaries") [])
           (tree "issue" (IssueWriter.name (saved "out/Summaries"))))
  ∧ (Scanner.saved_parts (saved " issue ")
       ∈ flat_map (Scanner.walk (Scanner.excluded_names " issue ") [])
           (tree " issue " (IssueWriter.name (saved " issue ")))).
Proof.
  intros tree saved. split; [|split].
  - apply (scan_stays_out_of_the_issue_folders "issue"
             (tree "issue" (IssueWriter.name (saved "issue")))); reflexivity.
  - vm_compute. repeat constructor.
  - vm_compute. repeat constructor.
Defined.

(* ===================================================================== *)
(** * The viewer configuration *)
(* ===================================================================== *)

(** X21.  Switching the watch in the configuration is read back: after
    [set_auto_watch_enabled] has written a value, whatever the file held
    before (nothing, an unreadable text, an object), it returns that
    value, [get_auto_watch_enabled] reads it, whatever the default, and
    the configured issue folder is the one read before. *)
Theorem watch_switch_is_read_back
    (enabled : bool) (file file' : Config.config_file) (returned : bool) :
  Config.set_auto_watch_enabled enabled file = Some (file', returned) →
  returned = enabled
  ∧ (∀ default, Config.get_auto_watch_enabled default file' = Some enabled)
  ∧ (∀ default, Config.get_issue_folder default file'
                = Config.get_issue_folder default file).
Proof.
  unfold Config.set_auto_watch_enabled.
  destruct (Config._load file) as [data|] eqn:Hload; [|discriminate].
  simpl. intros [= <- <-]. split; [done|]. split.
  - intros default. unfold Config.get_auto_watch_enabled. simpl.
    rewrite lookup_insert_eq. by destruct enabled.
  - intros default. unfold Config.get_issue_folder. rewrite Hload. simpl.
    by rewrite lookup_insert_ne.
Qed.

Lemma watch_switch_witness :
  Config.get_auto_watch_enabled false
    (Config.Object (<["auto_watch_enabled" := Config.JBool true]>
                      {["auto_watch_enabled" := Config.JString "off"]}))
  = Some true.
Proof.
  destruct (watch_switch_is_read_back true
              (Config.Object {["auto_watch_enabled" := Config.JString "off"]})
              _ _ eq_refl) as (_ & H & _).
  exact (H false).
Defined.

(* ===================================================================== *)
(** * The runners of the router *)
(* ===================================================================== *)

Section FrameFacts.
Import PyStr Router.

Lemma split_on_nonempty sep s : split_on sep s ≠ [].
Proof.
  destruct s as [|c s]; [done|]. simpl.
  destruct (Ascii.eqb c sep); [done|]. by destruct (split_on sep s).
Qed.

Lemma split_on_sep_free sep s :
  Forall (λ w, Forall (λ c, c ≠ sep) (String.list_ascii_of_string w)) (split_on sep s).
Proof.
  induction s as [|c s IH]; simpl; [by repeat constructor|].
  destruct (Ascii.eqb_spec c sep) as [->|Hc]; [by repeat constructor|].
  destruct (split_on sep s) as [|w ws]; [by repeat constructor|].
  inversion IH; subst. by repeat constructor.
Qed.

Lemma prefix_other c s t :
  c ≠ Subprocess.LF → String.prefix (String Subprocess.LF s) (String c t) = false.
Proof.
  intros Hc.
  change (String.prefix (String Subprocess.LF s) (String c t))
    with (match Ascii.ascii_dec Subprocess.LF c with
          | left _ => String.prefix s t
          | right _ => false
          end).
  destruct (Ascii.ascii_dec Subprocess.LF c) as [Heq|Hne]; [by destruct Hc|done].
Qed.

Lemma prefix_same a s t : String.prefix (String a s) (String a t) = String.prefix s t.
Proof.
  change (String.prefix (String a s) (String a t))
    with (match Ascii.ascii_dec a a with
          | left _ => String.prefix s t
          | right _ => false
          end).
  by destruct (Ascii.ascii_dec a a).
Qed.

Lemma contains_cons needle c t :
  contains needle (String c t) = String.prefix needle (String c t) || contains needle t.
Proof. done. Qed.

(** A blank line cannot start inside a text that holds no line feed. *)
Lemma contains_skip a t :
  Forall (λ c, c ≠ Subprocess.LF) (String.list_ascii_of_string a) →
  contains (newline +:+ newline) (a +:+ t) = contains (newline +:+ newline) t.
Proof.
  change (newline +:+ newline) with (String Subprocess.LF (String Subprocess.LF EmptyString)).
  intros Ha. induction a as [|c a IH]; [done|].
  inversion Ha as [|? ? Hc Ha']; subst.
  by rewrite append_cons, contains_cons, prefix_other, IH.
Qed.

Lemma contains_after_lf c t :
  c ≠ Subprocess.LF →
  contains (newline +:+ newline) (newline +:+ String c t)
  = contains (newline +:+ newline) (String c t).
Proof.
  change (newline +:+ String c t) with (String Subprocess.LF (String c t)).
  change (newline +:+ newline) with (String Subprocess.LF (String Subprocess.LF EmptyString)).
  intros Hc. rewrite (contains_cons _ Subprocess.LF).
  by rewrite prefix_same, prefix_other.
Qed.

Lemma data_line_free line :
  Forall (λ c, c ≠ Subprocess.LF) (String.list_ascii_of_string line) →
  Forall (λ c, c ≠ Subprocess.LF) (String.list_ascii_of_string ("data: " +:+ line)).
Proof.
  intros H. rewrite chars_app. apply Forall_app. split; [|done].
  repeat constructor; discriminate.
Qed.

Lemma payload_head lines t :
  lines ≠ [] →
  ∃ rest, join_lines ((λ line, "data: " +:+ line) <$> lines) +:+ t = String "d" rest.
Proof.
  destruct lines as [|x [|y r]]; [done|..]; intros _; cbn [fmap list_fmap join_lines];
    eexists; by rewrite !append_cons.
Qed.

(** The payload of a frame, followed by one line feed, holds no blank
    line. *)
Lemma payload_no_blank_line lines :
  lines ≠ [] →
  Forall (λ w, Forall (λ c, c ≠ Subprocess.LF) (String.list_ascii_of_string w)) lines →
  contains (newline +:+ newline)
    (join_lines ((λ line, "data: " +:+ line) <$> lines) +:+ newline) = false.
Proof.
  induction lines as [|x lines IH]; [done|]. intros _ Hfree.
  inversion Hfree as [|? ? Hx Hrest]; subst.
  destruct lines as [|y r].
  - cbn [fmap list_fmap join_lines]. by rewrite contains_skip by by apply data_line_free.
  - change (join_lines ((λ line, "data: " +:+ line) <$> x :: y :: r))
      with (("data: " +:+ x) +:+ newline
            +:+ join_lines ((λ line, "data: " +:+ line) <$> y :: r)).
    pose proof (data_line_free x Hx) as HA. revert HA.
    generalize ("data: " +:+ x). intros A HA.
    rewrite !append_assoc, contains_skip by done.
    destruct (payload_head (y :: r) newline) as [rest Hrest']; [done|].
    rewrite Hrest', contains_after_lf by discriminate.
    rewrite <- Hrest'. by apply IH.
Qed.

Lemma split_on_free sep a :
  Forall (λ c, c ≠ sep) (String.list_ascii_of_string a) → split_on sep a = [a].
Proof.
  induction a as [|c a IH]; [done|]. intros Ha.
  inversion Ha as [|? ? Hc Ha']; subst. cbn [split_on].
  destruct (Ascii.eqb_spec c sep); [done|]. by rewrite IH.
Qed.

Lemma split_on_app_sep sep a t :
  Forall (λ c, c ≠ sep) (String.list_ascii_of_string a) →
  split_on sep (a +:+ String sep t) = a :: split_on sep t.
Proof.
  induction a as [|c a IH]; intros Ha.
  - change (EmptyString +:+ String sep t) with (String sep t). cbn [split_on].
    by rewrite Ascii.eqb_refl.
  - inversion Ha as [|? ? Hc Ha']; subst. rewrite append_cons. cbn [split_on].
    destruct (Ascii.eqb_spec c sep); [done|]. by rewrite IH.
Qed.

(** Read by line feeds, the joined lines are the lines. *)
Lemma split_join_lines ws :
  ws ≠ [] →
  Forall (λ w, Forall (λ c, c ≠ Subprocess.LF) (String.list_ascii_of_string w)) ws →
  split_on Subprocess.LF (join_lines ws) = ws.
Proof.
  induction ws as [|x ws IH]; [done|]. intros _ Hfree.
  inversion Hfree as [|? ? Hx Hrest]; subst.
  destruct ws as [|y r]; [by apply split_on_free|].
  change (join_lines (x :: y :: r)) with (x +:+ String Subprocess.LF (join_lines (y :: r))).
  rewrite split_on_app_sep by done. by rewrite IH.
Qed.

(** A property of characters that the separator has holds of a text
    exactly when it holds of each of its fields. *)
Lemma split_on_chars (Q : ascii → Prop) sep s :
  Q sep →
  Forall Q (String.list_ascii_of_string s)
  ↔ Forall (λ w, Forall Q (String.list_ascii_of_string w)) (split_on sep s).
Proof.
  intros Hsep. induction s as [|c s IH]; cbn [split_on String.list_ascii_of_string].
  - split; intros _; repeat constructor.
  - destruct (Ascii.eqb_spec c sep) as [->|Hc].
    + split.
      * intros H. inversion H; subst. constructor; [constructor|by apply IH].
      * intros H. inversion H; subst. constructor; [done|by apply IH].
    + destruct (split_on sep s) as [|w ws].
      * split.
        -- intros H. inversion H; subst. by repeat constructor.
        -- intros H. inversion H as [|? ? Hw _]; subst. inversion Hw; subst.
           constructor; [done|]. apply IH. constructor.
      * split.
        -- intros H. inversion H as [|? ? Hc' Hs]; subst. apply IH in Hs.
           inversion Hs; subst. constructor; [by constructor|done].
        -- intros H. inversion H as [|? ? Hw Hws]; subst.
           cbn [String.list_ascii_of_string] in Hw. inversion Hw; subst.
           constructor; [done|]. apply IH. by constructor.
Qed.

Lemma join_lines_chars (Q : ascii → Prop) ws :
  Q Subprocess.LF →
  Forall Q (String.list_ascii_of_string (join_lines ws))
  ↔ Forall (λ w, Forall Q (String.list_ascii_of_string w)) ws.
Proof.
  intros HLF. induction ws as [|x ws IH].
  - split; intros _; constructor.
  - destruct ws as [|y r].
    + cbn [join_lines]. split; [by repeat constructor|]. intros H. by inversion H.
    + change (join_lines (x :: y :: r))
        with (x +:+ String Subprocess.LF (join_lines (y :: r))).
      rewrite chars_app. cbn [String.list_ascii_of_string].
      rewrite Forall_app, Forall_cons, IH, (Forall_cons _ x). tauto.
Qed.

(** Carriage returns reach the payload from the lines only. *)
Lemma payload_chars (Q : ascii → Prop) lines :
  Q Subprocess.LF →
  Forall Q (String.list_ascii_of_string "data: ") →
  Forall Q (String.list_ascii_of_string
              (join_lines ((λ line, "data: " +:+ line) <$> lines)))
  ↔ Forall (λ w, Forall Q (String.list_ascii_of_string w)) lines.
Proof.
  intros HLF Hdata. rewrite join_lines_chars by done. rewrite Forall_fmap.
  apply Forall_iff. intros w. cbn [compose]. rewrite chars_app, Forall_app. tauto.
Qed.

End FrameFacts.

(** X22.  A frame ends with a blank line and, read by line feeds, holds
    no other: its lines before the end are the event line and one data
    line for each line of the data (CR LF taken as a line feed), each
    starting with its field name, as long as the event name holds no
    line feed.  Only CR LF is rewritten: every other carriage return of
    the data is passed on into the frame, which is free of carriage
    returns exactly when the data, CR LF apart, and the event name are.
    A reader that takes a carriage return alone as the end of a line
    finds in a frame with such carriage returns lines that the frame
    read by line feeds does not have. *)
Theorem sse_frame_is_closed_by_its_only_blank_line (data event : string) :
  Forall (λ c, c ≠ Subprocess.LF) (String.list_ascii_of_string event) →
  let lines := PyStr.split_on Subprocess.LF (Router.replace_crlf data) in
  ∃ body,
    Router._sse data event = body +:+ newline +:+ newline
    ∧ PyStr.contains (newline +:+ newline) (body +:+ newline) = false
    ∧ PyStr.split_on Subprocess.LF body
      = ("event: " +:+ event) :: ((λ line, "data: " +:+ line) <$> lines)
    ∧ (Forall (λ c, c ≠ Subprocess.CR) (String.list_ascii_of_string (Router._sse data event))
       ↔ Forall (λ c, c ≠ Subprocess.CR) (String.list_ascii_of_string event)
         ∧ Forall (λ c, c ≠ Subprocess.CR)
             (String.list_ascii_of_string (Router.replace_crlf data))).
Proof.
  intros Hevent lines. unfold Router._sse. fold lines.
  set (payload := Router.join_lines ((λ line, "data: " +:+ line) <$> lines)).
  assert (Forall (λ c, c ≠ Subprocess.LF) (String.list_ascii_of_string ("event: " +:+ event)))
    as Hline.
  { rewrite chars_app. apply Forall_app. split; [|done].
    repeat constructor; discriminate. }
  exists ("event: " +:+ event +:+ newline +:+ payload). split; [|split; [|split]].
  - by rewrite !append_assoc.
  - assert (("event: " +:+ event +:+ newline +:+ payload) +:+ newline
            = ("event: " +:+ event) +:+ newline +:+ payload +:+ newline) as ->
      by by rewrite !append_assoc.
    rewrite contains_skip by done.
    destruct (payload_head lines newline) as [rest Hrest];
      [apply split_on_nonempty|].
    fold payload in Hrest. rewrite Hrest, contains_after_lf by discriminate.
    rewrite <- Hrest. apply payload_no_blank_line;
      [apply split_on_nonempty|apply split_on_sep_free].
  - assert ("event: " +:+ event +:+ newline +:+ payload
            = ("event: " +:+ event) +:+ String Subprocess.LF payload) as ->
      by by rewrite !append_assoc.
    rewrite split_on_app_sep by done. f_equal. subst payload.
    apply split_join_lines.
    + intros H. apply fmap_nil_inv in H. by apply split_on_nonempty in H.
    + rewrite Forall_fmap. eapply Forall_impl; [apply split_on_sep_free|].
      intros w Hw. by apply data_line_free.
  - rewrite !chars_app, !Forall_app.
    fold payload. unfold payload at 1.
    rewrite (payload_chars (λ c, c ≠ Subprocess.CR))
      by (repeat constructor; discriminate).
    unfold lines. rewrite <- (split_on_chars (λ c, c ≠ Subprocess.CR)) by discriminate.
    split.
    + intros (_ & He & _ & Hd & _). done.
    + intros [He Hd]. repeat split; try done; repeat constructor; discriminate.
Qed.

Lemma sse_frame_witness :
  (∃ body,
     Router._sse ("a" +:+ newline +:+ newline +:+ "b") "chunk" = body +:+ newline +:+ newline
     ∧ PyStr.split_on Subprocess.LF body = ["event: chunk"; "data: a"; "data: "; "data: b"])
  ∧ Router._sse (String "x" (String Subprocess.CR (String Subprocess.CR "y"))) "chunk"
    = "event: chunk" +:+ newline
      +:+ "data: x" +:+ String Subprocess.CR (String Subprocess.CR "y")
      +:+ newline +:+ newline.
Proof.
  split; [|reflexivity].
  destruct (sse_frame_is_closed_by_its_only_blank_line
              ("a" +:+ newline +:+ newline +:+ "b") "chunk")
    as (body & Hframe & _ & Hlines & _);
    [repeat constructor; discriminate|].
  exists body. split; [exact Hframe|exact Hlines].
Defined.

Section RouterStreamFacts.
Import Stream.


End RouterStreamFacts.

Section SummarizeFacts.

Lemma summarize_returns
    (os : list string → string → Z → child) (issue_folder : string)
    (ls : IssueWriter.issue_dir → list string) (vault : string)
    (resolve : string → option (string * option string))
    (context_of : string → string)
    (file_path engine prompt : string) (timeout_sec : Z) (saved : IssueWriter.saved) :
  Router.summarize_file_to_issue os issue_folder ls vault resolve context_of
    file_path engine prompt timeout_sec = inr saved →
  ∃ file_abs content out err,
    resolve file_path = Some (file_abs, Some content)
    ∧ os (if String.eqb (PyStr.lower engine) "codex" then ["codex"; "exec"]
          else ["claude"; "-p"])
         (Router._build_input content prompt (context_of file_path)) timeout_sec
      = Exited 0 out err
    ∧ IssueWriter.content saved = PyStr.strip out
    ∧ PyStr.strip out ≠ EmptyString
    ∧ PyStr.endswith (IssueWriter.name saved) ".md" = true.
Proof.
  unfold Router.summarize_file_to_issue.
  destruct (resolve file_path) as [[file_abs [content|]]|] eqn:Hres; try discriminate.
  unfold Router._run_subprocess_once, ExecLock._resolve_command.
  destruct (os _ _ _) as [| |rc out err] eqn:Hos; try discriminate.
  destruct (negb (rc =? 0)) eqn:Hrc; [discriminate|].
  destruct (negb (PyStr.truthy (PyStr.strip out))) eqn:Hout; [discriminate|].
  intros [= <-]. apply negb_eqb_false in Hrc as ->.
  apply negb_false_iff, truthy_true in Hout.
  exists file_abs, content, out, err.
  repeat split; try done. apply saved_name_is_md.
Qed.

End SummarizeFacts.

(** X23.  The file handler of the router saves only what a clean run
    gave: when [summarize_file_to_issue] returns, the path was accepted
    and named a regular file, one child was run with [codex exec] (engine
    [codex], in any case) or [claude -p] (any other engine) on the input
    built from the file, it exited with code 0, and what is written is
    its stdout, stripped and not empty, under a name that ends in
    [.md]. *)
Theorem summary_is_saved_only_after_a_clean_run
    (os : list string → string → Z → child) (issue_folder : string)
    (ls : IssueWriter.issue_dir → list string) (vault : string)
    (resolve : string → option (string * option string))
    (context_of : string → string)
    (file_path engine prompt : string) (timeout_sec : Z) (saved : IssueWriter.saved) :
  Router.summarize_file_to_issue os issue_folder ls vault resolve context_of
    file_path engine prompt timeout_sec = inr saved →
  ∃ file_abs content out err,
    resolve file_path = Some (file_abs, Some content)
    ∧ os (if String.eqb (PyStr.lower engine) "codex" then ["codex"; "exec"]
          else ["claude"; "-p"])
         (Router._build_input content prompt (context_of file_path)) timeout_sec
      = Exited 0 out err
    ∧ IssueWriter.content saved = PyStr.strip out
    ∧ PyStr.strip out ≠ EmptyString
    ∧ PyStr.endswith (IssueWriter.name saved) ".md" = true.
Proof.
  unfold Router.summarize_file_to_issue.
  destruct (resolve file_path) as [[file_abs [content|]]|] eqn:Hres; try discriminate.
  unfold Router._run_subprocess_once, ExecLock._resolve_command.
  destruct (os _ _ _) as [| |rc out err] eqn:Hos; try discriminate.
  destruct (negb (rc =? 0)) eqn:Hrc; [discriminate|].
  destruct (negb (PyStr.truthy (PyStr.strip out))) eqn:Hout; [discriminate|].
  intros [= <-]. apply negb_eqb_false in Hrc as ->.
  apply negb_false_iff, truthy_true in Hout.
  exists file_abs, content, out, err.
  repeat split; try done. apply saved_name_is_md.
Qed.

Lemma summary_is_saved_witness :
  ∃ file_abs content out err,
    (λ p : string, Some ("/vault/team/standup.md", Some "notes")) "team/standup.md"
    = Some (file_abs, Some content)
    ∧ (λ (_ : list string) (_ : string) (_ : Z), Exited 0 Fixtures.beta_note EmptyString)
        (if String.eqb (PyStr.lower "Codex") "codex" then ["codex"; "exec"]
         else ["claude"; "-p"])
        (Router._build_input content "summarize" EmptyString) 600
      = Exited 0 out err
    ∧ IssueWriter.content
        (IssueWriter._save_ai_output "issue" (λ _, []) "/vault" "team/standup.md"
           "/vault/team/standup.md" (PyStr.strip Fixtures.beta_note))
      = PyStr.strip out
    ∧ PyStr.strip out ≠ EmptyString
    ∧ PyStr.endswith
        (IssueWriter.name
           (IssueWriter._save_ai_output "issue" (λ _, []) "/vault" "team/standup.md"
              "/vault/team/standup.md" (PyStr.strip Fixtures.beta_note))) ".md" = true.
Proof.
  apply (summary_is_saved_only_after_a_clean_run
           (λ _ _ _, Exited 0 Fixtures.beta_note EmptyString) "issue" (λ _, []) "/vault"
           (λ _, Some ("/vault/team/standup.md", Some "notes")) (λ _, EmptyString)
           "team/standup.md" "Codex" "summarize" 600).
  reflexivity.
Defined.



(* ===================================================================== *)
(** * Log previews and session labels *)
(* ===================================================================== *)

Section PreviewFacts.
Import PyStr LogPreview.

Lemma escape_newlines_no_lf s :
  Forall (λ c, c ≠ Subprocess.LF) (String.list_ascii_of_string (escape_newlines s)).
Proof.
  induction s as [|c s IH]; simpl; [constructor|].
  destruct (Ascii.eqb_spec c Subprocess.LF); simpl; repeat constructor; done.
Qed.

Lemma length_app a b : String.length (a +:+ b) = (String.length a + String.length b)%nat.
Proof. induction a as [|c a IH]; [done|]. rewrite append_cons. simpl. by rewrite IH. Qed.

Lemma split_on_head sep s :
  ∃ rest, s = hd EmptyString (split_on sep s) +:+ rest
          ∧ (rest = EmptyString ∨ ∃ t, rest = String sep t).
Proof.
  induction s as [|c s (rest & Hs & Hrest)]; simpl.
  - exists EmptyString. auto.
  - destruct (Ascii.eqb_spec c sep) as [->|Hc]; simpl.
    + exists (String sep s). eauto.
    + destruct (split_on sep s) as [|w ws] eqn:E.
      * by apply split_on_nonempty in E.
      * simpl in *. exists rest. rewrite append_cons. by rewrite <- Hs.
Qed.

End PreviewFacts.

(** X25.  A log preview is one line of bounded length: it holds no line
    feed, and is at most the limit and the 14 characters of the
    truncation mark long, whatever the text. *)
Theorem log_preview_is_one_bounded_line (text : string) (limit : nat) :
  let preview := LogPreview._shorten_for_log text limit in
  (String.length preview ≤ limit + 14)%nat
  ∧ Forall (λ c, c ≠ Subprocess.LF) (String.list_ascii_of_string preview).
Proof.
  intros preview. subst preview. unfold LogPreview._shorten_for_log.
  pose proof (escape_newlines_no_lf (PyStr.strip text)) as Hfree.
  destruct (String.length _ <=? limit)%nat eqn:Hlen.
  - apply Nat.leb_le in Hlen. split; [lia|done].
  - split.
    + rewrite length_app. pose proof (length_take limit
        (LogPreview.escape_newlines (PyStr.strip text))). simpl. lia.
    + rewrite chars_app. apply Forall_app. split; [by apply take_chars|].
      repeat constructor; discriminate.
Qed.

(** X26.  The label of a session id is the part of the id before its
    first hyphen: the id starts with it, what follows is nothing or starts
    with a hyphen, and the label holds no hyphen. *)
Theorem session_label_is_the_first_group (session_id : string) :
  session_id ≠ EmptyString →
  let label := LogPreview._session_label session_id in
  (∃ rest, session_id = label +:+ rest
           ∧ (rest = EmptyString ∨ ∃ t, rest = String IssueWriter.hyphen t))
  ∧ Forall (λ c, c ≠ IssueWriter.hyphen) (String.list_ascii_of_string label).
Proof.
  intros Hne label. subst label. unfold LogPreview._session_label.
  apply truthy_true in Hne. rewrite Hne. cbn [negb]. split.
  - apply split_on_head.
  - pose proof (split_on_sep_free IssueWriter.hyphen session_id) as H.
    destruct (PyStr.split_on IssueWriter.hyphen session_id) as [|w ws]; [constructor|].
    by inversion H.
Qed.

Lemma session_label_witness :
  Forall (λ c, c ≠ IssueWriter.hyphen)
    (String.list_ascii_of_string
       (LogPreview._session_label "3f2b9c1e-aaaa-4bbb-8ccc-000000000000")).
Proof.
  apply (session_label_is_the_first_group "3f2b9c1e-aaaa-4bbb-8ccc-000000000000").
  discriminate.
Defined.

(* ===================================================================== *)
(** * The watch, the file handler and the names together *)
(* ===================================================================== *)

Section NamePartFacts.
Import PyStr.

Lemma rsplit1_spec sep s a b :
  rsplit1 sep s = Some (a, b) → s = a +:+ String sep b.
Proof.
  revert a b. induction s as [|c s IH]; intros a b; simpl; [discriminate|].
  destruct (rsplit1 sep s) as [[a' b']|].
  - intros [= <- <-]. by rewrite append_cons, (IH a' b' eq_refl).
  - destruct (Ascii.eqb_spec c sep) as [->|]; [|discriminate].
    by intros [= <- <-].
Qed.

Lemma stem_chars (Q : ascii → Prop) name :
  Forall Q (String.list_ascii_of_string name) →
  Forall Q (String.list_ascii_of_string (PyPath.stem name)).
Proof.
  intros H. unfold PyPath.stem.
  destruct (rsplit1 "." name) as [[[|c a] [|d b]]|] eqn:E; try done.
  apply rsplit1_spec in E. rewrite E, chars_app in H.
  by apply Forall_app in H as [H _].
Qed.

Lemma name_no_slash p :
  Forall (λ c, c ≠ PyPath.slash) (String.list_ascii_of_string (PyPath.name p)).
Proof.
  unfold PyPath.name, PyPath.components.
  pose proof (split_on_sep_free PyPath.slash p) as H.
  assert (∀ l : list string,
            Forall (λ w, Forall (λ c, c ≠ PyPath.slash) (String.list_ascii_of_string w)) l →
            Forall (λ c, c ≠ PyPath.slash)
              (String.list_ascii_of_string (List.last l EmptyString))) as Hlast.
  { induction l as [|w [|w' l] IH]; intros Hl; [constructor|by inversion Hl|].
    inversion Hl; subst. by apply IH. }
  apply Hlast. rewrite Forall_forall in H. apply Forall_forall.
  intros w [_ Hw]%list_elem_of_filter. by apply H.
Qed.

End NamePartFacts.

(** X27.  The file name a save composes holds no slash, whatever the
    agent wrote and whatever the source is called: the file is written in
    the issue folder itself and nowhere else. *)
Theorem saved_name_holds_no_slash
    (issue_folder : string) (ls : IssueWriter.issue_dir → list string)
    (vault source_path source_abs ai_output : string) :
  Forall (λ c, c ≠ PyPath.slash)
    (String.list_ascii_of_string
       (IssueWriter.name
          (IssueWriter._save_ai_output issue_folder ls vault source_path source_abs
             ai_output))).
Proof.
  unfold IssueWriter._save_ai_output. cbn [IssueWriter.name].
  assert (∀ c, IssueWriter.is_illegal c = false → PyStr.isspace c = false →
               c ≠ PyPath.slash) as Hclean.
  { intros c Hc _ ->. discriminate. }
  rewrite !chars_app, !Forall_app. repeat split.
  - apply sanitize_chars; [done|]. repeat constructor; discriminate.
  - repeat constructor; discriminate.
  - destruct (format_03d_digits (IssueWriter.next_number
                 (IssueWriter.existing_stems
                    (ls (if PyStr.truthy
                              match PyPath.parts source_path with
                              | first :: _ :: _ => first
                              | _ => EmptyString
                              end
                         then IssueWriter.AccountIssues
                                match PyPath.parts source_path with
                                | first :: _ :: _ => first
                                | _ => EmptyString
                                end
                         else IssueWriter.ConfiguredFolder issue_folder)))))
      as [_ Hd].
    eapply Forall_impl; [exact Hd|]. intros c Hc ->. discriminate.
  - repeat constructor; discriminate.
  - apply sanitize_chars; [done|].
    pose proof (stem_chars _ _ (name_no_slash source_abs)) as Hstem.
    unfold PyStr.or_else. destruct (PyStr.truthy _); [done|].
    repeat constructor; discriminate.
  - repeat constructor; discriminate.
Qed.

Section WatchHandlerFacts.
Import AutoWatch.

Lemma handler_processed lookup_file summarize now_iso file_path st st' saved_path :
  _handle_auto_watch_file lookup_file summarize now_iso file_path st
  = (st', Processed saved_path) →
  (∃ file, lookup_file file_path = Some file ∧ is_Some (file 0%nat)
           ∧ _wait_for_stable_file (λ i, file (S i)) = true)
  ∧ summarize file_path = inr saved_path
  ∧ st' = record_processed now_iso file_path saved_path st.
Proof.
  unfold _handle_auto_watch_file.
  destruct (lookup_file file_path) as [file|]; [|discriminate].
  destruct (bool_decide (is_Some (file 0%nat))) eqn:H0; [|discriminate].
  destruct (_wait_for_stable_file _) eqn:Hw; [|discriminate].
  cbn [negb]. destruct (summarize file_path) as [message|sp]; [discriminate|].
  intros [= <- <-]. apply bool_decide_eq_true in H0. eauto 10.
Qed.

End WatchHandlerFacts.

(** X28.  The watch counts a file only after a clean run of the batch
    agent: when its handler reports a file as processed, the file was
    there at entry and passed the wait, the path was accepted and named a
    regular file, [codex exec] was run on the input built from it with the
    default prompt and a budget of 600 seconds and exited with code 0
    having written something else than blanks; the count of processed
    files is one more and the last error is cleared. *)
Theorem watched_file_is_counted_only_after_a_clean_codex_run
    (lookup_file : string → option (nat → option N)) (now_iso : string)
    (os : list string → string → Z → child) (issue_folder : string)
    (ls : IssueWriter.issue_dir → list string) (vault : string)
    (resolve : string → option (string * option string))
    (context_of : string → string) (DEFAULT_PROMPT : string)
    (message_of : Router.summarize_error → string)
    (saved_path_of : IssueWriter.saved → string)
    (file_path : string) (st st' : AutoWatch.WatchState) (saved_path : string) :
  AutoWatch._handle_auto_watch_file lookup_file
    (WatchHandler.summarize os issue_folder ls vault resolve context_of
       DEFAULT_PROMPT message_of saved_path_of)
    now_iso file_path st
  = (st', AutoWatch.Processed saved_path) →
  (∃ file, lookup_file file_path = Some file ∧ is_Some (file 0%nat)
           ∧ AutoWatch._wait_for_stable_file (λ i, file (S i)) = true)
  ∧ (∃ file_abs content out err,
        resolve file_path = Some (file_abs, Some content)
        ∧ os ["codex"; "exec"]
             (Router._build_input content DEFAULT_PROMPT (context_of file_path)) 600
          = Exited 0 out err
        ∧ PyStr.strip out ≠ EmptyString)
  ∧ AutoWatch.processed_count st' = AutoWatch.processed_count st + 1
  ∧ AutoWatch.last_error st' = EmptyString.
Proof.
  intros (Hfile & Hsum & ->)%handler_processed.
  split; [done|]. split; [|done].
  unfold WatchHandler.summarize in Hsum.
  destruct (Router.summarize_file_to_issue _ _ _ _ _ _ _ _ _ _) as [e|saved] eqn:E;
    [discriminate|].
  apply summarize_returns in E as (file_abs & content & out & err & H1 & H2 & _ & H4 & _).
  eauto 10.
Qed.

Lemma watched_file_is_counted_witness :
  AutoWatch.processed_count
    (AutoWatch._handle_auto_watch_file (λ _, Some Fixtures.settled_file)
       (WatchHandler.summarize
          (λ _ _ _, Exited 0 Fixtures.beta_note EmptyString) "issue" (λ _, []) "/vault"
          (λ _, Some ("/vault/team/standup.md", Some "notes")) (λ _, EmptyString)
          "summarize" (λ _, "failed") IssueWriter.name)
       "now" "team/standup.md" Fixtures.watching).1
  = 1.
Proof.
  destruct (watched_file_is_counted_only_after_a_clean_codex_run
              (λ _, Some Fixtures.settled_file) "now"
              (λ _ _ _, Exited 0 Fixtures.beta_note EmptyString) "issue" (λ _, []) "/vault"
              (λ _, Some ("/vault/team/standup.md", Some "notes")) (λ _, EmptyString)
              "summarize" (λ _, "failed") IssueWriter.name
              "team/standup.md" Fixtures.watching _ _ eq_refl) as (_ & _ & H & _).
  exact H.
Defined.

(** X29.  No path is queued twice in a row: a path one tick has queued is
    not queued by the next tick on the same root, whatever the two scans
    found, as long as the requests served meanwhile leave the switch, the
    baseline and the root alone. *)
Theorem no_path_is_queued_twice_in_a_row
    (lookup_file : string → option (nat → option N))
    (summarize_file_to_issue : string → string + string) (now_iso : string)
    (others : string → AutoWatch.WatchState → AutoWatch.WatchState)
    (vault_text : string) (scan1 scan2 : gset string) (st : AutoWatch.WatchState)
    (p : string) :
  (∀ q s, AutoWatch.enabled (others q s) = AutoWatch.enabled s
          ∧ AutoWatch.known_files (others q s) = AutoWatch.known_files s
          ∧ AutoWatch.vault_path (others q s) = AutoWatch.vault_path s) →
  let tick := AutoWatch.tick lookup_file summarize_file_to_issue now_iso others
                vault_text true in
  p ∈ (tick scan1 st).1.2 → p ∉ (tick scan2 (tick scan1 st).1.1).1.2.
Proof.
  intros Hothers tick. subst tick. unfold AutoWatch.tick at 1 3.
  destruct (AutoWatch.enabled st) eqn:Hen; cbn [negb];
    [|by intros ?%elem_of_nil].
  destruct (String.eqb_spec (AutoWatch.vault_path st) vault_text) as [Hv|Hv];
    cbn [negb]; [|by intros ?%elem_of_nil].
  destruct (process_batch_keeps lookup_file summarize_file_to_issue now_iso others
              (AutoWatch.new_files scan1 (AutoWatch.known_files st))
              (AutoWatch.set_known_files scan1 (AutoWatch.set_vault_path vault_text st))
              Hothers) as (He & Hk & Hr).
  destruct (AutoWatch.process_batch _ _ _ _ _ _) as [st3 log].
  cbn [fst snd] in *. intros [Hp _]%elem_of_new_files.
  unfold AutoWatch.tick.
  destruct (negb (AutoWatch.enabled st3)); [apply not_elem_of_nil|]. cbn [negb].
  rewrite Hr. cbn [AutoWatch.vault_path AutoWatch.set_known_files
                     AutoWatch.set_vault_path].
  rewrite String.eqb_refl. cbn [negb]. rewrite Hk.
  cbn [AutoWatch.known_files AutoWatch.set_known_files].
  destruct (AutoWatch.process_batch _ _ _ _ _ _) as [st4 log'].
  cbn [fst snd]. rewrite elem_of_new_files. tauto.
Qed.

Lemma no_path_is_queued_twice_witness :
  let tick := AutoWatch.tick (λ _, Some Fixtures.settled_file) (λ q, inr q) "now"
                (λ _ s, s) "/vault" true in
  "b.md" ∉ (tick {["a.md"; "b.md"; "c.md"]}
              (tick {["a.md"; "b.md"]} Fixtures.watching).1.1).1.2.
Proof.
  apply (no_path_is_queued_twice_in_a_row
           (λ _, Some Fixtures.settled_file) (λ q, inr q) "now"
           (λ _ s, s) "/vault" {["a.md"; "b.md"]} {["a.md"; "b.md"; "c.md"]}
           Fixtures.watching "b.md" (λ _ _, conj eq_refl (conj eq_refl eq_refl))).
  rewrite tick_same_root by reflexivity. cbn [fst snd].
  apply elem_of_new_files. split; [set_solver|].
  unfold Fixtures.watching. cbn [AutoWatch.known_files].
  rewrite elem_of_singleton. discriminate.
Defined.

(** X30.  A resolved command is never empty.  Its first token is the
    first token of the configured command line as [shlex.split] gives
    it, and the agent's own name when the line is blank or holds no
    token.  Nothing more is known of that token: the services do not
    test that it names a program, nor that it is not empty, which the
    first token of a command line that opens with an empty quoted word
    is. *)
Theorem resolved_command_names_a_program
    (shlex_split : string → option (list string)) (settings : Settings)
    (command : list string) :
  let first (command_text agent : string) :=
    if PyStr.truthy command_text
    then match shlex_split command_text with
         | Some (bin :: _) => bin
         | _ => agent
         end
    else agent in
  (Claude._resolve_command shlex_split settings = Some command →
   ∃ args,
     command
     = first (PyStr.strip (PyStr.or_else (claude_cli_command settings) "claude")) "claude"
       :: args)
  ∧ (Codex._resolve_command shlex_split settings = Some command →
     ∃ args,
       command
       = first (PyStr.strip (PyStr.or_else (codex_cli_command settings) "codex")) "codex"
         :: args).
Proof.
  intros first. subst first. cbv beta.
  unfold Claude._resolve_command, Codex._resolve_command.
  split; intros H; destruct (PyStr.truthy _);
    try (destruct (shlex_split _) as [[|bin args]|]; simpl in H);
    try discriminate; injection H as <-; eauto.
  - unfold Claude.resolve_tokens. destruct (_ && _); eauto.
  - unfold Codex.resolve_tokens. destruct (_ && _); eauto.
Qed.

Lemma resolved_command_witness :
  (∃ args, ["claude"; "-p"] = "claude" :: args)
  ∧ (∃ args, [EmptyString; "-p"] = EmptyString :: args).
Proof.
  split.
  - apply (resolved_command_names_a_program Fixtures.shlex_split Fixtures.settings
             ["claude"; "-p"]).
    reflexivity.
  - apply (resolved_command_names_a_program (λ _, Some [EmptyString; "-p"])
             Fixtures.settings [EmptyString; "-p"]).
    reflexivity.
Defined.
